(** * Kanban board server: position bookkeeping of lists and cards

    A shallow embedding of the request handlers of [server.js] that touch the
    [position] column of the [lists] and [cards] tables, together with the
    due-date validation of the card handlers.

    The relational store is a record of tables (lists of rows, in insertion
    order).  Every SQL statement of the handlers is a function on that
    record; a handler is a computation in a small state monad over the
    connection (store, open transaction, statement counter).  A statement
    fails either because the schema refuses it (a foreign key, a value that
    a typed column cannot hold) or because the store fails for a reason of
    its own; the second kind is driven by an explicit schedule [faults], so
    that the rollback paths can be exercised.

    Modelling conventions.
    - Columns of SQL type INT and JavaScript numbers holding them are [Z];
      the 32-bit range of the column is not modelled, and the ids and
      positions of a request are integers.
    - [board_id] and [list_id] of a row are always set (the columns are
      nullable in the schema; rows without an owner belong to no group).
    - Strings are sequences of code units below 256, and a text fits the
      width of the column it is written to.
    - The server runs in the SQL mode MySQL starts with (strict, without
      zero dates): a value that a column cannot hold is refused and the
      statement fails.  A [DATE] column is given texts of the form
      YYYY-MM-DD only and holds the text of a calendar date; an [ENUM]
      column holds the name of one of its members.

    The handlers of the [workers] table send one statement each and share
    nothing with the boards; they are modelled on a table of their own, with
    the UNIQUE key on [email] and the collation of that column as a
    parameter. *)

From Stdlib Require Import ZArith List String Ascii Bool Lia Permutation Arith.
From Stdlib Require Import Sorted DecimalString.
From Stdlib Require QArith_base.
Import ListNotations.
Open Scope Z_scope.

(** ** Tables *)

Record board_row := mkBoard {
  b_id : Z;
  b_title : string;
  b_description : string
}.

Record list_row := mkList {
  l_id : Z;
  l_board_id : Z;
  l_title : string;
  l_position : Z
}.

Record card_row := mkCard {
  c_id : Z;
  c_list_id : Z;
  c_title : string;
  c_description : string;
  c_position : Z;
  c_priority : string;
  c_due_date : option string
}.

(** The three AUTO_INCREMENT counters are part of the store. *)
Record db := mkDb {
  boards : list board_row;
  lists : list list_row;
  cards : list card_row;
  next_board_id : Z;
  next_list_id : Z;
  next_card_id : Z
}.

Definition set_lists (d : db) (ls : list list_row) : db :=
  mkDb (boards d) ls (cards d) (next_board_id d) (next_list_id d) (next_card_id d).

Definition set_cards (d : db) (cs : list card_row) : db :=
  mkDb (boards d) (lists d) cs (next_board_id d) (next_list_id d) (next_card_id d).

Definition with_l_position (l : list_row) (p : Z) : list_row :=
  mkList (l_id l) (l_board_id l) (l_title l) p.

Definition with_c_position (c : card_row) (p : Z) : card_row :=
  mkCard (c_id c) (c_list_id c) (c_title c) (c_description c) p
         (c_priority c) (c_due_date c).

Definition with_c_priority (c : card_row) (priority : string) : card_row :=
  mkCard (c_id c) (c_list_id c) (c_title c) (c_description c) (c_position c)
         priority (c_due_date c).

Definition with_c_place (c : card_row) (list_id p : Z) : card_row :=
  mkCard (c_id c) list_id (c_title c) (c_description c) p
         (c_priority c) (c_due_date c).

Definition empty_db : db := mkDb [] [] [] 1 1 1.

(** ** Results of statements and of requests *)

Inductive db_error :=
| StoreFailure            (* the store failed for a reason of its own *)
| ForeignKeyViolation     (* the schema refused the row *)
| DataTruncated           (* an ENUM column refused the text *)
| IncorrectDateValue.     (* a DATE column refused the text *)

Inductive outcome (A : Type) :=
| Failed (e : db_error)
| Done (a : A).
Arguments Failed {A} e.
Arguments Done {A} a.

Inductive message :=
| Text (s : string)            (* a literal of the handler *)
| ErrMessage (e : db_error).   (* err.message *)

Inductive body :=
| Success                                  (* {success: true} *)
| SuccessDate (due_date : option string)   (* {success: true, due_date} *)
| CreatedList (l : list_row)               (* the new list, cards: [] *)
| CreatedCard (c : card_row)
| Error (m : message).                     (* {error: ...} *)

Inductive response :=
| Reply (status : Z) (b : body)
| Uncaught (what : string).    (* an exception left the callback *)

Definition json (b : body) : response := Reply 200 b.

Definition is_error (r : response) : bool :=
  match r with
  | Reply 200 _ => false
  | _ => true
  end.

(** ** What the typed columns of [cards] hold *)

Definition digit_of (a : ascii) : option Z :=
  let n := nat_of_ascii a in
  if ((48 <=? n) && (n <=? 57))%nat then Some (Z.of_nat (n - 48)) else None.

(** The number written by a sequence of decimal digits. *)
Definition number_of (digits : list ascii) : option Z :=
  fold_left (fun acc a =>
               match acc, digit_of a with
               | Some n, Some k => Some (10 * n + k)
               | _, _ => None
               end) digits (Some 0).

(** Year, month and day of a text of the form YYYY-MM-DD. *)
Definition date_fields (s : string) : option (Z * Z * Z) :=
  match list_ascii_of_string s with
  | [y1; y2; y3; y4; h1; m1; m2; h2; d1; d2] =>
      if Ascii.eqb h1 "-" && Ascii.eqb h2 "-" then
        match number_of [y1; y2; y3; y4], number_of [m1; m2], number_of [d1; d2] with
        | Some y, Some m, Some d => Some (y, m, d)
        | _, _, _ => None
        end
      else None
  | _ => None
  end.

(** The server's rule: every fourth year, not the centuries but for every
    fourth of them, and not the year 0. *)
Definition leap_year (y : Z) : bool :=
  (y mod 4 =? 0) && (negb (y mod 100 =? 0) || ((y mod 400 =? 0) && negb (y =? 0))).

Definition days_in_month (y m : Z) : Z :=
  if m =? 2 then (if leap_year y then 29 else 28)
  else if (m =? 4) || (m =? 6) || (m =? 9) || (m =? 11) then 30
  else 31.

(** due_date DATE: of the texts YYYY-MM-DD the column takes those that name
    a day of the calendar, month and day not zero, and holds them as they
    are; it refuses the others. *)
Definition calendar_date (s : string) : bool :=
  match date_fields s with
  | Some (y, m, d) => (1 <=? m) && (m <=? 12) && (1 <=? d) && (d <=? days_in_month y m)
  | None => false
  end.

Definition date_column (due_date : option string) : bool :=
  match due_date with
  | None => true                 (* NULL *)
  | Some s => calendar_date s
  end.

Definition to_lower (a : ascii) : ascii :=
  let n := nat_of_ascii a in
  if ((65 <=? n) && (n <=? 90))%nat then ascii_of_nat (n + 32) else a.

Fixpoint drop_spaces (l : list ascii) : list ascii :=
  match l with
  | a :: rest => if Ascii.eqb a " " then drop_spaces rest else l
  | [] => []
  end.

(** A text as an ENUM column compares it: without the spaces at its end and
    without regard to the case of its letters. *)
Definition enum_text (s : string) : list ascii :=
  map to_lower (rev (drop_spaces (rev (list_ascii_of_string s)))).

(** What an ENUM column with the given member names holds for a text: the
    member of that name, or the member whose index (from 1) the text writes
    in digits; it refuses every other text. *)
Definition enum_column (names : list string) (s : string) : option string :=
  let text := enum_text s in
  match find (fun name => if list_eq_dec ascii_dec (enum_text name) text
                          then true else false) names with
  | Some name => Some name
  | None =>
      match number_of text with
      | Some index =>
          if (1 <=? index) && (index <=? Z.of_nat (List.length names))
             && (Nat.ltb (List.length text) 6) && negb (Nat.eqb (List.length text) 0)
          then nth_error names (Z.to_nat (index - 1))
          else None
      | None => None
      end
  end.

(** priority ENUM('low', 'medium', 'high', 'urgent') *)
Definition priority_column (priority : string) : option string :=
  enum_column ["low"; "medium"; "high"; "urgent"]%string priority.
Arguments priority_column : simpl never.
Arguments date_column : simpl never.
Arguments calendar_date : simpl never.

(** ** SQL statements *)

Definition has_board (d : db) (id : Z) : bool :=
  existsb (fun b => b_id b =? id) (boards d).

Definition has_list (d : db) (id : Z) : bool :=
  existsb (fun l => l_id l =? id) (lists d).

(** MAX(position) over a set of rows; NULL on the empty set. *)
Fixpoint sql_max (ps : list Z) : option Z :=
  match ps with
  | [] => None
  | p :: ps' =>
      match sql_max ps' with
      | None => Some p
      | Some m => Some (Z.max p m)
      end
  end.

Definition coalesce (v : option Z) (dflt : Z) : Z :=
  match v with
  | Some x => x
  | None => dflt
  end.

(** ORDER BY position: a stable insertion sort of the matching rows (rows
    with equal positions stay in table order; SQL leaves their order open). *)
Fixpoint insert_by_position (l : list_row) (sorted : list list_row) : list list_row :=
  match sorted with
  | [] => [l]
  | x :: rest =>
      if l_position l <=? l_position x then l :: sorted
      else x :: insert_by_position l rest
  end.

Definition order_by_position (ls : list list_row) : list list_row :=
  fold_right insert_by_position [] ls.

(** SELECT * FROM cards WHERE id = ? *)
Definition select_card (cardId : Z) (d : db) : list card_row :=
  filter (fun c => c_id c =? cardId) (cards d).

(** SELECT * FROM lists WHERE id = ? *)
Definition select_list (listId : Z) (d : db) : list list_row :=
  filter (fun l => l_id l =? listId) (lists d).

(** SELECT * FROM lists WHERE board_id = ? ORDER BY position *)
Definition select_lists_of_board (board_id : Z) (d : db) : list list_row :=
  order_by_position (filter (fun l => l_board_id l =? board_id) (lists d)).

(** SELECT COALESCE(MAX(position), -1) + 1 as nextPos FROM lists WHERE board_id = ? *)
Definition next_list_position (board_id : Z) (d : db) : Z :=
  coalesce (sql_max (map l_position
              (filter (fun l => l_board_id l =? board_id) (lists d)))) (-1) + 1.

(** SELECT COALESCE(MAX(position), -1) + 1 as nextPos FROM cards WHERE list_id = ? *)
Definition next_card_position (list_id : Z) (d : db) : Z :=
  coalesce (sql_max (map c_position
              (filter (fun c => c_list_id c =? list_id) (cards d)))) (-1) + 1.

(** UPDATE cards SET position = position - 1
    WHERE list_id = ? AND position > ? AND position <= ? *)
Definition shift_down_between (list_id lo hi : Z) (d : db) : db :=
  set_cards d
    (map (fun c =>
            if (c_list_id c =? list_id) && (c_position c >? lo) && (c_position c <=? hi)
            then with_c_position c (c_position c - 1) else c)
         (cards d)).

(** UPDATE cards SET position = position + 1
    WHERE list_id = ? AND position >= ? AND position < ? *)
Definition shift_up_between (list_id lo hi : Z) (d : db) : db :=
  set_cards d
    (map (fun c =>
            if (c_list_id c =? list_id) && (c_position c >=? lo) && (c_position c <? hi)
            then with_c_position c (c_position c + 1) else c)
         (cards d)).

(** UPDATE cards SET position = position - 1 WHERE list_id = ? AND position > ? *)
Definition shift_down_after (list_id p : Z) (d : db) : db :=
  set_cards d
    (map (fun c =>
            if (c_list_id c =? list_id) && (c_position c >? p)
            then with_c_position c (c_position c - 1) else c)
         (cards d)).

(** UPDATE cards SET position = position + 1 WHERE list_id = ? AND position >= ? *)
Definition shift_up_from (list_id p : Z) (d : db) : db :=
  set_cards d
    (map (fun c =>
            if (c_list_id c =? list_id) && (c_position c >=? p)
            then with_c_position c (c_position c + 1) else c)
         (cards d)).

(** UPDATE cards SET list_id = ?, position = ? WHERE id = ?
    The foreign key of [cards.list_id] is checked for the rows written. *)
Definition place_card (list_id position cardId : Z) (d : db) : outcome db :=
  if existsb (fun c => c_id c =? cardId) (cards d) && negb (has_list d list_id)
  then Failed ForeignKeyViolation
  else Done (set_cards d
               (map (fun c => if c_id c =? cardId
                              then with_c_place c list_id position else c)
                    (cards d))).

(** UPDATE lists SET position = ? WHERE id = ? *)
Definition set_list_position (index id : Z) (d : db) : db :=
  set_lists d
    (map (fun l => if l_id l =? id then with_l_position l index else l) (lists d)).

(** INSERT INTO lists (board_id, title, position) VALUES (?, ?, ?) *)
Definition insert_list (board_id : Z) (title : string) (position : Z) (d : db)
  : outcome (Z * db) :=
  if has_board d board_id then
    let id := next_list_id d in
    Done (id, mkDb (boards d)
                   (lists d ++ [mkList id board_id title position])
                   (cards d) (next_board_id d) (id + 1) (next_card_id d))
  else Failed ForeignKeyViolation.

(** INSERT INTO cards (list_id, title, description, position, priority, due_date)
    VALUES (?, ?, ?, ?, ?, ?) *)
Definition insert_card (list_id : Z) (title description : string) (position : Z)
           (priority : string) (due_date : option string) (d : db)
  : outcome (Z * db) :=
  match priority_column priority with
  | None => Failed DataTruncated
  | Some held =>
      if negb (date_column due_date) then Failed IncorrectDateValue
      else if has_list d list_id then
        let id := next_card_id d in
        Done (id, mkDb (boards d) (lists d)
                       (cards d ++ [mkCard id list_id title description position
                                           held due_date])
                       (next_board_id d) (next_list_id d) (id + 1))
      else Failed ForeignKeyViolation
  end.

(** The rows with id [cardId] given the four values. *)
Definition set_card_fields (title description priority : string)
           (due_date : option string) (cardId : Z) (d : db) : db :=
  set_cards d
    (map (fun c => if c_id c =? cardId
                   then mkCard (c_id c) (c_list_id c) title description
                               (c_position c) priority due_date
                   else c)
         (cards d)).

(** UPDATE cards SET title = ?, description = ?, priority = ?, due_date = ? WHERE id = ?
    The values are checked against the columns for the rows written. *)
Definition update_card_fields (title description priority : string)
           (due_date : option string) (cardId : Z) (d : db) : outcome db :=
  if existsb (fun c => c_id c =? cardId) (cards d) then
    match priority_column priority with
    | None => Failed DataTruncated
    | Some held =>
        if negb (date_column due_date) then Failed IncorrectDateValue
        else Done (set_card_fields title description held due_date cardId d)
    end
  else Done d.

(** DELETE FROM cards WHERE id = ? *)
Definition delete_card_row (cardId : Z) (d : db) : db :=
  set_cards d (filter (fun c => negb (c_id c =? cardId)) (cards d)).

(** DELETE FROM lists WHERE id = ?
    [cards.list_id] is declared ON DELETE CASCADE. *)
Definition delete_list_row (listId : Z) (d : db) : db :=
  mkDb (boards d)
       (filter (fun l => negb (l_id l =? listId)) (lists d))
       (if has_list d listId
        then filter (fun c => negb (c_list_id c =? listId)) (cards d)
        else cards d)
       (next_board_id d) (next_list_id d) (next_card_id d).

(** ** JavaScript values and string operations used by the handlers *)

(** The values [due_date] can hold: absent from the request body, any value
    of JSON (null, a string, a boolean, a number, an array or an object), or
    the [Date] object the driver builds for a DATE column. *)
Inductive js_value :=
| JUndefined
| JNull
| JString (s : string)
| JDate (d : string)
| JBoolean (b : bool)
| JNumber (x : QArith_base.Q)
| JObject.                     (* an array or an object *)

Definition truthy (v : js_value) : bool :=
  match v with
  | JUndefined | JNull => false
  | JString s => negb (String.eqb s EmptyString)
  | JDate _ => true
  | JBoolean b => b
  | JNumber x => negb (QArith_base.Qnum x =? 0)
  | JObject => true
  end.

(** White space and line terminators stripped by [String.prototype.trim]. *)
Definition is_white_space (a : ascii) : bool :=
  let n := nat_of_ascii a in
  ((9 <=? n) && (n <=? 13) || (n =? 32) || (n =? 160))%nat.

Fixpoint trimStart (s : string) : string :=
  match s with
  | EmptyString => EmptyString
  | String a rest => if is_white_space a then trimStart rest else s
  end.

Definition reverse (s : string) : string :=
  string_of_list_ascii (rev (list_ascii_of_string s)).

Definition trim (s : string) : string :=
  reverse (trimStart (reverse (trimStart s))).

(** [s.split("T")[0]]: the text before the first capital T. *)
Fixpoint split_T_head (s : string) : string :=
  match s with
  | EmptyString => EmptyString
  | String a rest =>
      if Ascii.eqb a "T"%char then EmptyString else String a (split_T_head rest)
  end.

Definition is_digit (a : ascii) : bool :=
  let n := nat_of_ascii a in ((48 <=? n) && (n <=? 57))%nat.

(** Anchored patterns made of [\d] and literal characters. *)
Inductive atom :=
| Digit
| Chr (a : ascii).

Fixpoint matches (p : list atom) (s : string) : bool :=
  match p, s with
  | [], EmptyString => true
  | Digit :: p', String a s' => is_digit a && matches p' s'
  | Chr b :: p', String a s' => Ascii.eqb a b && matches p' s'
  | _, _ => false
  end.

(** /^\d{4}-\d{2}-\d{2}$/ *)
Definition date_pattern : list atom :=
  [Digit; Digit; Digit; Digit; Chr "-"%char; Digit; Digit; Chr "-"%char; Digit; Digit].

Inductive date_check :=
| Formatted (formattedDate : option string)
| InvalidDate       (* the handler answers 400 *)
| NotAFunction.     (* [trim] called on a value that has none *)

(** The block both card handlers run on the due date (create: lines 426-445,
    update: lines 671-690).  Of the values a request body or the driver can
    supply, only strings have a [trim] method, so the branch for a truthy
    value that is not a string is never reached with a result. *)
Definition format_due_date (due_date : js_value) : date_check :=
  if truthy due_date then
    match due_date with
    | JString s =>
        if negb (String.eqb (trim s) EmptyString) then
          let formattedDate := split_T_head s in
          if negb (matches date_pattern formattedDate) then InvalidDate
          else Formatted (Some formattedDate)
        else Formatted None
    | _ => NotAFunction
    end
  else Formatted None.
Arguments format_due_date : simpl never.

(** [x || dflt] on an optional string. *)
Definition or_default (x : option string) (dflt : string) : string :=
  match x with
  | None => dflt
  | Some s => if String.eqb s EmptyString then dflt else s
  end.

(** [Array.prototype.splice(start, 0, item)] for an integer [start]. *)
Definition splice_start (start len : Z) : Z :=
  if start <? 0 then Z.max (len + start) 0 else Z.min start len.

Definition splice {A : Type} (start : Z) (item : A) (l : list A) : list A :=
  let k := Z.to_nat (splice_start start (Z.of_nat (List.length l))) in
  firstn k l ++ item :: skipn k l.

(** What the driver hands back for a stored due date: a [Date] object for a
    DATE column that is set (the board loader tests [instanceof Date]). *)
Definition stored_date (d : option string) : js_value :=
  match d with
  | None => JNull
  | Some s => JDate s
  end.

(** ** The connection *)

(** [snapshot] is the store as it was when the open transaction began. *)
Record conn := mkConn {
  store : db;
  snapshot : option db;
  clock : nat
}.

Definition M (A : Type) : Type := conn -> A * conn.

Definition ret {A : Type} (a : A) : M A := fun c => (a, c).

Definition bind {A B : Type} (m : M A) (k : A -> M B) : M B :=
  fun c => let (a, c') := m c in k a c'.

Notation "x <- m ;; k" := (bind m (fun x => k))
  (at level 61, m at next level, right associativity).
Notation "m ;;; k" := (bind m (fun _ => k))
  (at level 61, right associativity).

Definition reading {A : Type} (f : db -> A) : db -> outcome (A * db) :=
  fun d => Done (f d, d).

Definition writing (f : db -> db) : db -> outcome (unit * db) :=
  fun d => Done (tt, f d).

Definition checked (f : db -> outcome db) : db -> outcome (unit * db) :=
  fun d => match f d with
           | Failed e => Failed e
           | Done d' => Done (tt, d')
           end.

Definition idle (d : db) : conn := mkConn d None 0.

Section Handlers.

(** [faults k] tells whether the k-th statement sent to the store fails. *)
Variable faults : nat -> bool.

(** db.query *)
Definition query {A : Type} (stmt : db -> outcome (A * db)) : M (outcome A) :=
  fun c =>
    if faults (clock c) then
      (Failed StoreFailure, mkConn (store c) (snapshot c) (S (clock c)))
    else
      match stmt (store c) with
      | Failed e => (Failed e, mkConn (store c) (snapshot c) (S (clock c)))
      | Done (a, d') => (Done a, mkConn d' (snapshot c) (S (clock c)))
      end.

(** db.beginTransaction *)
Definition beginTransaction : M (option db_error) :=
  fun c =>
    if faults (clock c) then
      (Some StoreFailure, mkConn (store c) (snapshot c) (S (clock c)))
    else (None, mkConn (store c) (Some (store c)) (S (clock c))).

(** db.commit *)
Definition commit : M (option db_error) :=
  fun c =>
    if faults (clock c) then
      (Some StoreFailure, mkConn (store c) (snapshot c) (S (clock c)))
    else (None, mkConn (store c) None (S (clock c))).

(** db.rollback; its own error argument is ignored by every caller. *)
Definition rollback : M unit :=
  fun c =>
    (tt, mkConn (match snapshot c with Some d => d | None => store c end)
                None (clock c)).

Definition status500 (e : db_error) : response := Reply 500 (Error (ErrMessage e)).

(** db.rollback(() => res.status(500).json({ error: err.message })) *)
Definition rollback500 (e : db_error) : M response :=
  rollback ;;; ret (status500 e).

(** POST /api/lists *)
Definition create_list (board_id : Z) (title : string) : M response :=
  r <- query (reading (next_list_position board_id)) ;;
  match r with
  | Failed e => ret (status500 e)
  | Done position =>
      r <- query (insert_list board_id title position) ;;
      match r with
      | Failed e => ret (status500 e)
      | Done insertId => ret (json (CreatedList (mkList insertId board_id title position)))
      end
  end.

(** POST /api/cards *)
Definition create_card (list_id : Z) (title : string) (description : option string)
           (due_date : js_value) (priority : option string) : M response :=
  r <- query (reading (next_card_position list_id)) ;;
  match r with
  | Failed e => ret (status500 e)
  | Done position =>
      match format_due_date due_date with
      | NotAFunction => ret (Uncaught "TypeError")
      | InvalidDate => ret (Reply 400 (Error (Text "Invalid date format")))
      | Formatted formattedDate =>
          r <- query (insert_card list_id title (or_default description "") position
                                  (or_default priority "medium") formattedDate) ;;
          match r with
          | Failed e => ret (status500 e)
          | Done insertId =>
              ret (json (CreatedCard
                           (mkCard insertId list_id title (or_default description "")
                                   position (or_default priority "medium")
                                   formattedDate)))
          end
      end
  end.

(** The inner function of the move handler. *)
Definition updateCardPosition (cardId list_id position : Z) : M response :=
  r <- query (checked (place_card list_id position cardId)) ;;
  match r with
  | Failed e => rollback500 e
  | Done _ =>
      err <- commit ;;
      match err with
      | Some e => rollback500 e
      | None => ret (json Success)
      end
  end.

(** PUT /api/cards/:id/move *)
Definition move_card (cardId list_id position : Z) : M response :=
  err <- beginTransaction ;;
  match err with
  | Some e => ret (status500 e)
  | None =>
      r <- query (reading (select_card cardId)) ;;
      match r with
      | Failed e => rollback500 e
      | Done [] => rollback ;;; ret (Reply 404 (Error (Text "Card not found")))
      | Done (currentCard :: _) =>
          if c_list_id currentCard =? list_id then
            if position >? c_position currentCard then
              r <- query (writing (shift_down_between
                                     list_id (c_position currentCard) position)) ;;
              match r with
              | Failed e => rollback500 e
              | Done _ => updateCardPosition cardId list_id position
              end
            else if position <? c_position currentCard then
              r <- query (writing (shift_up_between
                                     list_id position (c_position currentCard))) ;;
              match r with
              | Failed e => rollback500 e
              | Done _ => updateCardPosition cardId list_id position
              end
            else
              err <- commit ;;
              match err with
              | Some e => rollback500 e
              | None => ret (json Success)
              end
          else
            r <- query (writing (shift_down_after
                                   (c_list_id currentCard) (c_position currentCard))) ;;
            match r with
            | Failed e => rollback500 e
            | Done _ =>
                r <- query (writing (shift_up_from list_id position)) ;;
                match r with
                | Failed e => rollback500 e
                | Done _ => updateCardPosition cardId list_id position
                end
            end
      end
  end.

(** The request body of PUT /api/cards/:id; [None] is an absent field. *)
Record card_updates := mkUpdates {
  u_title : option string;
  u_description : option string;
  u_priority : option string;
  u_due_date : js_value
}.

(** PUT /api/cards/:id *)
Definition update_card (cardId : Z) (updates : card_updates) : M response :=
  r <- query (reading (select_card cardId)) ;;
  match r with
  | Failed e => ret (status500 e)
  | Done [] => ret (Reply 404 (Error (Text "Card not found")))
  | Done (currentCard :: _) =>
      let title :=
        match u_title updates with Some t => t | None => c_title currentCard end in
      let description :=
        match u_description updates with
        | Some t => t
        | None => c_description currentCard
        end in
      let priority :=
        match u_priority updates with Some t => t | None => c_priority currentCard end in
      let due_date :=
        match u_due_date updates with
        | JUndefined => stored_date (c_due_date currentCard)
        | v => v
        end in
      match format_due_date due_date with
      | NotAFunction => ret (Uncaught "TypeError")
      | InvalidDate => ret (Reply 400 (Error (Text "Invalid date format")))
      | Formatted formattedDate =>
          r <- query (checked (update_card_fields
                                 title (or_default (Some description) "")
                                 (or_default (Some priority) "medium")
                                 formattedDate cardId)) ;;
          match r with
          | Failed e => ret (status500 e)
          | Done _ => ret (json (SuccessDate formattedDate))
          end
      end
  end.

(** [otherLists.map((list, index) => ...)]: every UPDATE is sent before any
    of them answers; the result is the first rejection, if any. *)
Fixpoint update_positions (otherLists : list list_row) (index : Z)
  : M (option db_error) :=
  match otherLists with
  | [] => ret None
  | list :: rest =>
      r <- query (writing (set_list_position index (l_id list))) ;;
      later <- update_positions rest (index + 1) ;;
      ret (match r with
           | Failed e => Some e
           | Done _ => later
           end)
  end.

(** PUT /api/lists/:id/reorder *)
Definition reorder_list (listId position : Z) : M response :=
  err <- beginTransaction ;;
  match err with
  | Some e => ret (status500 e)
  | None =>
      r <- query (reading (select_list listId)) ;;
      match r with
      | Failed e => rollback500 e
      | Done [] => rollback ;;; ret (Reply 404 (Error (Text "List not found")))
      | Done (currentList :: _) =>
          r <- query (reading (select_lists_of_board (l_board_id currentList))) ;;
          match r with
          | Failed e => rollback500 e
          | Done allLists =>
              let otherLists :=
                splice position currentList
                       (filter (fun list => negb (l_id list =? listId)) allLists) in
              rejected <- update_positions otherLists 0 ;;
              match rejected with
              | Some e => rollback500 e
              | None =>
                  err <- commit ;;
                  match err with
                  | Some e => rollback500 e
                  | None => ret (json Success)
                  end
              end
          end
      end
  end.

(** DELETE /api/cards/:id *)
Definition delete_card (cardId : Z) : M response :=
  r <- query (writing (delete_card_row cardId)) ;;
  match r with
  | Failed e => ret (status500 e)
  | Done _ => ret (json Success)
  end.

(** DELETE /api/lists/:id *)
Definition delete_list (listId : Z) : M response :=
  r <- query (writing (delete_list_row listId)) ;;
  match r with
  | Failed e => ret (status500 e)
  | Done _ => ret (json Success)
  end.

(** INSERT INTO boards (title, description) VALUES (?, ?) *)
Definition insert_board (title description : string) (d : db) : outcome (Z * db) :=
  let id := next_board_id d in
  Done (id, mkDb (boards d ++ [mkBoard id title description]) (lists d) (cards d)
                 (id + 1) (next_list_id d) (next_card_id d)).

(** createDefaultData: one board with three lists; a failed insert of a
    list is logged and nothing else. *)
Definition createDefaultData : M unit :=
  r <- query (insert_board "KanBan Board" "Welcome to your Kanban board!") ;;
  match r with
  | Failed _ => ret tt
  | Done boardId =>
      query (insert_list boardId "To Do" 0) ;;;
      query (insert_list boardId "In Progress" 1) ;;;
      query (insert_list boardId "Done" 2) ;;;
      ret tt
  end.

End Handlers.

(** A store that never fails on its own. *)
Definition reliable : nat -> bool := fun _ => false.

(** Running a handler on an idle connection: the answer and the store left. *)
Definition run {A : Type} (h : M A) (d : db) : A * db :=
  let (a, c) := h (idle d) in (a, store c).

(** ** Ordered sibling sets

    Lists of a board and cards of a list are two instances of one notion: rows
    with a group key and a position. *)

Section Groups.

Variable row : Type.
Variable key : row -> Z.
Variable pos : row -> Z.

Definition group (k : Z) (rows : list row) : list row :=
  filter (fun r => key r =? k) rows.

Definition positions (k : Z) (rows : list row) : list Z :=
  map pos (group k rows).

Definition size (k : Z) (rows : list row) : Z :=
  Z.of_nat (List.length (group k rows)).

(** Density of the groups selected by [K], said row by row: two rows of one
    group never share a position, and every position is below the size of
    its group. *)
Definition slots_ok (K : Z -> Prop) (rows : list row) : Prop :=
  (forall a b, In a rows -> In b rows -> K (key a) ->
               key a = key b -> pos a = pos b -> a = b) /\
  (forall a, In a rows -> K (key a) -> 0 <= pos a < size (key a) rows).

End Groups.

(** The positions are 0, 1, ..., n-1 in some order: no gap, no duplicate. *)
Definition dense (ps : list Z) : Prop :=
  Permutation ps (map Z.of_nat (seq 0 (List.length ps))).

Definition cards_of (list_id : Z) (d : db) : list card_row :=
  group card_row c_list_id list_id (cards d).

Definition card_positions (list_id : Z) (d : db) : list Z :=
  positions card_row c_list_id c_position list_id (cards d).

Definition lists_of (board_id : Z) (d : db) : list list_row :=
  group list_row l_board_id board_id (lists d).

Definition list_positions (board_id : Z) (d : db) : list Z :=
  positions list_row l_board_id l_position board_id (lists d).

(** Every board's lists and every list's cards are densely numbered. *)
Definition all_dense (d : db) : Prop :=
  (forall board_id, dense (list_positions board_id d)) /\
  (forall list_id, dense (card_positions list_id d)).

(** What PRIMARY KEY, AUTO_INCREMENT and the FOREIGN KEY of [cards.list_id]
    guarantee for the two tables. *)
Record keys_ok (d : db) : Prop := {
  card_ids_unique : NoDup (map c_id (cards d));
  list_ids_unique : NoDup (map l_id (lists d));
  card_ids_issued : forall c, In c (cards d) -> c_id c < next_card_id d;
  list_ids_issued : forall l, In l (lists d) -> l_id l < next_list_id d;
  cards_owned : forall c, In c (cards d) -> has_list d (c_list_id c) = true
}.

(** ** The operations as the specification words them *)

(** append: the current maximum plus one, or 0 for an empty group. *)
Definition append_position (ps : list Z) : Z :=
  match ps with
  | [] => 0
  | p :: rest => fold_right Z.max p rest + 1
  end.

(** moveWithinGroup, from [p] to [t] in one list. *)
Definition moveWithinGroup (cardId list_id p t : Z) (c : card_row) : card_row :=
  if c_id c =? cardId then with_c_position c t
  else if c_list_id c =? list_id then
    if (t >? p) && (p <? c_position c) && (c_position c <=? t)
    then with_c_position c (c_position c - 1)
    else if (t <? p) && (t <=? c_position c) && (c_position c <? p)
    then with_c_position c (c_position c + 1)
    else c
  else c.

(** moveAcrossGroup, from position [p] of list [A] to position [t] of list [B]. *)
Definition moveAcrossGroup (cardId A p B t : Z) (c : card_row) : card_row :=
  if c_id c =? cardId then with_c_place c B t
  else if (c_list_id c =? A) && (p <? c_position c)
  then with_c_position c (c_position c - 1)
  else if (c_list_id c =? B) && (t <=? c_position c)
  then with_c_position c (c_position c + 1)
  else c.

(** The in-memory sequence the list handler numbers: the board's lists in
    position order, the moved one taken out and put back at [position]. *)
Definition resequenced (currentList : list_row) (position : Z) (d : db) : list list_row :=
  splice position currentList
         (filter (fun list => negb (l_id list =? l_id currentList))
                 (select_lists_of_board (l_board_id currentList) d)).

(** The index of the row with the given id in a sequence, counted from [k]. *)
Fixpoint index_from (k id : Z) (sequence : list list_row) : option Z :=
  match sequence with
  | [] => None
  | l :: rest => if l_id l =? id then Some k else index_from (k + 1) id rest
  end.

(** A row is given its index in the sequence; rows outside it are kept. *)
Definition renumber_from (k : Z) (sequence : list list_row) (l : list_row) : list_row :=
  match index_from k (l_id l) sequence with
  | Some i => with_l_position l i
  | None => l
  end.

Definition renumber (sequence : list list_row) (l : list_row) : list_row :=
  renumber_from 0 sequence l.

(** A due date made of white space only (or of nothing). *)
Definition blank (s : string) : bool :=
  forallb is_white_space (list_ascii_of_string s).

(** ** Requests *)

Inductive request :=
| PostList (board_id : Z) (title : string)
| PostCard (list_id : Z) (title : string) (description : option string)
           (due_date : js_value) (priority : option string)
| PutCard (cardId : Z) (updates : card_updates)
| MoveCard (cardId list_id position : Z)
| ReorderList (listId position : Z)
| DeleteCard (cardId : Z)
| DeleteList (listId : Z).

Definition handle (faults : nat -> bool) (r : request) : M response :=
  match r with
  | PostList board_id title => create_list faults board_id title
  | PostCard list_id title description due_date priority =>
      create_card faults list_id title description due_date priority
  | PutCard cardId updates => update_card faults cardId updates
  | MoveCard cardId list_id position => move_card faults cardId list_id position
  | ReorderList listId position => reorder_list faults listId position
  | DeleteCard cardId => delete_card faults cardId
  | DeleteList listId => delete_list faults listId
  end.

(** A move names a slot of the target list: one of its present slots when the
    card stays in its list, one more when it arrives from elsewhere. *)
Definition target_in_range (d : db) (cardId list_id position : Z) : Prop :=
  match select_card cardId d with
  | [] => True
  | currentCard :: _ =>
      if c_list_id currentCard =? list_id
      then 0 <= position < size card_row c_list_id list_id (cards d)
      else 0 <= position <= size card_row c_list_id list_id (cards d)
  end.

(** The requests that are not deletions and whose move targets are in range. *)
Definition gap_free_request (d : db) (r : request) : Prop :=
  match r with
  | MoveCard cardId list_id position => target_in_range d cardId list_id position
  | DeleteCard _ | DeleteList _ => False
  | _ => True
  end.

(** [serves d rs d']: serving the requests [rs] one after the other, each
    under its own fault schedule, leads from [d] to [d']. *)
Inductive serves : db -> list request -> db -> Prop :=
| serves_nil : forall d, serves d [] d
| serves_cons : forall d faults r rs d',
    gap_free_request d r ->
    serves (snd (run (handle faults r) d)) rs d' ->
    serves d (r :: rs) d'.

(** The same without any restriction on the requests. *)
Inductive serves_any : db -> list request -> db -> Prop :=
| serves_any_nil : forall d, serves_any d [] d
| serves_any_cons : forall d faults r rs d',
    serves_any (snd (run (handle faults r) d)) rs d' ->
    serves_any d (r :: rs) d'.

(** Appending cards with the given titles to one list, in order. *)
Fixpoint append_cards (list_id : Z) (titles : list string) (d : db) : db :=
  match titles with
  | [] => d
  | title :: rest =>
      append_cards list_id rest
        (snd (run (create_card reliable list_id title None JUndefined None) d))
  end.

(** Appending lists with the given titles to one board, in order. *)
Fixpoint append_lists (board_id : Z) (titles : list string) (d : db) : db :=
  match titles with
  | [] => d
  | title :: rest =>
      append_lists board_id rest
        (snd (run (create_list reliable board_id title) d))
  end.

(** Statements sent to the store while [h] runs on an idle connection. *)
Definition statements_sent {A : Type} (h : M A) (d : db) : nat :=
  clock (snd (h (idle d))).

Definition some_statement_failed {A : Type} (faults : nat -> bool) (h : M A) (d : db)
  : Prop :=
  exists k, (k < statements_sent h d)%nat /\ faults k = true.

(** Either the request failed and the store is as it was, or it went through
    exactly as on a store that does not fail, no statement having failed. *)
Definition all_or_nothing (faults : nat -> bool) (h : (nat -> bool) -> M response)
           (d : db) : Prop :=
  (is_error (fst (run (h faults) d)) = true /\ snd (run (h faults) d) = d) \/
  (is_error (fst (run (h faults) d)) = false /\
   run (h faults) d = run (h reliable) d /\
   forall k, (k < statements_sent (h faults) d)%nat -> faults k = false).

(** ** A small board used in the examples *)

Definition plain_card (id list_id position : Z) (title : string) : card_row :=
  mkCard id list_id title "" position "medium" None.

(** One board; list 1 holds A, B, C at 0, 1, 2 and list 2 holds Z at 0. *)
Definition small_board : db :=
  mkDb [mkBoard 1 "Board" ""]
       [mkList 1 1 "To Do" 0; mkList 2 1 "In Progress" 1; mkList 3 1 "Done" 2]
       [plain_card 1 1 0 "A"; plain_card 2 1 1 "B"; plain_card 3 1 2 "C";
        plain_card 4 2 0 "Z"]
       2 4 5.

(** ** Further notions used for the handlers *)

(** No two lists of a board and no two cards of a list share a position. *)
Definition distinct_positions (d : db) : Prop :=
  (forall board_id, NoDup (list_positions board_id d)) /\
  (forall list_id, NoDup (card_positions list_id d)).

(** The rows of the three tables, leaving the AUTO_INCREMENT counters out. *)
Definition tables (d : db) : list board_row * list list_row * list card_row :=
  (boards d, lists d, cards d).

(** Where a card is: its id, its list and its position. *)
Definition place (c : card_row) : Z * Z * Z := (c_id c, c_list_id c, c_position c).

(** Said row by row: two cards of one list at one position are one card. *)
Definition apart (cs : list card_row) : Prop :=
  forall a b, In a cs -> In b cs ->
              c_list_id a = c_list_id b -> c_position a = c_position b -> a = b.

(** ** The other handlers of boards and lists *)

(** UPDATE lists SET title = ? WHERE id = ? *)
Definition set_list_title (title : string) (listId : Z) (d : db) : db :=
  set_lists d
    (map (fun l => if l_id l =? listId
                   then mkList (l_id l) (l_board_id l) title (l_position l)
                   else l)
         (lists d)).

(** PUT /api/lists/:id *)
Definition rename_list (faults : nat -> bool) (listId : Z) (title : string)
  : M response :=
  r <- query faults (writing (set_list_title title listId)) ;;
  match r with
  | Failed e => ret (status500 e)
  | Done _ => ret (json Success)
  end.

Inductive board_reply :=
| BoardCreated (id : Z) (title : string) (description : option string)
| BoardFailed (status : Z) (e : db_error).

(** POST /api/boards: the row holds [description || ""], the answer the
    description as it was sent. *)
Definition create_board (faults : nat -> bool) (title : string)
           (description : option string) : M board_reply :=
  r <- query faults (insert_board title (or_default description "")) ;;
  match r with
  | Failed e => ret (BoardFailed 500 e)
  | Done insertId => ret (BoardCreated insertId title description)
  end.

(** CREATE TABLE IF NOT EXISTS on a store whose tables exist; an error is
    logged and nothing else. *)
Definition create_table (faults : nat -> bool) : M unit :=
  query faults (writing (fun d => d)) ;;; ret tt.

(** SELECT COUNT( * ) as count FROM boards *)
Definition count_boards (d : db) : Z := Z.of_nat (List.length (boards d)).

(** initializeDatabase: the five tables, then the default data when there
    is no board at all. *)
Definition initializeDatabase (faults : nat -> bool) : M unit :=
  create_table faults ;;;
  create_table faults ;;;
  create_table faults ;;;
  create_table faults ;;;
  create_table faults ;;;
  r <- query faults (reading count_boards) ;;
  match r with
  | Failed _ => ret tt
  | Done count => if count =? 0 then createDefaultData faults else ret tt
  end.

(** ** Loading a board *)

(** ORDER BY position on any table: a stable insertion sort by a key. *)
Fixpoint insert_by {A : Type} (key : A -> Z) (x : A) (sorted : list A) : list A :=
  match sorted with
  | [] => [x]
  | y :: rest =>
      if key x <=? key y then x :: sorted
      else y :: insert_by key x rest
  end.

Definition order_by {A : Type} (key : A -> Z) (rows : list A) : list A :=
  fold_right (insert_by key) [] rows.

(** SELECT * FROM boards WHERE id = ? *)
Definition select_board (boardId : Z) (d : db) : list board_row :=
  filter (fun b => b_id b =? boardId) (boards d).

(** SELECT * FROM cards WHERE list_id = ? ORDER BY position *)
Definition select_cards_of_list (list_id : Z) (d : db) : list card_row :=
  order_by c_position (filter (fun c => c_list_id c =? list_id) (cards d)).

(** What the driver hands over for a DATE column that is set: a Date
    object, of which the handler reads [getFullYear()], [getMonth()] and
    [getDate()], or a string. *)
Inductive loaded_date :=
| AsDate (getFullYear getMonth getDate : nat)
| AsString (s : string).

(** [String(n)] for a number that is a natural. *)
Definition string_of_nat (n : nat) : string :=
  NilEmpty.string_of_uint (Nat.to_uint n).

(** [s.padStart(2, "0")] *)
Definition padStart2 (s : string) : string :=
  match String.length s with
  | O => "00"
  | S O => String "0" s
  | _ => s
  end.

(** The template [`${year}-${month}-${day}`] of the loader. *)
Definition format_date_object (getFullYear getMonth getDate : nat) : string :=
  let year := string_of_nat getFullYear in
  let month := padStart2 (string_of_nat (getMonth + 1)) in
  let day := padStart2 (string_of_nat getDate) in
  (year ++ String "-" (month ++ String "-" day))%string.

(** {...list, cards: formattedCards} *)
Record list_view := mkView {
  v_list : list_row;
  v_cards : list card_row
}.

Inductive board_answer :=
| BoardJson (board : board_row) (lists : list list_view)
| BoardError (status : Z) (m : message).

Section Loader.

(** How the driver presents the text held by a DATE column. *)
Variable driver_date : string -> loaded_date.

Definition formattedDueDate (due_date : option string) : option string :=
  match due_date with
  | None => None
  | Some stored =>
      match driver_date stored with
      | AsDate y m d => Some (format_date_object y m d)
      | AsString s =>
          if String.eqb s EmptyString then None else Some (split_T_head s)
      end
  end.

(** {...card, due_date: formattedDueDate} *)
Definition formattedCard (card : card_row) : card_row :=
  mkCard (c_id card) (c_list_id card) (c_title card) (c_description card)
         (c_position card) (c_priority card) (formattedDueDate (c_due_date card)).

(** [lists.map(...)] and [Promise.all]: one query per list, all of them
    sent; the lists with their cards in the order of [lists], or the first
    rejection. *)
Fixpoint load_lists (faults : nat -> bool) (lists : list list_row)
  : M (outcome (list list_view)) :=
  match lists with
  | [] => ret (Done [])
  | list :: rest =>
      r <- query faults (reading (select_cards_of_list (l_id list))) ;;
      later <- load_lists faults rest ;;
      ret (match r, later with
           | Failed e, _ => Failed e
           | Done _, Failed e => Failed e
           | Done cards, Done views =>
               Done (mkView list (map formattedCard cards) :: views)
           end)
  end.

(** GET /api/boards/:id *)
Definition load_board (faults : nat -> bool) (boardId : Z) : M board_answer :=
  r <- query faults (reading (select_board boardId)) ;;
  match r with
  | Failed e => ret (BoardError 500 (ErrMessage e))
  | Done [] => ret (BoardError 404 (Text "Board not found"))
  | Done (board :: _) =>
      r <- query faults (reading (select_lists_of_board boardId)) ;;
      match r with
      | Failed e => ret (BoardError 500 (ErrMessage e))
      | Done lists =>
          r <- load_lists faults lists ;;
          match r with
          | Failed e => ret (BoardError 500 (ErrMessage e))
          | Done listsWithCards => ret (BoardJson board listsWithCards)
          end
      end
  end.

End Loader.

(** A driver that builds the Date of the YYYY-MM-DD text of a calendar date
    from its three numbers, as the Date constructor does for a text that has
    a space and a time after the date: a year below 50 is read as a year
    of this century and a year from 50 to 99 as a year of the last one.
    Used in the examples only. *)
Definition digits_value (s : string) : nat :=
  fold_left (fun acc a => (10 * acc + (nat_of_ascii a - 48))%nat)
            (list_ascii_of_string s) 0%nat.

Definition two_digit_year (year : nat) : nat :=
  if (year <? 50)%nat then (2000 + year)%nat
  else if (year <? 100)%nat then (1900 + year)%nat
  else year.

Definition plain_driver (s : string) : loaded_date :=
  AsDate (two_digit_year (digits_value (substring 0 4 s)))
         (digits_value (substring 5 2 s) - 1)
         (digits_value (substring 8 2 s)).

(** ** The workers directory *)

(** A row of the [workers] table, without its two timestamps. *)
Record worker_row := mkWorker {
  w_id : Z;
  w_name : string;
  w_email : option string;
  w_phone : option string;
  w_position : option string;
  w_department : option string;
  w_address : option string;
  w_notes : option string
}.

Record directory := mkDirectory {
  workers : list worker_row;
  next_worker_id : Z
}.

Definition empty_directory : directory := mkDirectory [] 1.

(** The fields a handler reads from [req.body], each a text; [None] is a
    field that is absent or null. *)
Record worker_fields := mkFields {
  f_name : option string;
  f_email : option string;
  f_phone : option string;
  f_position : option string;
  f_department : option string;
  f_address : option string;
  f_notes : option string
}.

(** [!x] *)
Definition missing (x : option string) : bool :=
  match x with
  | None => true
  | Some s => String.eqb s EmptyString
  end.

(** [x || null] *)
Definition or_null (x : option string) : option string :=
  if missing x then None else x.

Inductive directory_error :=
| ER_DUP_ENTRY     (* a UNIQUE key refused the row *)
| OtherFailure.    (* the store failed for a reason of its own *)

Inductive statement_result (A : Type) :=
| Err (err : directory_error)
| Result (result : A).
Arguments Err {A} err.
Arguments Result {A} result.

Inductive worker_reply :=
| Worker (w : worker_row)                       (* a row, as selected *)
| NewWorker (id : Z) (fields : worker_fields)   (* insertId and the fields as sent *)
| WorkerSuccess                                 (* {success: true} *)
| WorkerError (status : Z) (error : string)     (* {error: "..."} *)
| WorkerStoreError.                             (* 500, {error: err.message} *)

Definition has_id (id : Z) (w : worker_row) : bool := w_id w =? id.

Section Workers.

(** Equality of two texts as the collation of the [email] column sees it. *)
Variable same_email : string -> string -> bool.

(** The UNIQUE key on [email]; rows without an email never collide. *)
Definition email_taken (email : option string) (rows : list worker_row) : bool :=
  match email with
  | None => false
  | Some e =>
      existsb (fun w => match w_email w with
                        | None => false
                        | Some e' => same_email e' e
                        end) rows
  end.

(** INSERT INTO workers (name, email, phone, position, department, address, notes)
    VALUES (?, ?, ?, ?, ?, ?, ?); the result is insertId. *)
Definition insert_worker (name : string)
           (email phone position department address notes : option string)
           (t : directory) : statement_result (Z * directory) :=
  if email_taken email (workers t) then Err ER_DUP_ENTRY
  else
    let id := next_worker_id t in
    Result (id, mkDirectory
                  (workers t ++
                   [mkWorker id name email phone position department address notes])
                  (id + 1)).

(** UPDATE workers SET name = ?, email = ?, phone = ?, position = ?,
    department = ?, address = ?, notes = ?, updated_at = CURRENT_TIMESTAMP
    WHERE id = ?; the result is affectedRows, the number of rows matched.
    The UNIQUE key compares the new email with the rows left as they are. *)
Definition update_worker_row (name : string)
           (email phone position department address notes : option string)
           (workerId : Z) (t : directory) : statement_result (Z * directory) :=
  match filter (has_id workerId) (workers t) with
  | [] => Result (0, t)
  | matched =>
      if email_taken email (filter (fun w => negb (has_id workerId w)) (workers t))
      then Err ER_DUP_ENTRY
      else
        Result (Z.of_nat (List.length matched),
                mkDirectory
                  (map (fun w => if has_id workerId w
                                 then mkWorker (w_id w) name email phone position
                                               department address notes
                                 else w) (workers t))
                  (next_worker_id t))
  end.

(** DELETE FROM workers WHERE id = ?; the result is affectedRows. *)
Definition delete_worker_row (workerId : Z) (t : directory) : statement_result (Z * directory) :=
  Result (Z.of_nat (List.length (filter (has_id workerId) (workers t))),
          mkDirectory (filter (fun w => negb (has_id workerId w)) (workers t))
                      (next_worker_id t)).

(** SELECT * FROM workers WHERE id = ? *)
Definition select_worker (workerId : Z) (t : directory) : statement_result (list worker_row * directory) :=
  Result (filter (has_id workerId) (workers t), t).

(** db.query for a handler that sends one statement; [fails] tells whether
    the store fails on it. *)
Definition send {A : Type} (fails : bool) (stmt : directory -> statement_result (A * directory))
           (t : directory) : statement_result A * directory :=
  if fails then (Err OtherFailure, t)
  else match stmt t with
       | Err err => (Err err, t)
       | Result (result, t') => (Result result, t')
       end.

(** GET /api/workers/:id *)
Definition get_worker (fails : bool) (workerId : Z) (t : directory)
  : worker_reply * directory :=
  match send fails (select_worker workerId) t with
  | (Err _, t') => (WorkerStoreError, t')
  | (Result [], t') => (WorkerError 404 "Worker not found", t')
  | (Result (w :: _), t') => (Worker w, t')
  end.

(** POST /api/workers *)
Definition create_worker (fails : bool) (body : worker_fields) (t : directory)
  : worker_reply * directory :=
  match f_name body with
  | None => (WorkerError 400 "Name is required", t)
  | Some name =>
      if String.eqb name EmptyString then (WorkerError 400 "Name is required", t)
      else
        match send fails
                   (insert_worker name (or_null (f_email body)) (or_null (f_phone body))
                                  (or_null (f_position body))
                                  (or_null (f_department body))
                                  (or_null (f_address body)) (or_null (f_notes body))) t
        with
        | (Err ER_DUP_ENTRY, t') => (WorkerError 400 "Email already exists", t')
        | (Err OtherFailure, t') => (WorkerStoreError, t')
        | (Result insertId, t') => (NewWorker insertId body, t')
        end
  end.

(** PUT /api/workers/:id *)
Definition update_worker (fails : bool) (workerId : Z) (body : worker_fields)
           (t : directory) : worker_reply * directory :=
  match f_name body with
  | None => (WorkerError 400 "Name is required", t)
  | Some name =>
      if String.eqb name EmptyString then (WorkerError 400 "Name is required", t)
      else
        match send fails
                   (update_worker_row name (or_null (f_email body))
                                      (or_null (f_phone body))
                                      (or_null (f_position body))
                                      (or_null (f_department body))
                                      (or_null (f_address body))
                                      (or_null (f_notes body)) workerId) t
        with
        | (Err ER_DUP_ENTRY, t') => (WorkerError 400 "Email already exists", t')
        | (Err OtherFailure, t') => (WorkerStoreError, t')
        | (Result affectedRows, t') =>
            if affectedRows =? 0 then (WorkerError 404 "Worker not found", t')
            else (WorkerSuccess, t')
        end
  end.

(** DELETE /api/workers/:id *)
Definition delete_worker (fails : bool) (workerId : Z) (t : directory)
  : worker_reply * directory :=
  match send fails (delete_worker_row workerId) t with
  | (Err _, t') => (WorkerStoreError, t')
  | (Result affectedRows, t') =>
      if affectedRows =? 0 then (WorkerError 404 "Worker not found", t')
      else (WorkerSuccess, t')
  end.

Inductive worker_request :=
| GetWorker (workerId : Z)
| PostWorker (body : worker_fields)
| PutWorker (workerId : Z) (body : worker_fields)
| DeleteWorker (workerId : Z).

Definition handle_worker (fails : bool) (r : worker_request) (t : directory)
  : worker_reply * directory :=
  match r with
  | GetWorker workerId => get_worker fails workerId t
  | PostWorker body => create_worker fails body t
  | PutWorker workerId body => update_worker fails workerId body t
  | DeleteWorker workerId => delete_worker fails workerId t
  end.

(** Requests served one after the other, each with its own store failure. *)
Fixpoint serve_workers (rs : list (bool * worker_request)) (t : directory) : directory :=
  match rs with
  | [] => t
  | (fails, r) :: rest => serve_workers rest (snd (handle_worker fails r t))
  end.

(** No two rows hold the same email. *)
Definition emails_unique (rows : list worker_row) : Prop :=
  forall a b e e', In a rows -> In b rows ->
    w_email a = Some e -> w_email b = Some e' -> same_email e e' = true -> a = b.

End Workers.

(** Columns that are null or hold a text that is not empty. *)
Definition filled (x : option string) : Prop := x <> Some EmptyString.

Record worker_ok (w : worker_row) : Prop := {
  name_given : w_name w <> EmptyString;
  email_filled : filled (w_email w);
  phone_filled : filled (w_phone w);
  position_filled : filled (w_position w);
  department_filled : filled (w_department w);
  address_filled : filled (w_address w);
  notes_filled : filled (w_notes w)
}.

Record directory_ok (same_email : string -> string -> bool) (t : directory) : Prop := {
  worker_ids_unique : NoDup (map w_id (workers t));
  worker_ids_issued : forall w, In w (workers t) -> w_id w < next_worker_id t;
  worker_emails_unique : emails_unique same_email (workers t);
  worker_rows_ok : forall w, In w (workers t) -> worker_ok w
}.

(** The row the handlers write for the fields of a request. *)
Definition worker_of (id : Z) (name : string) (body : worker_fields) : worker_row :=
  mkWorker id name (or_null (f_email body)) (or_null (f_phone body))
           (or_null (f_position body)) (or_null (f_department body))
           (or_null (f_address body)) (or_null (f_notes body)).

(** The rows after an update of the rows with id [workerId]. *)
Definition replaced (workerId : Z) (name : string) (body : worker_fields)
           (rows : list worker_row) : list worker_row :=
  map (fun w => if has_id workerId w then worker_of (w_id w) name body else w) rows.

(** Two workers used in the examples. *)
Definition two_workers : directory :=
  mkDirectory [mkWorker 1 "Ada" (Some "ada@example.org"%string) None None None None None;
               mkWorker 2 "Bob" (Some "bob@example.org"%string) None None None None None] 3.

(** * Properties *)

(** ** Lists *)

Lemma filter_map_swap {A B : Type} (P : B -> bool) (F : A -> B) (l : list A) :
  filter P (map F l) = map F (filter (fun x => P (F x)) l).
Proof.
  induction l as [|a l IH]; simpl; [reflexivity|].
  destruct (P (F a)); simpl; now rewrite IH.
Qed.

Lemma NoDup_map_in {A B : Type} (f : A -> B) (l : list A) :
  NoDup l ->
  (forall x y, In x l -> In y l -> f x = f y -> x = y) ->
  NoDup (map f l).
Proof.
  induction 1 as [|a l Hnotin Hnd IH]; intros Hinj; simpl; constructor.
  - intros Hin. apply in_map_iff in Hin as (b & Hfb & Hb).
    assert (b = a) by (apply Hinj; simpl; auto).
    subst. contradiction.
  - apply IH. intros x y Hx Hy. apply Hinj; simpl; auto.
Qed.

Lemma NoDup_map_eq {A B : Type} (f : A -> B) (l : list A) (x y : A) :
  NoDup (map f l) -> In x l -> In y l -> f x = f y -> x = y.
Proof.
  induction l as [|a l IH]; simpl; intros Hnd Hx Hy Hf; [contradiction|].
  inversion Hnd as [|? ? Hnotin Hnd']; subst.
  destruct Hx as [->|Hx], Hy as [->|Hy]; auto.
  - exfalso. apply Hnotin. rewrite Hf. now apply in_map.
  - exfalso. apply Hnotin. rewrite <- Hf. now apply in_map.
Qed.

Lemma NoDup_of_map {A B : Type} (f : A -> B) (l : list A) :
  NoDup (map f l) -> NoDup l.
Proof. apply NoDup_map_inv. Qed.

Lemma filter_length_le {A : Type} (P : A -> bool) (l : list A) :
  (List.length (filter P l) <= List.length l)%nat.
Proof.
  induction l as [|a l IH]; simpl; [lia|]. destruct (P a); simpl; lia.
Qed.

(** Two tests that differ on one row only select groups whose sizes differ
    by one. *)
Lemma filter_length_one_more {A : Type} (P Q : A -> bool) (cur : A) (l : list A) :
  NoDup l -> In cur l ->
  P cur = true -> Q cur = false ->
  (forall x, In x l -> x <> cur -> P x = Q x) ->
  List.length (filter P l) = S (List.length (filter Q l)).
Proof.
  induction l as [|a l IH]; simpl; intros Hnd Hin HP HQ Hsame; [contradiction|].
  inversion Hnd as [|? ? Hnotin Hnd']; subst.
  destruct Hin as [->|Hin].
  - rewrite HP, HQ. simpl. f_equal.
    f_equal. apply filter_ext_in. intros x Hx.
    apply Hsame; auto. intros ->. contradiction.
  - assert (a <> cur) by (intros ->; contradiction).
    rewrite (Hsame a) by auto.
    destruct (Q a); simpl; rewrite IH; auto.
Qed.

(** ** Dense position lists *)

Lemma in_range_list (n : nat) (x : Z) :
  In x (map Z.of_nat (seq 0 n)) <-> 0 <= x < Z.of_nat n.
Proof.
  rewrite in_map_iff. split.
  - intros (k & <- & Hk). apply in_seq in Hk. lia.
  - intros Hx. exists (Z.to_nat x). split; [lia|]. apply in_seq. lia.
Qed.

Lemma range_list_NoDup (n : nat) : NoDup (map Z.of_nat (seq 0 n)).
Proof.
  apply NoDup_map_in; [apply seq_NoDup|]. intros; lia.
Qed.

Lemma dense_iff (ps : list Z) :
  dense ps <->
  NoDup ps /\ forall x, In x ps -> 0 <= x < Z.of_nat (List.length ps).
Proof.
  unfold dense. split.
  - intros HP. split.
    + eapply Permutation_NoDup; [symmetry; exact HP|apply range_list_NoDup].
    + intros x Hx. apply in_range_list. eapply Permutation_in; eauto.
  - intros [Hnd Hb]. apply NoDup_Permutation_bis; auto.
    + rewrite length_map, length_seq. lia.
    + intros x Hx. apply in_range_list. auto.
Qed.

Lemma dense_nil : dense [].
Proof. apply dense_iff. split; [constructor|]. intros x []. Qed.

Lemma in_group {row : Type} (key : row -> Z) (k : Z) (rows : list row) (r : row) :
  In r (group row key k rows) <-> In r rows /\ key r = k.
Proof.
  unfold group. rewrite filter_In, Z.eqb_eq. tauto.
Qed.

Section GroupFacts.

Variable row : Type.
Variable key : row -> Z.
Variable pos : row -> Z.

Lemma slots_ok_dense (K : Z -> Prop) (rows : list row) :
  NoDup rows -> slots_ok row key pos K rows ->
  forall k, K k -> dense (positions row key pos k rows).
Proof.
  intros Hnd [Hinj Hb] k HK. apply dense_iff. unfold positions. split.
  - apply NoDup_map_in.
    + now apply NoDup_filter.
    + intros x y Hx Hy Hxy. apply in_group in Hx as [Hx Hkx], Hy as [Hy Hky].
      apply Hinj; auto; congruence.
  - intros x Hx. apply in_map_iff in Hx as (a & <- & Ha).
    apply in_group in Ha as [Ha Hk]. rewrite length_map.
    specialize (Hb a Ha). rewrite Hk in Hb. auto.
Qed.

Lemma dense_slots_ok (K : Z -> Prop) (rows : list row) :
  (forall k, K k -> dense (positions row key pos k rows)) ->
  slots_ok row key pos K rows.
Proof.
  intros Hd. split.
  - intros a b Ha Hb HK Hk Hp.
    destruct (proj1 (dense_iff _) (Hd (key a) HK)) as [Hnd _].
    eapply NoDup_map_eq; [exact Hnd| | |exact Hp]; apply in_group; auto.
  - intros a Ha HK.
    destruct (proj1 (dense_iff _) (Hd (key a) HK)) as [_ Hb].
    unfold positions in Hb. rewrite length_map in Hb.
    apply Hb. apply in_map. apply in_group. auto.
Qed.

End GroupFacts.

(** ** Running the handlers *)

Ltac zbool :=
  rewrite ?Z.gtb_ltb, ?Z.geb_leb in *;
  repeat match goal with
         | |- context [Z.eqb ?a ?b] => destruct (Z.eqb_spec a b)
         | |- context [Z.ltb ?a ?b] => destruct (Z.ltb_spec a b)
         | |- context [Z.leb ?a ?b] => destruct (Z.leb_spec a b)
         end;
  simpl in *; try lia; try congruence.

Ltac step_monad :=
  unfold run, idle, bind, ret, query, beginTransaction, commit, rollback500,
    rollback, reading, writing, checked, reliable, status500, json; simpl.

Lemma set_cards_same (d : db) : set_cards d (cards d) = d.
Proof. now destruct d. Qed.

Lemma set_lists_same (d : db) : set_lists d (lists d) = d.
Proof. now destruct d. Qed.

Lemma with_c_position_same (c : card_row) : with_c_position c (c_position c) = c.
Proof. now destruct c. Qed.

Lemma filter_key_unique {A : Type} (f : A -> Z) (l : list A) (x : A) :
  NoDup (map f l) -> In x l -> filter (fun y => f y =? f x) l = [x].
Proof.
  induction l as [|a l IH]; simpl; intros Hnd Hin; [contradiction|].
  inversion Hnd as [|? ? Hnotin Hnd']; subst.
  destruct Hin as [->|Hin].
  - rewrite Z.eqb_refl. f_equal.
    rewrite <- (filter_ext_in (fun _ => false)).
    + clear. induction l; simpl; auto.
    + intros y Hy. symmetry. apply Z.eqb_neq. intros Heq.
      apply Hnotin. rewrite <- Heq. now apply in_map.
  - destruct (Z.eqb_spec (f a) (f x)) as [Heq|_]; auto.
    exfalso. apply Hnotin. rewrite Heq. now apply in_map.
Qed.

Lemma select_card_unique (d : db) (cur : card_row) :
  NoDup (map c_id (cards d)) -> In cur (cards d) ->
  select_card (c_id cur) d = [cur].
Proof. apply filter_key_unique. Qed.

Lemma select_list_unique (d : db) (cur : list_row) :
  NoDup (map l_id (lists d)) -> In cur (lists d) ->
  select_list (l_id cur) d = [cur].
Proof. apply filter_key_unique. Qed.

Lemma same_card (d : db) (a b : card_row) :
  NoDup (map c_id (cards d)) -> In a (cards d) -> In b (cards d) ->
  c_id a = c_id b -> a = b.
Proof. apply NoDup_map_eq. Qed.

Lemma select_card_head (d : db) (cardId : Z) (cur : card_row) (rest : list card_row) :
  select_card cardId d = cur :: rest -> In cur (cards d) /\ c_id cur = cardId.
Proof.
  intros H. assert (Hin : In cur (select_card cardId d)) by (rewrite H; simpl; auto).
  unfold select_card in Hin. apply filter_In in Hin as [Hin Hid].
  apply Z.eqb_eq in Hid. auto.
Qed.

(** The last statement of a move on a store that does not fail. *)
Lemma updateCardPosition_reliable (cardId list_id position : Z) (c : conn) :
  has_list (store c) list_id = true ->
  updateCardPosition reliable cardId list_id position c =
  (json Success,
   mkConn (set_cards (store c)
             (map (fun r => if c_id r =? cardId
                            then with_c_place r list_id position else r)
                  (cards (store c))))
          None (S (S (clock c)))).
Proof.
  intros Hl. unfold updateCardPosition, place_card. step_monad.
  rewrite Hl. simpl. rewrite andb_false_r. reflexivity.
Qed.

Lemma updateCardPosition_missing_list (cardId list_id position : Z) (c : conn) (d0 : db) :
  has_list (store c) list_id = false ->
  existsb (fun r => c_id r =? cardId) (cards (store c)) = true ->
  snapshot c = Some d0 ->
  updateCardPosition reliable cardId list_id position c =
  (status500 ForeignKeyViolation, mkConn d0 None (S (clock c))).
Proof.
  intros Hl Hex Hs. unfold updateCardPosition, place_card. step_monad.
  rewrite Hl, Hex, Hs. reflexivity.
Qed.

(** A move inside one list on a store that does not fail: the answer, and
    the table rewritten row by row as the specification words it. *)
Lemma move_within_run (d : db) (cur : card_row) (t : Z) :
  NoDup (map c_id (cards d)) -> In cur (cards d) ->
  has_list d (c_list_id cur) = true ->
  run (move_card reliable (c_id cur) (c_list_id cur) t) d =
  (json Success,
   set_cards d (map (moveWithinGroup (c_id cur) (c_list_id cur) (c_position cur) t)
                    (cards d))).
Proof.
  intros Hnd Hcur Hl.
  assert (Hrow : forall c f,
             In c (cards d) ->
             (c_id c = c_id cur -> f c = c) ->
             (c_id c <> c_id cur ->
              c_id (f c) = c_id c /\
              f c = moveWithinGroup (c_id cur) (c_list_id cur) (c_position cur) t c) ->
             (if c_id (f c) =? c_id cur
              then with_c_place (f c) (c_list_id cur) t else f c) =
             moveWithinGroup (c_id cur) (c_list_id cur) (c_position cur) t c).
  { intros c f Hc Hsame Hother.
    destruct (Z.eqb_spec (c_id c) (c_id cur)) as [Hid|Hid].
    - assert (c = cur) by (eapply same_card; eauto). subst c.
      rewrite Hsame by reflexivity. unfold moveWithinGroup.
      rewrite Z.eqb_refl. now destruct cur.
    - destruct (Hother Hid) as [Hidf Hf]. rewrite Hidf.
      destruct (Z.eqb_spec (c_id c) (c_id cur)); [contradiction|exact Hf]. }
  unfold run, move_card. step_monad.
  rewrite (select_card_unique d cur Hnd Hcur). rewrite Z.eqb_refl.
  destruct (t >? c_position cur) eqn:Hgt; [|destruct (t <? c_position cur) eqn:Hlt].
  - step_monad. rewrite updateCardPosition_reliable by exact Hl.
    apply f_equal2; [reflexivity|].
    unfold set_cards, shift_down_between, shift_up_between; simpl. f_equal.
    rewrite map_map. apply map_ext_in. intros c Hc.
    apply (Hrow c (fun c => if (c_list_id c =? c_list_id cur)
                                 && (c_position c >? c_position cur)
                                 && (c_position c <=? t)
                            then with_c_position c (c_position c - 1) else c)); auto.
    + intros Hid. assert (c = cur) by (eapply same_card; eauto). subst c. zbool.
    + intros Hid. unfold moveWithinGroup.
      destruct (Z.eqb_spec (c_id c) (c_id cur)); [contradiction|].
      rewrite Hgt. zbool; auto.
  - step_monad. rewrite updateCardPosition_reliable by exact Hl.
    apply f_equal2; [reflexivity|].
    unfold set_cards, shift_down_between, shift_up_between; simpl. f_equal.
    rewrite map_map. apply map_ext_in. intros c Hc.
    apply (Hrow c (fun c => if (c_list_id c =? c_list_id cur)
                                 && (c_position c >=? t)
                                 && (c_position c <? c_position cur)
                            then with_c_position c (c_position c + 1) else c)); auto.
    + intros Hid. assert (c = cur) by (eapply same_card; eauto). subst c. zbool.
    + intros Hid. unfold moveWithinGroup.
      destruct (Z.eqb_spec (c_id c) (c_id cur)); [contradiction|].
      rewrite Hlt, Hgt. zbool; auto.
  - step_monad. f_equal.
    rewrite <- (set_cards_same d) at 1. f_equal.
    rewrite <- (map_id (cards d)) at 1. apply map_ext_in. intros c Hc.
    unfold moveWithinGroup. rewrite Hgt, Hlt. simpl.
    destruct (Z.eqb_spec (c_id c) (c_id cur)) as [Hid|Hid].
    + assert (c = cur) by (eapply same_card; eauto). subst c.
      assert (t = c_position cur) by zbool. subst t. now destruct cur.
    + now destruct (c_list_id c =? c_list_id cur).
Qed.

(** A move to another list on a store that does not fail. *)
Lemma move_across_run (d : db) (cur : card_row) (B t : Z) :
  NoDup (map c_id (cards d)) -> In cur (cards d) ->
  c_list_id cur <> B -> has_list d B = true ->
  run (move_card reliable (c_id cur) B t) d =
  (json Success,
   set_cards d (map (moveAcrossGroup (c_id cur) (c_list_id cur) (c_position cur) B t)
                    (cards d))).
Proof.
  intros Hnd Hcur HAB Hl.
  unfold run, move_card. step_monad.
  rewrite (select_card_unique d cur Hnd Hcur).
  destruct (Z.eqb_spec (c_list_id cur) B) as [|_]; [contradiction|].
  step_monad. rewrite updateCardPosition_reliable by exact Hl.
  apply f_equal2; [reflexivity|].
  unfold set_cards, shift_up_from, shift_down_after; simpl. f_equal.
  rewrite !map_map. apply map_ext_in. intros c Hc.
  unfold moveAcrossGroup.
  destruct (Z.eqb_spec (c_id c) (c_id cur)) as [Hid|Hid].
  - assert (c = cur) by (eapply same_card; eauto). subst c.
    zbool; now destruct cur.
  - zbool.
Qed.

(** ** Density is kept by the moves *)

Lemma moveWithinGroup_id (cardId L p t : Z) (c : card_row) :
  c_id (moveWithinGroup cardId L p t c) = c_id c.
Proof.
  unfold moveWithinGroup.
  repeat match goal with |- context [if ?b then _ else _] => destruct b end;
    reflexivity.
Qed.

Lemma moveWithinGroup_list (cardId L p t : Z) (c : card_row) :
  c_list_id (moveWithinGroup cardId L p t c) = c_list_id c.
Proof.
  unfold moveWithinGroup.
  repeat match goal with |- context [if ?b then _ else _] => destruct b end;
    reflexivity.
Qed.

Lemma size_map_same_key (F : card_row -> card_row) (cs : list card_row) (k : Z) :
  (forall c, c_list_id (F c) = c_list_id c) ->
  size card_row c_list_id k (map F cs) = size card_row c_list_id k cs.
Proof.
  intros HF. unfold size, group. rewrite filter_map_swap, length_map.
  f_equal. f_equal. apply filter_ext. intros c. now rewrite HF.
Qed.

(** Where a position of the list ends up when the card at [p] goes to [t]. *)
Lemma moveWithinGroup_position (K : Z -> Prop) (cs : list card_row)
      (cur c : card_row) (t : Z) :
  NoDup (map c_id cs) ->
  slots_ok card_row c_list_id c_position K cs ->
  In cur cs -> In c cs -> K (c_list_id cur) -> c_list_id c = c_list_id cur ->
  c_position (moveWithinGroup (c_id cur) (c_list_id cur) (c_position cur) t c) =
  (let x := c_position c in
   let p := c_position cur in
   if x =? p then t
   else if (p <? x) && (x <=? t) then x - 1
   else if (t <=? x) && (x <? p) then x + 1
   else x).
Proof.
  intros Hnd [Hinj _] Hcur Hc HK Hk. unfold moveWithinGroup. cbv zeta.
  destruct (Z.eqb_spec (c_id c) (c_id cur)) as [Hid|Hid].
  - assert (c = cur) by (eapply NoDup_map_eq; eauto). subst c.
    simpl. now rewrite Z.eqb_refl.
  - rewrite Hk, Z.eqb_refl.
    destruct (Z.eqb_spec (c_position c) (c_position cur)) as [Hp|Hp].
    + exfalso. apply Hid. f_equal. apply Hinj; auto. congruence.
    + zbool.
Qed.

Lemma moveWithinGroup_elsewhere (cs : list card_row) (cur c : card_row) (t : Z) :
  NoDup (map c_id cs) -> In cur cs -> In c cs ->
  c_list_id c <> c_list_id cur ->
  moveWithinGroup (c_id cur) (c_list_id cur) (c_position cur) t c = c.
Proof.
  intros Hnd Hcur Hc Hk. unfold moveWithinGroup.
  destruct (Z.eqb_spec (c_id c) (c_id cur)) as [Hid|Hid].
  - exfalso. apply Hk. f_equal. eapply NoDup_map_eq; eauto.
  - destruct (Z.eqb_spec (c_list_id c) (c_list_id cur)); [contradiction|reflexivity].
Qed.

Lemma within_keeps_slots (K : Z -> Prop) (cs : list card_row) (cur : card_row)
      (t : Z) :
  NoDup (map c_id cs) ->
  slots_ok card_row c_list_id c_position K cs ->
  In cur cs ->
  (K (c_list_id cur) -> 0 <= t < size card_row c_list_id (c_list_id cur) cs) ->
  slots_ok card_row c_list_id c_position K
           (map (moveWithinGroup (c_id cur) (c_list_id cur) (c_position cur) t) cs).
Proof.
  intros Hnd Hok Hcur Ht. pose proof Hok as [Hinj Hb]. split.
  - intros a' b' Ha' Hb' HK Hk Hp.
    apply in_map_iff in Ha' as (a & <- & Ha). apply in_map_iff in Hb' as (b & <- & Hb').
    rewrite !moveWithinGroup_list in Hk. rewrite moveWithinGroup_list in HK.
    assert (a = b); [|now subst].
    destruct (Z.eq_dec (c_list_id a) (c_list_id cur)) as [HL|HL].
    + rewrite (moveWithinGroup_position K cs cur a) in Hp by (auto; congruence).
      rewrite (moveWithinGroup_position K cs cur b) in Hp by (auto; congruence).
      cbv zeta in Hp. apply Hinj; auto.
      revert Hp. zbool.
    + rewrite (moveWithinGroup_elsewhere cs cur a) in Hp by auto.
      rewrite (moveWithinGroup_elsewhere cs cur b) in Hp by (auto; congruence).
      apply Hinj; auto.
  - intros a' Ha' HK. apply in_map_iff in Ha' as (a & <- & Ha).
    rewrite moveWithinGroup_list in HK |- *.
    rewrite size_map_same_key by (intros; apply moveWithinGroup_list).
    pose proof (Hb a Ha HK) as Hba.
    destruct (Z.eq_dec (c_list_id a) (c_list_id cur)) as [HL|HL].
    + rewrite (moveWithinGroup_position K cs cur a) by (auto; congruence).
      rewrite HL in HK. pose proof (Hb cur Hcur HK) as Hbc. specialize (Ht HK).
      cbv zeta. rewrite HL in *. zbool.
    + rewrite (moveWithinGroup_elsewhere cs cur a) by auto. exact Hba.
Qed.

(** *** Moves between two lists *)

Lemma moveAcrossGroup_id (cardId A p B t : Z) (c : card_row) :
  c_id (moveAcrossGroup cardId A p B t c) = c_id c.
Proof.
  unfold moveAcrossGroup.
  repeat match goal with |- context [if ?b then _ else _] => destruct b end;
    reflexivity.
Qed.

Lemma moveAcrossGroup_moved (cur : card_row) (B t : Z) :
  moveAcrossGroup (c_id cur) (c_list_id cur) (c_position cur) B t cur =
  with_c_place cur B t.
Proof. unfold moveAcrossGroup. now rewrite Z.eqb_refl. Qed.

(** A row other than the moved one keeps its list; its position follows the
    two shifts. *)
Lemma moveAcrossGroup_other (cur c : card_row) (B t : Z) :
  c_id c <> c_id cur -> c_list_id cur <> B ->
  let c' := moveAcrossGroup (c_id cur) (c_list_id cur) (c_position cur) B t c in
  c_list_id c' = c_list_id c /\
  c_position c' =
  (if (c_list_id c =? c_list_id cur) && (c_position cur <? c_position c)
   then c_position c - 1
   else if (c_list_id c =? B) && (t <=? c_position c)
   then c_position c + 1
   else c_position c).
Proof.
  intros Hid HAB. cbv zeta. unfold moveAcrossGroup.
  destruct (Z.eqb_spec (c_id c) (c_id cur)); [contradiction|].
  zbool; auto.
Qed.

(** Sizes of the groups after the move. *)
Lemma across_sizes (cs : list card_row) (cur : card_row) (B t k : Z) :
  NoDup (map c_id cs) -> In cur cs -> c_list_id cur <> B ->
  size card_row c_list_id k
       (map (moveAcrossGroup (c_id cur) (c_list_id cur) (c_position cur) B t) cs) =
  size card_row c_list_id k cs
  + (if k =? B then 1 else 0) - (if k =? c_list_id cur then 1 else 0).
Proof.
  intros Hnd Hcur HAB. unfold size, group.
  rewrite filter_map_swap, length_map.
  set (F := moveAcrossGroup (c_id cur) (c_list_id cur) (c_position cur) B t).
  assert (Hrows : NoDup cs) by (eapply NoDup_of_map; eauto).
  assert (Hother : forall x, In x cs -> x <> cur ->
                             (c_list_id (F x) =? k) = (c_list_id x =? k)).
  { intros x Hx Hne. unfold F.
    destruct (moveAcrossGroup_other cur x B t) as [-> _]; auto.
    intros Hid. apply Hne. eapply NoDup_map_eq; eauto. }
  assert (Hmoved : c_list_id (F cur) = B)
    by (unfold F; now rewrite moveAcrossGroup_moved).
  destruct (Z.eqb_spec k B) as [HkB|HkB];
    destruct (Z.eqb_spec k (c_list_id cur)) as [HkA|HkA]; try congruence.
  - rewrite (filter_length_one_more
               (fun x => c_list_id (F x) =? k) (fun x => c_list_id x =? k) cur);
      auto; try lia; rewrite ?Hmoved;
      try (apply Z.eqb_eq; congruence); try (apply Z.eqb_neq; congruence).
  - rewrite (filter_length_one_more
               (fun x => c_list_id x =? k) (fun x => c_list_id (F x) =? k) cur);
      auto; try lia; rewrite ?Hmoved;
      try (apply Z.eqb_eq; congruence); try (apply Z.eqb_neq; congruence).
    intros x Hx Hne. symmetry. auto.
  - replace (filter (fun x => c_list_id (F x) =? k) cs)
      with (filter (fun x => c_list_id x =? k) cs); [lia|].
    apply filter_ext_in. intros x Hx.
    destruct (Z.eqb_spec (c_id x) (c_id cur)) as [Hid|Hid].
    + assert (x = cur) by (eapply NoDup_map_eq; eauto). subst x.
      rewrite Hmoved. zbool.
    + symmetry. apply Hother; auto. intros ->. now apply Hid.
Qed.

Lemma across_keeps_slots (K : Z -> Prop) (cs : list card_row) (cur : card_row)
      (B t : Z) :
  NoDup (map c_id cs) ->
  slots_ok card_row c_list_id c_position K cs ->
  In cur cs -> c_list_id cur <> B ->
  (K B -> 0 <= t <= size card_row c_list_id B cs) ->
  slots_ok card_row c_list_id c_position K
           (map (moveAcrossGroup (c_id cur) (c_list_id cur) (c_position cur) B t) cs).
Proof.
  intros Hnd Hok Hcur HAB Ht. pose proof Hok as [Hinj Hb].
  set (F := moveAcrossGroup (c_id cur) (c_list_id cur) (c_position cur) B t).
  assert (Hcases : forall a, In a cs ->
            (a = cur /\ F a = with_c_place cur B t) \/
            (a <> cur /\ c_list_id (F a) = c_list_id a /\
             (K (c_list_id a) -> c_list_id a = c_list_id cur ->
              c_position a <> c_position cur) /\
             c_position (F a) =
             (if (c_list_id a =? c_list_id cur) && (c_position cur <? c_position a)
              then c_position a - 1
              else if (c_list_id a =? B) && (t <=? c_position a)
              then c_position a + 1
              else c_position a))).
  { intros a Ha. destruct (Z.eq_dec (c_id a) (c_id cur)) as [Hid|Hid].
    - left. assert (a = cur) by (eapply NoDup_map_eq; eauto). subst a.
      split; [reflexivity|apply moveAcrossGroup_moved].
    - right. destruct (moveAcrossGroup_other cur a B t Hid HAB) as [Hl Hp].
      repeat split; auto.
      + intros ->. now apply Hid.
      + intros HK Hk Hpos. apply Hid. f_equal. apply Hinj; auto. }
  split.
  - intros a' b' Ha' Hb' HK Hk Hp.
    apply in_map_iff in Ha' as (a & <- & Ha). apply in_map_iff in Hb' as (b & <- & Hb').
    fold F in Hk, Hp, HK |- *.
    assert (a = b); [|now subst].
    destruct (Hcases a Ha) as [[-> Ea]|(Na & La & Pa & Ea)];
      destruct (Hcases b Hb') as [[-> Eb]|(Nb & Lb & Pb & Eb)]; auto.
    + exfalso. rewrite Ea, Lb in Hk. rewrite Ea, Eb in Hp. simpl in Hk, Hp.
      revert Hp. rewrite <- Hk. zbool.
    + exfalso. rewrite Eb, La in Hk. rewrite Ea, Eb in Hp. simpl in Hk, Hp.
      revert Hp. rewrite Hk. zbool.
    + rewrite La, Lb in Hk. rewrite La in HK. rewrite Ea, Eb in Hp.
      apply Hinj; auto. specialize (Pa HK). rewrite Hk in HK. specialize (Pb HK).
      revert Hp Pa Pb. rewrite Hk. zbool.
  - intros a' Ha' HK. apply in_map_iff in Ha' as (a & <- & Ha). fold F in HK |- *.
    pose proof (across_sizes cs cur B t (c_list_id (F a)) Hnd Hcur HAB) as Hsz.
    fold F in Hsz. rewrite Hsz. clear Hsz.
    destruct (Hcases a Ha) as [[-> Ea]|(Na & La & Pa & Ea)].
    + rewrite Ea in HK |- *. simpl in HK |- *. specialize (Ht HK). zbool.
    + rewrite La in HK. pose proof (Hb a Ha HK) as Hba. rewrite La, Ea.
      specialize (Pa HK).
      destruct (Z.eq_dec (c_list_id a) (c_list_id cur)) as [E|E].
      * specialize (Pa E). rewrite E in *.
        pose proof (Hb cur Hcur HK) as Hbc. zbool.
      * clear Pa. zbool.
Qed.

(** ** Reordering the lists of a board *)

Lemma insert_by_position_perm (l : list_row) (sorted : list list_row) :
  Permutation (insert_by_position l sorted) (l :: sorted).
Proof.
  induction sorted as [|x rest IH]; simpl; [reflexivity|].
  destruct (l_position l <=? l_position x); [reflexivity|].
  rewrite IH. apply perm_swap.
Qed.

Lemma order_by_position_perm (ls : list list_row) :
  Permutation (order_by_position ls) ls.
Proof.
  induction ls as [|l ls IH]; simpl; [reflexivity|].
  rewrite insert_by_position_perm. now constructor.
Qed.

Lemma splice_perm {A : Type} (start : Z) (item : A) (l : list A) :
  Permutation (splice start item l) (item :: l).
Proof.
  unfold splice. rewrite <- Permutation_middle. constructor.
  now rewrite firstn_skipn.
Qed.

Lemma splice_nth {A : Type} (start : Z) (item : A) (l : list A) :
  nth_error (splice start item l)
            (Z.to_nat (splice_start start (Z.of_nat (List.length l)))) = Some item.
Proof.
  unfold splice.
  set (k := Z.to_nat (splice_start start (Z.of_nat (List.length l)))).
  assert (Hk : (k <= List.length l)%nat).
  { unfold k, splice_start. zbool. }
  rewrite nth_error_app2; rewrite length_firstn; [|lia].
  replace (k - Nat.min k (List.length l))%nat with 0%nat by lia. reflexivity.
Qed.

Lemma NoDup_map_filter {A : Type} (f : A -> Z) (P : A -> bool) (l : list A) :
  NoDup (map f l) -> NoDup (map f (filter P l)).
Proof.
  induction l as [|a l IH]; simpl; intros Hnd; [constructor|].
  inversion Hnd as [|? ? Hnotin Hnd']; subst.
  destruct (P a); simpl; auto. constructor; auto.
  intros Hin. apply Hnotin. apply in_map_iff in Hin as (b & Hb & Hin).
  apply filter_In in Hin as [Hin _]. rewrite <- Hb. now apply in_map.
Qed.

(** Taking a row out by its id and putting it back gives the same rows. *)
Lemma filter_out_perm {A : Type} (f : A -> Z) (l : list A) (x : A) :
  NoDup (map f l) -> In x l ->
  Permutation (x :: filter (fun y => negb (f y =? f x)) l) l.
Proof.
  induction l as [|a l IH]; simpl; intros Hnd Hin; [contradiction|].
  inversion Hnd as [|? ? Hnotin Hnd']; subst.
  destruct Hin as [->|Hin].
  - rewrite Z.eqb_refl. simpl. constructor.
    rewrite <- (filter_ext_in (fun _ => true)).
    + clear. induction l; simpl; auto.
    + intros y Hy. symmetry. apply negb_true_iff, Z.eqb_neq. intros Heq.
      apply Hnotin. rewrite <- Heq. now apply in_map.
  - destruct (Z.eqb_spec (f a) (f x)) as [Heq|_]; simpl.
    + exfalso. apply Hnotin. rewrite Heq. now apply in_map.
    + rewrite perm_swap. constructor. now apply IH.
Qed.

(** The sequence the handler numbers holds exactly the lists of the board. *)
Lemma resequenced_perm (d : db) (cur : list_row) (position : Z) :
  NoDup (map l_id (lists d)) -> In cur (lists d) ->
  Permutation (resequenced cur position d) (lists_of (l_board_id cur) d).
Proof.
  intros Hnd Hcur. unfold resequenced. rewrite splice_perm.
  unfold select_lists_of_board, lists_of, group.
  set (mine := filter (fun l => l_board_id l =? l_board_id cur) (lists d)).
  assert (Hperm : Permutation (order_by_position mine) mine)
    by apply order_by_position_perm.
  rewrite <- Hperm at 2.
  apply filter_out_perm.
  - eapply Permutation_NoDup.
    + apply Permutation_map. symmetry. exact Hperm.
    + now apply NoDup_map_filter.
  - eapply Permutation_in; [symmetry; exact Hperm|].
    apply filter_In. split; auto. apply Z.eqb_refl.
Qed.

Lemma index_from_none (k id : Z) (sequence : list list_row) :
  ~ In id (map l_id sequence) -> index_from k id sequence = None.
Proof.
  revert k. induction sequence as [|l rest IH]; simpl; intros k Hnot; [reflexivity|].
  destruct (Z.eqb_spec (l_id l) id); [tauto|]. apply IH. tauto.
Qed.

Lemma index_from_some (k id j : Z) (sequence : list list_row) :
  index_from k id sequence = Some j ->
  k <= j < k + Z.of_nat (List.length sequence) /\
  nth_error (map l_id sequence) (Z.to_nat (j - k)) = Some id.
Proof.
  revert k. induction sequence as [|l rest IH]; simpl; intros k H; [discriminate|].
  destruct (Z.eqb_spec (l_id l) id) as [Hid|Hid].
  - inversion H; subst. split; [lia|]. now rewrite Z.sub_diag.
  - apply IH in H as [Hr Hn]. split; [lia|].
    replace (Z.to_nat (j - k)) with (S (Z.to_nat (j - (k + 1)))) by lia.
    exact Hn.
Qed.

Lemma index_from_in (k id : Z) (sequence : list list_row) :
  In id (map l_id sequence) -> exists j, index_from k id sequence = Some j.
Proof.
  revert k. induction sequence as [|l rest IH]; simpl; intros k Hin; [contradiction|].
  destruct (Z.eqb_spec (l_id l) id) as [Hid|Hid]; [eauto|].
  apply IH. destruct Hin; [contradiction|assumption].
Qed.

Lemma renumber_from_cons (k : Z) (l : list_row) (rest : list list_row) (x : list_row) :
  ~ In (l_id l) (map l_id rest) ->
  renumber_from (k + 1) rest (if l_id x =? l_id l then with_l_position x k else x) =
  renumber_from k (l :: rest) x.
Proof.
  intros Hnot. unfold renumber_from. simpl.
  rewrite (Z.eqb_sym (l_id l) (l_id x)).
  destruct (Z.eqb_spec (l_id x) (l_id l)) as [Hid|Hid]; simpl; [|reflexivity].
  rewrite Hid. now rewrite index_from_none.
Qed.

(** The UPDATE statements of the list handler on a store that does not fail. *)
Lemma update_positions_reliable (otherLists : list list_row) (k : Z) (c : conn) :
  NoDup (map l_id otherLists) ->
  update_positions reliable otherLists k c =
  (None,
   mkConn (set_lists (store c) (map (renumber_from k otherLists) (lists (store c))))
          (snapshot c) (clock c + List.length otherLists)).
Proof.
  revert k c. induction otherLists as [|l rest IH]; intros k c Hnd.
  - simpl. unfold ret. f_equal. unfold renumber_from. simpl.
    rewrite map_id, set_lists_same, Nat.add_0_r. now destruct c.
  - inversion Hnd as [|? ? Hnotin Hnd']; subst.
    simpl. step_monad. rewrite IH by assumption. simpl.
    f_equal. f_equal; [|lia].
    unfold set_lists, set_list_position. simpl. f_equal.
    rewrite map_map. apply map_ext. intros x.
    now apply renumber_from_cons.
Qed.

Lemma resequenced_ids_unique (d : db) (cur : list_row) (position : Z) :
  NoDup (map l_id (lists d)) -> In cur (lists d) ->
  NoDup (map l_id (resequenced cur position d)).
Proof.
  intros Hnd Hcur. eapply Permutation_NoDup.
  - apply Permutation_map. symmetry. now apply resequenced_perm.
  - unfold lists_of, group. now apply NoDup_map_filter.
Qed.

(** A reorder on a store that does not fail: every row of the table is
    given its index in the sequence, rows outside the sequence are kept. *)
Lemma reorder_run (d : db) (cur : list_row) (position : Z) :
  NoDup (map l_id (lists d)) -> In cur (lists d) ->
  run (reorder_list reliable (l_id cur) position) d =
  (json Success,
   set_lists d (map (renumber (resequenced cur position d)) (lists d))).
Proof.
  intros Hnd Hcur. unfold run, reorder_list. step_monad.
  rewrite (select_list_unique d cur Hnd Hcur). step_monad.
  fold (resequenced cur position d).
  rewrite update_positions_reliable by now apply resequenced_ids_unique.
  reflexivity.
Qed.

Lemma renumber_board (sequence : list list_row) (l : list_row) :
  l_board_id (renumber sequence l) = l_board_id l /\
  l_id (renumber sequence l) = l_id l.
Proof.
  unfold renumber, renumber_from.
  destruct (index_from 0 (l_id l) sequence); simpl; auto.
Qed.

Lemma list_positions_renumbered (d : db) (sequence : list list_row) (k : Z) :
  list_positions k (set_lists d (map (renumber sequence) (lists d))) =
  map (fun l => l_position (renumber sequence l)) (lists_of k d).
Proof.
  unfold list_positions, positions, lists_of, group. simpl.
  rewrite filter_map_swap, map_map. f_equal.
  apply filter_ext. intros l. now destruct (renumber_board sequence l) as [-> _].
Qed.

Lemma lists_of_renumbered (d : db) (sequence : list list_row) (k : Z) :
  lists_of k (set_lists d (map (renumber sequence) (lists d))) =
  map (renumber sequence) (lists_of k d).
Proof.
  unfold lists_of, group. simpl. rewrite filter_map_swap. f_equal.
  apply filter_ext. intros l. now destruct (renumber_board sequence l) as [-> _].
Qed.

(** A list of the board is numbered with its index in the sequence. *)
Lemma renumber_in_board (d : db) (cur l : list_row) (position : Z) :
  NoDup (map l_id (lists d)) -> In cur (lists d) ->
  In l (lists_of (l_board_id cur) d) ->
  let sequence := resequenced cur position d in
  0 <= l_position (renumber sequence l) <
    Z.of_nat (List.length (lists_of (l_board_id cur) d)) /\
  nth_error (map l_id sequence) (Z.to_nat (l_position (renumber sequence l))) =
  Some (l_id l).
Proof.
  intros Hnd Hcur Hl sequence.
  pose proof (resequenced_perm d cur position Hnd Hcur) as Hperm.
  fold sequence in Hperm.
  assert (Hin : In (l_id l) (map l_id sequence)).
  { apply in_map. eapply Permutation_in; [symmetry; exact Hperm|exact Hl]. }
  destruct (index_from_in 0 _ _ Hin) as [j Hj].
  unfold renumber, renumber_from. rewrite Hj. simpl.
  apply index_from_some in Hj as [Hr Hn].
  rewrite (Permutation_length Hperm) in Hr.
  rewrite Z.sub_0_r in Hn. split; [lia|exact Hn].
Qed.

(** A list of another board is left alone. *)
Lemma renumber_elsewhere (d : db) (cur l : list_row) (position : Z) :
  NoDup (map l_id (lists d)) -> In cur (lists d) ->
  In l (lists d) -> l_board_id l <> l_board_id cur ->
  renumber (resequenced cur position d) l = l.
Proof.
  intros Hnd Hcur Hl Hboard.
  unfold renumber, renumber_from. rewrite index_from_none; [reflexivity|].
  intros Hin. apply in_map_iff in Hin as (s & Hid & Hs).
  apply (Permutation_in _ (resequenced_perm d cur position Hnd Hcur)) in Hs.
  apply in_group in Hs as [Hs Hb].
  assert (s = l) by (eapply NoDup_map_eq; eauto). subst s. contradiction.
Qed.

(** After a reorder the lists of the board are densely numbered, whatever
    they were numbered before and whatever the target. *)
Lemma reorder_dense_board (d : db) (cur : list_row) (position : Z) :
  NoDup (map l_id (lists d)) -> In cur (lists d) ->
  dense (list_positions (l_board_id cur)
           (set_lists d (map (renumber (resequenced cur position d)) (lists d)))).
Proof.
  intros Hnd Hcur. rewrite list_positions_renumbered. apply dense_iff. split.
  - apply NoDup_map_in.
    + unfold lists_of, group. apply NoDup_filter. eapply NoDup_of_map; eauto.
    + intros x y Hx Hy Hxy.
      destruct (renumber_in_board d cur x position Hnd Hcur Hx) as [_ Nx].
      destruct (renumber_in_board d cur y position Hnd Hcur Hy) as [_ Ny].
      rewrite Hxy in Nx. rewrite Nx in Ny. inversion Ny as [Hid].
      apply in_group in Hx as [Hx _]. apply in_group in Hy as [Hy _].
      eapply NoDup_map_eq; eauto.
  - intros p Hp. apply in_map_iff in Hp as (l & <- & Hl). rewrite length_map.
    now destruct (renumber_in_board d cur l position Hnd Hcur Hl) as [Hr _].
Qed.

Lemma reorder_other_boards (d : db) (cur : list_row) (position k : Z) :
  NoDup (map l_id (lists d)) -> In cur (lists d) -> k <> l_board_id cur ->
  list_positions k
    (set_lists d (map (renumber (resequenced cur position d)) (lists d))) =
  list_positions k d.
Proof.
  intros Hnd Hcur Hk. rewrite list_positions_renumbered.
  unfold list_positions, positions. apply map_ext_in. intros l Hl.
  apply in_group in Hl as [Hl Hb].
  rewrite renumber_elsewhere; auto. congruence.
Qed.

(** ** Failures of the store *)

Ltac split_cases :=
  repeat (match goal with
          | |- context [if ?b then _ else _] => destruct b eqn:?
          | |- context [match select_card ?i ?d with _ => _ end] =>
              destruct (select_card i d) eqn:?
          | |- context [match select_list ?i ?d with _ => _ end] =>
              destruct (select_list i d) eqn:?
          | |- context [match format_due_date ?v with _ => _ end] =>
              destruct (format_due_date v) eqn:?
          | |- context [match priority_column ?p with _ => _ end] =>
              destruct (priority_column p) eqn:?
          end; simpl).

Ltac no_fault_below :=
  let k := fresh "k" in
  let Hk := fresh "Hk" in
  intros k Hk;
  repeat (destruct k as [|k]; [assumption|]); lia.

Ltac settle :=
  first [ left; split; reflexivity
        | right; split; [reflexivity|split; [reflexivity|no_fault_below]] ].

Lemma move_card_all_or_nothing (faults : nat -> bool) (cardId list_id position : Z)
      (d : db) :
  all_or_nothing faults (fun f => move_card f cardId list_id position) d.
Proof.
  unfold all_or_nothing, statements_sent, run, move_card, updateCardPosition,
    place_card.
  step_monad. split_cases; settle.
Qed.

Lemma create_list_all_or_nothing (faults : nat -> bool) (board_id : Z) (title : string)
      (d : db) :
  all_or_nothing faults (fun f => create_list f board_id title) d.
Proof.
  unfold all_or_nothing, statements_sent, run, create_list, insert_list.
  step_monad. split_cases; settle.
Qed.

Lemma create_card_all_or_nothing (faults : nat -> bool) (list_id : Z) (title : string)
      (description : option string) (due_date : js_value) (priority : option string)
      (d : db) :
  all_or_nothing faults
    (fun f => create_card f list_id title description due_date priority) d.
Proof.
  unfold all_or_nothing, statements_sent, run, create_card, insert_card.
  step_monad. split_cases; settle.
Qed.

Lemma update_card_all_or_nothing (faults : nat -> bool) (cardId : Z)
      (updates : card_updates) (d : db) :
  all_or_nothing faults (fun f => update_card f cardId updates) d.
Proof.
  unfold all_or_nothing, statements_sent, run, update_card, update_card_fields.
  step_monad. split_cases; settle.
Qed.

Lemma update_positions_never_rejects (otherLists : list list_row) (k : Z) (c : conn) :
  fst (update_positions reliable otherLists k c) = None.
Proof.
  revert k c. induction otherLists as [|l rest IH]; intros k c; simpl; [reflexivity|].
  step_monad. change (fun _ : nat => false) with reliable.
  specialize (IH (k + 1)
                 (mkConn (set_list_position k (l_id l) (store c)) (snapshot c)
                         (S (clock c)))).
  destruct (update_positions reliable rest (k + 1) _) as [later c']. exact IH.
Qed.

(** The UPDATE statements under an arbitrary fault schedule: all of them are
    sent; if none is rejected, none failed and the store is the one a store
    without failures would hold. *)
Lemma update_positions_faults (faults : nat -> bool) (otherLists : list list_row)
      (k : Z) (c : conn) :
  snapshot (snd (update_positions faults otherLists k c)) = snapshot c /\
  clock (snd (update_positions faults otherLists k c)) =
    (clock c + List.length otherLists)%nat /\
  (fst (update_positions faults otherLists k c) = None ->
   (forall j, (clock c <= j < clock c + List.length otherLists)%nat ->
              faults j = false) /\
   store (snd (update_positions faults otherLists k c)) =
   store (snd (update_positions reliable otherLists k c))).
Proof.
  revert k c. induction otherLists as [|l rest IH]; intros k c.
  - simpl. repeat split; auto; try lia.
  - simpl. step_monad. change (fun _ : nat => false) with reliable.
    destruct (faults (clock c)) eqn:F.
    + specialize (IH (k + 1) (mkConn (store c) (snapshot c) (S (clock c)))).
      destruct (update_positions faults rest (k + 1) _) as [later c'].
      simpl in *. destruct IH as (Hs & Hc & _).
      repeat split; auto; try lia; discriminate.
    + pose proof (IH (k + 1)
                     (mkConn (set_list_position k (l_id l) (store c)) (snapshot c)
                             (S (clock c)))) as IHf.
      destruct (update_positions faults rest (k + 1) _) as [later c'].
      destruct (update_positions reliable rest (k + 1) _) as [later' c''].
      simpl in *. destruct IHf as (Hs & Hc & Hnone).
      split; [auto|]. split; [lia|].
      intros Hl. destruct (Hnone Hl) as [Hw Hst]. split; [|exact Hst].
      intros j Hj. destruct (Nat.eq_dec j (clock c)) as [->|Hne]; [exact F|].
      apply Hw. lia.
Qed.

Lemma reorder_list_all_or_nothing (faults : nat -> bool) (listId position : Z) (d : db) :
  all_or_nothing faults (fun f => reorder_list f listId position) d.
Proof.
  unfold all_or_nothing, statements_sent, run, reorder_list.
  step_monad. change (fun _ : nat => false) with reliable.
  destruct (faults 0%nat) eqn:F0; simpl; [settle|].
  destruct (faults 1%nat) eqn:F1; simpl; [settle|].
  destruct (select_list listId d) as [|currentList rest] eqn:Hsel; simpl; [settle|].
  destruct (faults 2%nat) eqn:F2; simpl; [settle|].
  set (otherLists := splice position currentList
                       (filter (fun list => negb (l_id list =? listId))
                               (select_lists_of_board (l_board_id currentList) d))).
  set (c3 := mkConn d (Some d) 3).
  pose proof (update_positions_faults faults otherLists 0 c3) as (Hs & Hc & Hnone).
  pose proof (update_positions_never_rejects otherLists 0 c3) as Hrel.
  destruct (update_positions faults otherLists 0 c3) as [rejected c'].
  destruct (update_positions reliable otherLists 0 c3) as [rejected' c''].
  simpl in *. subst rejected'.
  destruct rejected as [e|]; simpl.
  - rewrite Hs. left. split; reflexivity.
  - destruct (Hnone eq_refl) as [Hw Hst].
    destruct (faults (clock c')) eqn:Fc; simpl.
    + rewrite Hs. left. split; reflexivity.
    + right. split; [reflexivity|]. split; [now rewrite Hst|].
      intros j Hj.
      destruct (Nat.eq_dec j (clock c')) as [->|Hne]; [exact Fc|].
      destruct j as [|[|[|j]]]; auto. apply Hw. lia.
Qed.

Lemma delete_card_all_or_nothing (faults : nat -> bool) (cardId : Z) (d : db) :
  all_or_nothing faults (fun f => delete_card f cardId) d.
Proof.
  unfold all_or_nothing, statements_sent, run, delete_card.
  step_monad. split_cases; settle.
Qed.

Lemma delete_list_all_or_nothing (faults : nat -> bool) (listId : Z) (d : db) :
  all_or_nothing faults (fun f => delete_list f listId) d.
Proof.
  unfold all_or_nothing, statements_sent, run, delete_list.
  step_monad. split_cases; settle.
Qed.

(** * The claims *)

Ltac concrete_nodup :=
  simpl; repeat (constructor; [simpl; intuition discriminate|]); constructor.

Lemma moved_ids (F : card_row -> card_row) (cs : list card_row) :
  (forall c, c_id (F c) = c_id c) -> map c_id (map F cs) = map c_id cs.
Proof. intros HF. rewrite map_map. apply map_ext. exact HF. Qed.

(** C2. A move of a card inside its list from position [p] to position [t],
    on a store that does not fail, answers success and rewrites the table
    as [moveWithinGroup] says: for [t > p] the other cards of the list at
    positions in (p, t] go down by one, for [t < p] those at positions in
    [t, p) go up by one, the moved card is set to [t], every other row is
    kept; for [t = p] nothing changes at all.  No assumption on density or
    on the range of [t] is needed. *)
Theorem move_within_list (d : db) (cur : card_row) (t : Z) :
  NoDup (map c_id (cards d)) ->
  In cur (cards d) ->
  has_list d (c_list_id cur) = true ->
  fst (run (move_card reliable (c_id cur) (c_list_id cur) t) d) = json Success /\
  snd (run (move_card reliable (c_id cur) (c_list_id cur) t) d) =
    set_cards d (map (moveWithinGroup (c_id cur) (c_list_id cur) (c_position cur) t)
                     (cards d)) /\
  (t = c_position cur ->
   snd (run (move_card reliable (c_id cur) (c_list_id cur) t) d) = d).
Proof.
  intros Hnd Hcur Hl. rewrite (move_within_run d cur t Hnd Hcur Hl). simpl.
  repeat split. intros ->.
  transitivity (set_cards d (cards d)); [|apply set_cards_same]. f_equal.
  transitivity (map id (cards d)); [|apply map_id].
  apply map_ext_in. intros c Hc. unfold id.
  unfold moveWithinGroup.
  destruct (Z.eqb_spec (c_id c) (c_id cur)) as [Hid|Hid].
  - assert (c = cur) by (eapply same_card; eauto). subst c. now destruct cur.
  - zbool.
Qed.

(** The scenario of the specification: A, B, C at 0, 1, 2; C goes to 0. *)
Lemma move_within_list_witness :
  map (fun c => (c_title c, c_list_id c, c_position c))
      (cards (snd (run (move_card reliable 3 1 0) small_board))) =
  [("A"%string, 1, 1); ("B"%string, 1, 2); ("C"%string, 1, 0); ("Z"%string, 2, 0)].
Proof.
  destruct (move_within_list small_board (plain_card 3 1 2 "C") 0) as (_ & H & _).
  - concrete_nodup.
  - simpl. auto.
  - reflexivity.
  - exact (f_equal (fun x => map (fun c => (c_title c, c_list_id c, c_position c))
                                 (cards x)) H).
Defined.

(** C6. In a densely numbered list, moving a card from [p] to [t] and then
    from [t] back to [p] gives back the store as it was: every card is at
    its original position. *)
Theorem move_round_trip (d : db) (cur : card_row) (t : Z) :
  NoDup (map c_id (cards d)) ->
  In cur (cards d) ->
  has_list d (c_list_id cur) = true ->
  dense (card_positions (c_list_id cur) d) ->
  0 <= t < Z.of_nat (List.length (cards_of (c_list_id cur) d)) ->
  let there := run (move_card reliable (c_id cur) (c_list_id cur) t) d in
  let back := run (move_card reliable (c_id cur) (c_list_id cur) (c_position cur))
                  (snd there) in
  fst there = json Success /\ fst back = json Success /\ snd back = d.
Proof.
  intros Hnd Hcur Hl Hdense _. cbv zeta.
  rewrite (move_within_run d cur t Hnd Hcur Hl). simpl.
  set (F1 := moveWithinGroup (c_id cur) (c_list_id cur) (c_position cur) t).
  pose proof (move_within_run (set_cards d (map F1 (cards d)))
                              (with_c_position cur t) (c_position cur)) as Hback.
  simpl in Hback. rewrite Hback; clear Hback.
  - simpl. repeat split.
    transitivity (set_cards d (cards d)); [|apply set_cards_same].
    unfold set_cards. simpl. f_equal.
    rewrite map_map. transitivity (map id (cards d)); [|apply map_id].
    apply map_ext_in. intros c Hc. unfold id, F1, moveWithinGroup.
    destruct (Z.eqb_spec (c_id c) (c_id cur)) as [Hid|Hid].
    + assert (c = cur) by (eapply same_card; eauto). subst c.
      simpl. rewrite Z.eqb_refl. now destruct cur.
    + destruct (Z.eqb_spec (c_list_id c) (c_list_id cur)) as [Hk|Hk].
      * assert (Hp : c_position c <> c_position cur).
        { intros Hp. apply Hid. f_equal.
          apply dense_iff in Hdense as [Hdense _].
          unfold card_positions, positions in Hdense.
          eapply NoDup_map_eq; [exact Hdense| | |exact Hp];
            apply in_group; auto. }
        zbool; destruct c; unfold with_c_position; simpl in *; f_equal; lia.
      * zbool.
  - rewrite moved_ids; [exact Hnd|]. intros c. apply moveWithinGroup_id.
  - apply in_map_iff. exists cur. split; [|exact Hcur].
    unfold F1, moveWithinGroup. now rewrite Z.eqb_refl.
  - exact Hl.
Qed.

Lemma move_round_trip_witness :
  snd (run (move_card reliable 3 1 2)
           (snd (run (move_card reliable 3 1 0) small_board))) = small_board.
Proof.
  apply (move_round_trip small_board (plain_card 3 1 2 "C") 0).
  - concrete_nodup.
  - simpl. auto.
  - reflexivity.
  - apply dense_iff. split; [concrete_nodup|].
    simpl. intros x [<-|[<-|[<-|[]]]]; lia.
  - simpl. lia.
Defined.

Lemma dense_positions_slots (K : Z -> Prop) (cs : list card_row) :
  (forall k, K k -> dense (positions card_row c_list_id c_position k cs)) ->
  slots_ok card_row c_list_id c_position K cs.
Proof. apply dense_slots_ok. Qed.

(** C3. A move of the card at position [p] of list [A] to position [t] of a
    different list [B], on a store that does not fail, answers success and
    rewrites the table as [moveAcrossGroup] says: the cards of [A] after [p]
    go down by one, the cards of [B] from [t] on go up by one, the moved
    card is set to list [B] and position [t].  When [A] and [B] were densely
    numbered and [t] is at most the size of [B], [A] is left with one card
    less, [B] with one card more, both densely numbered. *)
Theorem move_across_lists (d : db) (cur : card_row) (B t : Z) :
  NoDup (map c_id (cards d)) ->
  In cur (cards d) ->
  c_list_id cur <> B ->
  has_list d B = true ->
  dense (card_positions (c_list_id cur) d) ->
  dense (card_positions B d) ->
  0 <= t <= Z.of_nat (List.length (cards_of B d)) ->
  let A := c_list_id cur in
  let r := run (move_card reliable (c_id cur) B t) d in
  fst r = json Success /\
  snd r = set_cards d (map (moveAcrossGroup (c_id cur) A (c_position cur) B t)
                           (cards d)) /\
  In (with_c_place cur B t) (cards (snd r)) /\
  dense (card_positions A (snd r)) /\
  S (List.length (cards_of A (snd r))) = List.length (cards_of A d) /\
  dense (card_positions B (snd r)) /\
  List.length (cards_of B (snd r)) = S (List.length (cards_of B d)).
Proof.
  intros Hnd Hcur HAB Hl HdA HdB Ht. cbv zeta.
  rewrite (move_across_run d cur B t Hnd Hcur HAB Hl). simpl.
  set (F := moveAcrossGroup (c_id cur) (c_list_id cur) (c_position cur) B t).
  set (K := fun k => k = c_list_id cur \/ k = B).
  assert (Hids : NoDup (map c_id (map F (cards d)))).
  { rewrite moved_ids; [exact Hnd|]. intros c. apply moveAcrossGroup_id. }
  assert (Hslots : slots_ok card_row c_list_id c_position K (map F (cards d))).
  { apply across_keeps_slots; auto.
    apply dense_positions_slots. intros k [->| ->]; assumption. }
  assert (Hdense : forall k, K k ->
             dense (positions card_row c_list_id c_position k (map F (cards d)))).
  { apply slots_ok_dense; auto. eapply NoDup_of_map; eauto. }
  pose proof (across_sizes (cards d) cur B t (c_list_id cur) Hnd Hcur HAB) as HsA.
  pose proof (across_sizes (cards d) cur B t B Hnd Hcur HAB) as HsB.
  fold F in HsA, HsB. unfold size in HsA, HsB.
  rewrite Z.eqb_refl in HsA, HsB.
  destruct (Z.eqb_spec (c_list_id cur) B) as [|_]; [contradiction|].
  destruct (Z.eqb_spec B (c_list_id cur)) as [|_]; [congruence|].
  assert (HinA : In cur (cards_of (c_list_id cur) d)) by (apply in_group; auto).
  assert (List.length (cards_of (c_list_id cur) d) <> 0%nat).
  { intros Hz. apply length_zero_iff_nil in Hz. rewrite Hz in HinA. contradiction. }
  unfold cards_of, card_positions in *. simpl.
  repeat split.
  - apply in_map_iff. exists cur. split; [|exact Hcur].
    unfold F. apply moveAcrossGroup_moved.
  - apply Hdense. left. reflexivity.
  - lia.
  - apply Hdense. right. reflexivity.
  - lia.
Qed.

(** The scenario of the specification, on the small board: A leaves list 1
    (A, B, C) for position 1 of list 2 (Z). *)
Lemma move_across_lists_witness :
  map (fun c => (c_title c, c_list_id c, c_position c))
      (cards (snd (run (move_card reliable 1 2 1) small_board))) =
  [("A"%string, 2, 1); ("B"%string, 1, 0); ("C"%string, 1, 1); ("Z"%string, 2, 0)].
Proof.
  destruct (move_across_lists small_board (plain_card 1 1 0 "A") 2 1)
    as (_ & H & _).
  - concrete_nodup.
  - simpl. auto.
  - simpl. discriminate.
  - reflexivity.
  - apply dense_iff. split; [concrete_nodup|].
    simpl. intros x [<-|[<-|[<-|[]]]]; lia.
  - apply dense_iff. split; [concrete_nodup|].
    simpl. intros x [<-|[]]; lia.
  - simpl. lia.
  - exact (f_equal (fun x => map (fun c => (c_title c, c_list_id c, c_position c))
                                 (cards x)) H).
Defined.

(** ** Appending *)

Lemma fold_max_swap (p q : Z) (r : list Z) :
  Z.max p (fold_right Z.max q r) = Z.max q (fold_right Z.max p r).
Proof.
  induction r as [|x r IH]; simpl; lia.
Qed.

Lemma sql_max_cons (p : Z) (rest : list Z) :
  sql_max (p :: rest) = Some (fold_right Z.max p rest).
Proof.
  revert p. induction rest as [|q r IH]; intros p; [reflexivity|].
  change (sql_max (p :: q :: r))
    with (match sql_max (q :: r) with
          | None => Some p
          | Some m => Some (Z.max p m)
          end).
  rewrite IH. simpl. f_equal. apply fold_max_swap.
Qed.

(** The query of the handlers computes the position the specification
    gives to an appended item. *)
Lemma next_position_is_append (ps : list Z) :
  coalesce (sql_max ps) (-1) + 1 = append_position ps.
Proof.
  destruct ps as [|p rest]; [reflexivity|].
  rewrite sql_max_cons. reflexivity.
Qed.

Lemma fold_max_is_max (p : Z) (rest : list Z) :
  In (fold_right Z.max p rest) (p :: rest) /\
  forall x, In x (p :: rest) -> x <= fold_right Z.max p rest.
Proof.
  induction rest as [|q r [IHin IHle]]; simpl.
  - split; [auto|]. intros x [<-|[]]. lia.
  - split.
    + destruct (Z.max_spec q (fold_right Z.max p r)) as [[_ ->]|[_ ->]]; auto.
      simpl in IHin. tauto.
    + intros x [<-|[<-|Hx]].
      * specialize (IHle p (or_introl eq_refl)). lia.
      * lia.
      * specialize (IHle x (or_intror Hx)). lia.
Qed.

(** In a dense group the next position is the size of the group. *)
Lemma append_position_dense (ps : list Z) :
  dense ps -> append_position ps = Z.of_nat (List.length ps).
Proof.
  intros Hd. destruct ps as [|p rest]; [reflexivity|].
  pose proof (proj1 (dense_iff _) Hd) as [_ Hb].
  destruct (fold_max_is_max p rest) as [Hin Hle].
  unfold append_position.
  assert (Hlast : In (Z.of_nat (List.length rest)) (p :: rest)).
  { eapply Permutation_in; [symmetry; exact Hd|].
    apply in_range_list. simpl. lia. }
  specialize (Hb _ Hin). specialize (Hle _ Hlast). simpl in Hb |- *. lia.
Qed.

Lemma dense_append (ps : list Z) :
  dense ps -> dense (ps ++ [append_position ps]).
Proof.
  intros Hd. rewrite (append_position_dense ps Hd).
  pose proof (proj1 (dense_iff _) Hd) as [Hnd Hb].
  apply dense_iff. split.
  - apply NoDup_app; [exact Hnd|concrete_nodup|].
    intros x Hx [<-|[]]. specialize (Hb _ Hx). lia.
  - intros x Hx. rewrite length_app. simpl.
    apply in_app_or in Hx as [Hx|[<-|[]]]; [specialize (Hb _ Hx)|]; lia.
Qed.

Lemma has_list_in (d : db) (id : Z) :
  has_list d id = true <-> In id (map l_id (lists d)).
Proof.
  unfold has_list. rewrite existsb_exists, in_map_iff. split.
  - intros (l & Hl & Hid). apply Z.eqb_eq in Hid. eauto.
  - intros (l & Hid & Hl). exists l. split; [auto|]. now apply Z.eqb_eq.
Qed.

(** POST /api/cards on a store that does not fail, for a due date that
    passes the handler and values that the columns take. *)
Lemma create_card_held (d : db) (list_id : Z) (title : string)
      (description : option string) (due_date : js_value) (priority : option string)
      (formattedDate : option string) (held : string) :
  has_list d list_id = true ->
  format_due_date due_date = Formatted formattedDate ->
  priority_column (or_default priority "medium") = Some held ->
  date_column formattedDate = true ->
  run (create_card reliable list_id title description due_date priority) d =
  (json (CreatedCard (mkCard (next_card_id d) list_id title (or_default description "")
                             (append_position (card_positions list_id d))
                             (or_default priority "medium") formattedDate)),
   mkDb (boards d) (lists d)
        (cards d ++ [mkCard (next_card_id d) list_id title (or_default description "")
                            (append_position (card_positions list_id d))
                            held formattedDate])
        (next_board_id d) (next_list_id d) (next_card_id d + 1)).
Proof.
  intros Hl Hdate Hp Hd. unfold run, create_card, insert_card. step_monad.
  rewrite Hdate. step_monad. rewrite Hp, Hd, Hl. simpl.
  unfold next_card_position. rewrite next_position_is_append. reflexivity.
Qed.

Lemma create_card_run (d : db) (list_id : Z) (title : string)
      (description : option string) (due_date : js_value) (priority : option string)
      (formattedDate : option string) :
  has_list d list_id = true ->
  format_due_date due_date = Formatted formattedDate ->
  priority_column (or_default priority "medium") = Some (or_default priority "medium") ->
  date_column formattedDate = true ->
  let new := mkCard (next_card_id d) list_id title (or_default description "")
                    (append_position (card_positions list_id d))
                    (or_default priority "medium") formattedDate in
  run (create_card reliable list_id title description due_date priority) d =
  (json (CreatedCard new),
   mkDb (boards d) (lists d) (cards d ++ [new])
        (next_board_id d) (next_list_id d) (next_card_id d + 1)).
Proof.
  intros Hl Hdate Hp Hd. cbv zeta. now apply create_card_held.
Qed.

(** The same request when a column refuses a value: the answer is 500 with
    the message of the column, priority before due date, and the store is
    left as it was. *)
Lemma create_card_refused (d : db) (list_id : Z) (title : string)
      (description : option string) (due_date : js_value) (priority : option string)
      (formattedDate : option string) :
  format_due_date due_date = Formatted formattedDate ->
  (priority_column (or_default priority "medium") = None ->
   run (create_card reliable list_id title description due_date priority) d =
   (Reply 500 (Error (ErrMessage DataTruncated)), d)) /\
  (priority_column (or_default priority "medium") <> None ->
   date_column formattedDate = false ->
   run (create_card reliable list_id title description due_date priority) d =
   (Reply 500 (Error (ErrMessage IncorrectDateValue)), d)).
Proof.
  intros Hdate. split.
  - intros Hp. unfold run, create_card, insert_card. step_monad.
    rewrite Hdate. step_monad. rewrite Hp. simpl. now destruct d.
  - intros Hp Hd. unfold run, create_card, insert_card. step_monad.
    rewrite Hdate. step_monad.
    destruct (priority_column (or_default priority "medium")); [|congruence].
    rewrite Hd. simpl. now destruct d.
Qed.

(** POST /api/lists on a store that does not fail. *)
Lemma create_list_run (d : db) (board_id : Z) (title : string) :
  has_board d board_id = true ->
  let new := mkList (next_list_id d) board_id title
                    (append_position (list_positions board_id d)) in
  run (create_list reliable board_id title) d =
  (json (CreatedList new),
   mkDb (boards d) (lists d ++ [new]) (cards d)
        (next_board_id d) (next_list_id d + 1) (next_card_id d)).
Proof.
  intros Hb. cbv zeta. unfold run, create_list, insert_list. step_monad.
  rewrite Hb. simpl.
  unfold next_list_position. rewrite next_position_is_append. reflexivity.
Qed.

Lemma range_list_dense (n : nat) : dense (map Z.of_nat (seq 0 n)).
Proof. unfold dense. now rewrite length_map, length_seq. Qed.

Lemma range_list_next (n : nat) :
  map Z.of_nat (seq 0 n) ++ [append_position (map Z.of_nat (seq 0 n))] =
  map Z.of_nat (seq 0 (S n)).
Proof.
  rewrite (append_position_dense _ (range_list_dense n)).
  rewrite length_map, length_seq, seq_S, map_app. reflexivity.
Qed.

Lemma append_cards_from (titles : list string) (d : db) (list_id : Z) (n : nat) :
  has_list d list_id = true ->
  card_positions list_id d = map Z.of_nat (seq 0 n) ->
  card_positions list_id (append_cards list_id titles d) =
    map Z.of_nat (seq 0 (n + List.length titles)) /\
  map c_title (cards_of list_id (append_cards list_id titles d)) =
    map c_title (cards_of list_id d) ++ titles.
Proof.
  revert d n. induction titles as [|title rest IH]; intros d n Hl Hpos; simpl.
  - rewrite Nat.add_0_r, app_nil_r. auto.
  - rewrite (create_card_run d list_id title None JUndefined None None Hl eq_refl
                             eq_refl eq_refl).
    simpl. rewrite Hpos.
    set (new := mkCard _ _ _ _ _ _ _).
    set (d1 := mkDb _ _ _ _ _ _).
    assert (Hof : cards_of list_id d1 = cards_of list_id d ++ [new]).
    { unfold cards_of, group, d1. simpl. rewrite filter_app. simpl.
      now rewrite Z.eqb_refl. }
    destruct (IH d1 (S n)) as [Hp Ht].
    + exact Hl.
    + unfold card_positions, positions. fold (cards_of list_id d1).
      rewrite Hof, map_app.
      change (map c_position (cards_of list_id d)) with (card_positions list_id d).
      rewrite Hpos. apply range_list_next.
    + split.
      * rewrite Hp. f_equal. f_equal. lia.
      * rewrite Ht, Hof, map_app, <- app_assoc. reflexivity.
Qed.

Lemma append_lists_from (titles : list string) (d : db) (board_id : Z) (n : nat) :
  has_board d board_id = true ->
  list_positions board_id d = map Z.of_nat (seq 0 n) ->
  list_positions board_id (append_lists board_id titles d) =
    map Z.of_nat (seq 0 (n + List.length titles)) /\
  map l_title (lists_of board_id (append_lists board_id titles d)) =
    map l_title (lists_of board_id d) ++ titles.
Proof.
  revert d n. induction titles as [|title rest IH]; intros d n Hb Hpos; simpl.
  - rewrite Nat.add_0_r, app_nil_r. auto.
  - rewrite (create_list_run d board_id title Hb).
    simpl. rewrite Hpos.
    set (new := mkList _ _ _ _).
    set (d1 := mkDb _ _ _ _ _ _).
    assert (Hof : lists_of board_id d1 = lists_of board_id d ++ [new]).
    { unfold lists_of, group, d1. simpl. rewrite filter_app. simpl.
      now rewrite Z.eqb_refl. }
    destruct (IH d1 (S n)) as [Hp Ht].
    + exact Hb.
    + unfold list_positions, positions. fold (lists_of board_id d1).
      rewrite Hof, map_app.
      change (map l_position (lists_of board_id d)) with (list_positions board_id d).
      rewrite Hpos. apply range_list_next.
    + split.
      * rewrite Hp. f_equal. f_equal. lia.
      * rewrite Ht, Hof, map_app, <- app_assoc. reflexivity.
Qed.

(** C7. Appending a card to an existing list (a list to an existing board)
    on a store that does not fail gives the new row the position
    [append_position] of its group: the current maximum plus one, 0 for an
    empty group; the table is the old one followed by the new row, so no
    other position changes.  For a card, the due date has to pass the
    handler and the columns have to take the priority and the date; the row
    added is the row answered, with the priority as the column holds it.
    Appending k items to an empty group numbers them 0 .. k-1 in insertion
    order. *)
Theorem append_takes_next_position (d : db) (k : Z) (title : string)
        (titles : list string) :
  (has_list d k = true ->
   forall description due_date priority formattedDate held,
     format_due_date due_date = Formatted formattedDate ->
     priority_column (or_default priority "medium") = Some held ->
     date_column formattedDate = true ->
     exists new,
       run (create_card reliable k title description due_date priority) d =
       (json (CreatedCard new),
        mkDb (boards d) (lists d) (cards d ++ [with_c_priority new held])
             (next_board_id d) (next_list_id d) (next_card_id d + 1)) /\
       c_list_id new = k /\
       c_position new = append_position (card_positions k d)) /\
  (has_board d k = true ->
   exists new,
     run (create_list reliable k title) d =
     (json (CreatedList new),
      mkDb (boards d) (lists d ++ [new]) (cards d)
           (next_board_id d) (next_list_id d + 1) (next_card_id d)) /\
     l_board_id new = k /\
     l_position new = append_position (list_positions k d)) /\
  (has_list d k = true -> cards_of k d = [] ->
   map (fun c => (c_title c, c_position c)) (cards_of k (append_cards k titles d)) =
   combine titles (map Z.of_nat (seq 0 (List.length titles)))) /\
  (has_board d k = true -> lists_of k d = [] ->
   map (fun l => (l_title l, l_position l)) (lists_of k (append_lists k titles d)) =
   combine titles (map Z.of_nat (seq 0 (List.length titles)))).
Proof.
  assert (Hpair : forall (A : Type) (f : A -> string) (g : A -> Z) (rows : list A)
                         (ts : list string) (ps : list Z),
             map f rows = ts -> map g rows = ps ->
             map (fun r => (f r, g r)) rows = combine ts ps).
  { intros A f g rows ts ps <- <-. induction rows; simpl; congruence. }
  repeat split.
  - intros Hl description due_date priority formattedDate held Hdate Hp Hd.
    exists (mkCard (next_card_id d) k title (or_default description "")
                   (append_position (card_positions k d))
                   (or_default priority "medium") formattedDate).
    split; [now apply create_card_held|]. simpl. auto.
  - intros Hb. eexists. split; [apply create_list_run; eauto|]. simpl. auto.
  - intros Hl Hempty.
    destruct (append_cards_from titles d k 0 Hl) as [Hp Ht].
    + unfold card_positions, positions. fold (cards_of k d). now rewrite Hempty.
    + rewrite Hempty in Ht. apply Hpair; auto.
  - intros Hb Hempty.
    destruct (append_lists_from titles d k 0 Hb) as [Hp Ht].
    + unfold list_positions, positions. fold (lists_of k d). now rewrite Hempty.
    + rewrite Hempty in Ht. apply Hpair; auto.
Qed.

Lemma append_takes_next_position_witness :
  map (fun c => (c_title c, c_position c))
      (cards_of 3 (append_cards 3 ["x"; "y"; "z"]%string small_board)) =
  [("x"%string, 0); ("y"%string, 1); ("z"%string, 2)].
Proof.
  destruct (append_takes_next_position small_board 3 "x" ["x"; "y"; "z"]%string)
    as (_ & _ & H & _).
  apply H; reflexivity.
Defined.

(** ** Deleting *)

(** C4, at a failing input.  Deleting card A (position 0) of list 1, or
    list 1 (position 0) of the board, answers success and removes the row;
    the rows that followed keep their positions 1 and 2, which are not the
    dense numbering 0, 1 of a group of two. *)
Theorem delete_leaves_gap :
  run (delete_card reliable 1) small_board =
    (json Success,
     set_cards small_board
       [plain_card 2 1 1 "B"; plain_card 3 1 2 "C"; plain_card 4 2 0 "Z"]) /\
  card_positions 1 (snd (run (delete_card reliable 1) small_board)) = [1; 2] /\
  fst (run (delete_list reliable 1) small_board) = json Success /\
  list_positions 1 (snd (run (delete_list reliable 1) small_board)) = [1; 2] /\
  ~ dense [1; 2].
Proof.
  repeat split. intros H. apply dense_iff in H as [_ H].
  specialize (H 2). simpl in H. lia.
Qed.

(** ** Moves that cannot be served *)

(** C8, as stated, fails: moving card A of the small board to list 9, which
    does not exist, is answered with status 500 and the message of the
    store, not with 404. *)
Lemma move_to_missing_list_counterexample :
  has_list small_board 9 = false /\
  run (move_card reliable 1 9 0) small_board =
    (Reply 500 (Error (ErrMessage ForeignKeyViolation)), small_board) /\
  forall b, fst (run (move_card reliable 1 9 0) small_board) <> Reply 404 b.
Proof.
  repeat split. intros b. simpl. discriminate.
Qed.

Lemma existsb_id_map (F : card_row -> card_row) (cs : list card_row) (id : Z) :
  (forall c, c_id (F c) = c_id c) ->
  existsb (fun c => c_id c =? id) (map F cs) = existsb (fun c => c_id c =? id) cs.
Proof.
  intros HF. induction cs as [|c cs IH]; simpl; [reflexivity|].
  now rewrite HF, IH.
Qed.

Lemma move_unknown_card_run (d : db) (cardId list_id position : Z) :
  select_card cardId d = [] ->
  run (move_card reliable cardId list_id position) d =
  (Reply 404 (Error (Text "Card not found")), d).
Proof.
  intros Hsel. unfold run, move_card. step_monad. now rewrite Hsel.
Qed.

Lemma move_to_missing_list_run (d : db) (cur : card_row) (list_id position : Z) :
  NoDup (map c_id (cards d)) ->
  In cur (cards d) ->
  has_list d (c_list_id cur) = true ->
  has_list d list_id = false ->
  run (move_card reliable (c_id cur) list_id position) d =
  (Reply 500 (Error (ErrMessage ForeignKeyViolation)), d).
Proof.
  intros Hnd Hin Hown Hmissing.
  assert (Hex : existsb (fun c => c_id c =? c_id cur) (cards d) = true).
  { apply existsb_exists. exists cur. split; [exact Hin|apply Z.eqb_refl]. }
  unfold run, move_card. step_monad.
  rewrite (select_card_unique d cur Hnd Hin).
  destruct (Z.eqb_spec (c_list_id cur) list_id) as [Hsame|_]; [congruence|].
  step_monad. unfold updateCardPosition, place_card. step_monad.
  change (has_list (shift_up_from list_id position
                      (shift_down_after (c_list_id cur) (c_position cur) d))
                   list_id)
    with (has_list d list_id).
  rewrite Hmissing. rewrite !existsb_id_map, Hex; [reflexivity| |];
    intros c; match goal with |- context [if ?b then _ else _] => destruct b end;
    reflexivity.
Qed.

(** C8, amended.  On a store that does not fail: a move of a card whose id
    is in no row is answered 404 "Card not found" and leaves the store as it
    was; a move of an existing card to a list that does not exist is
    answered 500 with the foreign-key error of the store and leaves the
    store as it was. *)
Theorem unservable_moves (d : db) (list_id position : Z) :
  (forall cardId,
      (forall c, In c (cards d) -> c_id c <> cardId) ->
      run (move_card reliable cardId list_id position) d =
      (Reply 404 (Error (Text "Card not found")), d)) /\
  (forall cur,
      NoDup (map c_id (cards d)) ->
      In cur (cards d) ->
      has_list d (c_list_id cur) = true ->
      has_list d list_id = false ->
      run (move_card reliable (c_id cur) list_id position) d =
      (Reply 500 (Error (ErrMessage ForeignKeyViolation)), d)).
Proof.
  split.
  - intros cardId Hnone. apply move_unknown_card_run.
    destruct (select_card cardId d) as [|cur rest] eqn:E; [reflexivity|].
    apply select_card_head in E as [Hin Hid]. now elim (Hnone cur Hin).
  - intros cur Hnd Hin Hown Hmissing. now apply move_to_missing_list_run.
Qed.

Lemma unservable_moves_witness :
  run (move_card reliable 7 1 0) small_board =
    (Reply 404 (Error (Text "Card not found")), small_board) /\
  run (move_card reliable 1 9 0) small_board =
    (Reply 500 (Error (ErrMessage ForeignKeyViolation)), small_board).
Proof.
  split.
  - apply (proj1 (unservable_moves small_board 1 0) 7).
    simpl. intros c [<-|[<-|[<-|[<-|[]]]]]; discriminate.
  - apply (proj2 (unservable_moves small_board 9 0) (plain_card 1 1 0 "A")).
    + concrete_nodup.
    + simpl. auto.
    + reflexivity.
    + reflexivity.
Defined.

(** ** Due dates *)

Lemma digit_facts (a : ascii) :
  is_digit a = true -> is_white_space a = false /\ Ascii.eqb a "T" = false.
Proof.
  destruct a as [[] [] [] [] [] [] [] []]; vm_compute; intros H;
    try discriminate; auto.
Qed.

Lemma trimStart_blank (s : string) : blank s = true -> trimStart s = EmptyString.
Proof.
  unfold blank. induction s as [|a s IH]; simpl; [reflexivity|].
  intros H. apply andb_true_iff in H as [Ha Hs]. rewrite Ha. auto.
Qed.

Lemma trimStart_keeps (s : string) (a : ascii) :
  In a (list_ascii_of_string s) -> is_white_space a = false ->
  In a (list_ascii_of_string (trimStart s)).
Proof.
  induction s as [|b s IH]; simpl; [tauto|].
  intros [->|Hin] Ha.
  - rewrite Ha. simpl. auto.
  - destruct (is_white_space b); simpl; auto.
Qed.

Lemma reverse_chars (s : string) :
  list_ascii_of_string (reverse s) = rev (list_ascii_of_string s).
Proof. unfold reverse. apply list_ascii_of_string_of_list_ascii. Qed.

Lemma trim_blank (s : string) : blank s = true -> trim s = EmptyString.
Proof. intros H. unfold trim. now rewrite (trimStart_blank s H). Qed.

Lemma trim_not_blank (s : string) : blank s = false -> trim s <> EmptyString.
Proof.
  intros Hb.
  assert (Hex : exists a, In a (list_ascii_of_string s) /\ is_white_space a = false).
  { unfold blank in Hb. induction (list_ascii_of_string s) as [|b l IH];
      simpl in Hb; [discriminate|].
    destruct (is_white_space b) eqn:E.
    - destruct (IH Hb) as (a & Ha & Hw). exists a. simpl. auto.
    - exists b. simpl. auto. }
  destruct Hex as (a & Ha & Hw).
  assert (Hin : In a (list_ascii_of_string (trim s))).
  { unfold trim. rewrite reverse_chars. apply in_rev. rewrite rev_involutive.
    apply trimStart_keeps; [|exact Hw].
    rewrite reverse_chars. apply in_rev. rewrite rev_involutive.
    now apply trimStart_keeps. }
  intros Hempty. rewrite Hempty in Hin. contradiction.
Qed.

Lemma blank_empty : forall s, String.eqb s EmptyString = true -> blank s = true.
Proof. intros s H. apply String.eqb_eq in H. now subst. Qed.

(** The date block, case by case. *)
Lemma format_due_date_string (s : string) :
  format_due_date (JString s) =
  if blank s then Formatted None
  else if matches date_pattern (split_T_head s) then Formatted (Some (split_T_head s))
  else InvalidDate.
Proof.
  unfold format_due_date, truthy. destruct (blank s) eqn:Hb.
  - rewrite (trim_blank s Hb). simpl.
    now destruct (negb (String.eqb s EmptyString)).
  - pose proof (trim_not_blank s Hb) as Ht.
    apply String.eqb_neq in Ht. rewrite Ht.
    destruct (String.eqb s EmptyString) eqn:He.
    + apply blank_empty in He. congruence.
    + cbn [negb]. destruct (matches date_pattern (split_T_head s)); reflexivity.
Qed.

(** A text of the form YYYY-MM-DD is not blank and holds no capital T; it
    is what [split] leaves of it, with or without a time after it. *)
Lemma date_text (date rest : string) :
  matches date_pattern date = true ->
  blank date = false /\
  split_T_head date = date /\
  blank (date ++ String "T" rest) = false /\
  split_T_head (date ++ String "T" rest) = date.
Proof.
  intros H. unfold date_pattern in H.
  repeat (destruct date as [|? date]; cbn [matches] in H; try discriminate;
          try (apply andb_true_iff in H as [? H])).
  repeat match goal with
         | H : is_digit _ = true |- _ => apply digit_facts in H as [? ?]
         | H : Ascii.eqb _ _ = true |- _ => apply Ascii.eqb_eq in H; subst
         end.
  unfold blank.
  cbn [list_ascii_of_string forallb split_T_head String.append].
  repeat match goal with
         | H : is_white_space _ = false |- _ => rewrite H; clear H
         | H : Ascii.eqb _ "T" = false |- _ => rewrite H; clear H
         end.
  cbn. auto.
Qed.

Lemma create_card_rejects (d : db) (list_id : Z) (title : string)
      (description : option string) (due_date : js_value) (priority : option string) :
  format_due_date due_date = InvalidDate ->
  run (create_card reliable list_id title description due_date priority) d =
  (Reply 400 (Error (Text "Invalid date format")), d).
Proof.
  intros H. unfold run, create_card. step_monad. rewrite H. reflexivity.
Qed.

Lemma create_card_throws (d : db) (list_id : Z) (title : string)
      (description : option string) (due_date : js_value) (priority : option string) :
  format_due_date due_date = NotAFunction ->
  run (create_card reliable list_id title description due_date priority) d =
  (Uncaught "TypeError", d).
Proof.
  intros H. unfold run, create_card. step_monad. rewrite H. reflexivity.
Qed.

Lemma card_is_there (d : db) (cur : card_row) :
  In cur (cards d) -> existsb (fun c => c_id c =? c_id cur) (cards d) = true.
Proof.
  intros Hin. apply existsb_exists. exists cur. split; [exact Hin|apply Z.eqb_refl].
Qed.

(** The due date the update of [cur] works on, and the priority it sends. *)
Lemma update_card_run (d : db) (cur : card_row) (updates : card_updates) :
  NoDup (map c_id (cards d)) -> In cur (cards d) ->
  run (update_card reliable (c_id cur) updates) d =
  match format_due_date (match u_due_date updates with
                         | JUndefined => stored_date (c_due_date cur)
                         | v => v
                         end) with
  | NotAFunction => (Uncaught "TypeError", d)
  | InvalidDate => (Reply 400 (Error (Text "Invalid date format")), d)
  | Formatted formattedDate =>
      match priority_column
              (or_default (Some (match u_priority updates with
                                 | Some t => t
                                 | None => c_priority cur
                                 end)) "medium") with
      | None => (Reply 500 (Error (ErrMessage DataTruncated)), d)
      | Some held =>
          if date_column formattedDate then
            (json (SuccessDate formattedDate),
             set_card_fields
               (match u_title updates with Some t => t | None => c_title cur end)
               (or_default (Some (match u_description updates with
                                  | Some t => t
                                  | None => c_description cur
                                  end)) "")
               held formattedDate (c_id cur) d)
          else (Reply 500 (Error (ErrMessage IncorrectDateValue)), d)
      end
  end.
Proof.
  intros Hnd Hcur. unfold run, update_card, update_card_fields. step_monad.
  rewrite (select_card_unique d cur Hnd Hcur).
  destruct (format_due_date _); try reflexivity.
  step_monad. rewrite (card_is_there d cur Hcur).
  destruct (priority_column _); [|reflexivity].
  destruct (date_column formattedDate); reflexivity.
Qed.





(** ** The reorder of lists, whatever the target *)

Lemma index_from_nth (k : Z) (sequence : list list_row) (i : nat) (l : list_row) :
  NoDup (map l_id sequence) ->
  nth_error sequence i = Some l ->
  index_from k (l_id l) sequence = Some (k + Z.of_nat i).
Proof.
  revert k i. induction sequence as [|x rest IH]; intros k i Hnd Hnth.
  - destruct i; discriminate.
  - inversion Hnd as [|? ? Hnotin Hnd']; subst. destruct i as [|i]; simpl in *.
    + inversion Hnth; subst. rewrite Z.eqb_refl. f_equal. lia.
    + destruct (Z.eqb_spec (l_id x) (l_id l)) as [Hid|Hid].
      * exfalso. apply Hnotin. rewrite Hid. apply in_map.
        eapply nth_error_In; eauto.
      * rewrite (IH (k + 1) i Hnd' Hnth). f_equal. lia.
Qed.

Lemma splice_start_range (start len : Z) :
  0 <= len -> 0 <= splice_start start len <= len.
Proof. intros H. unfold splice_start. zbool. Qed.

(** C10. A reorder of an existing list, on a store that does not fail and
    for any integer target, answers success; the in-memory sequence holds
    exactly the lists of the board; every list of the board is then numbered
    with its index in that sequence, so that the positions of the board are
    0 .. n-1 without gap or duplicate; the moved list sits at the index
    [splice] computes from the target, which lies between 0 and n-1. *)
Theorem reorder_renumbers_board (d : db) (cur : list_row) (position : Z) :
  NoDup (map l_id (lists d)) ->
  In cur (lists d) ->
  let board := l_board_id cur in
  let n := Z.of_nat (List.length (lists_of board d)) in
  let sequence := resequenced cur position d in
  let r := run (reorder_list reliable (l_id cur) position) d in
  fst r = json Success /\
  Permutation sequence (lists_of board d) /\
  (forall l, In l (lists_of board (snd r)) ->
             0 <= l_position l /\
             nth_error (map l_id sequence) (Z.to_nat (l_position l)) = Some (l_id l)) /\
  List.length (lists_of board (snd r)) = List.length (lists_of board d) /\
  dense (list_positions board (snd r)) /\
  In (with_l_position cur (splice_start position (n - 1))) (lists (snd r)) /\
  0 <= splice_start position (n - 1) <= n - 1.
Proof.
  intros Hnd Hcur. cbv zeta.
  rewrite (reorder_run d cur position Hnd Hcur). simpl.
  pose proof (resequenced_perm d cur position Hnd Hcur) as Hperm.
  set (others := filter (fun list => negb (l_id list =? l_id cur))
                        (select_lists_of_board (l_board_id cur) d)).
  assert (Hlen : Z.of_nat (List.length (lists_of (l_board_id cur) d)) - 1 =
                 Z.of_nat (List.length others)).
  { rewrite <- (Permutation_length Hperm). unfold resequenced. fold others.
    rewrite (Permutation_length (splice_perm position cur others)).
    cbn [List.length]. lia. }
  split; [reflexivity|]. split; [exact Hperm|]. split; [|split; [|split; [|split]]].
  - intros l Hl. rewrite lists_of_renumbered in Hl.
    apply in_map_iff in Hl as (l0 & <- & Hl0).
    destruct (renumber_in_board d cur l0 position Hnd Hcur Hl0) as [Hr Hn].
    destruct (renumber_board (resequenced cur position d) l0) as [_ Hid].
    rewrite Hid. split; [lia|exact Hn].
  - rewrite lists_of_renumbered. apply length_map.
  - now apply reorder_dense_board.
  - apply in_map_iff. exists cur. split; [|exact Hcur].
    unfold renumber, renumber_from.
    rewrite (index_from_nth 0 (resequenced cur position d)
               (Z.to_nat (splice_start position (Z.of_nat (List.length others)))) cur).
    + rewrite Hlen. f_equal.
      pose proof (splice_start_range position (Z.of_nat (List.length others))). lia.
    + now apply resequenced_ids_unique.
    + unfold resequenced. fold others. apply splice_nth.
  - rewrite Hlen. apply splice_start_range. lia.
Qed.

(** List 1 of the small board sent to -1, to 77 and to 0. *)
Lemma reorder_renumbers_board_witness :
  dense (list_positions 1 (snd (run (reorder_list reliable 1 (-1)) small_board))) /\
  dense (list_positions 1 (snd (run (reorder_list reliable 1 77) small_board))) /\
  dense (list_positions 1 (snd (run (reorder_list reliable 1 0) small_board))).
Proof.
  split; [|split].
  - apply (reorder_renumbers_board small_board (mkList 1 1 "To Do" 0) (-1));
      [concrete_nodup|simpl; auto].
  - apply (reorder_renumbers_board small_board (mkList 1 1 "To Do" 0) 77);
      [concrete_nodup|simpl; auto].
  - apply (reorder_renumbers_board small_board (mkList 1 1 "To Do" 0) 0);
      [concrete_nodup|simpl; auto].
Defined.

(** ** Atomicity of the moves *)

(** C5. Under any schedule of store failures, a card move and a list
    reorder that had a statement fail (the opening of the transaction, a
    read, a shift, the final write or the commit) answer with an error; and
    whenever they answer with an error, the store is exactly as it was
    before the request. *)
Theorem failed_move_leaves_store (faults : nat -> bool) (d : db) (id target position : Z) :
  (some_statement_failed faults (move_card faults id target position) d ->
   is_error (fst (run (move_card faults id target position) d)) = true) /\
  (is_error (fst (run (move_card faults id target position) d)) = true ->
   snd (run (move_card faults id target position) d) = d) /\
  (some_statement_failed faults (reorder_list faults id position) d ->
   is_error (fst (run (reorder_list faults id position) d)) = true) /\
  (is_error (fst (run (reorder_list faults id position) d)) = true ->
   snd (run (reorder_list faults id position) d) = d).
Proof.
  pose proof (move_card_all_or_nothing faults id target position d) as Hm.
  pose proof (reorder_list_all_or_nothing faults id position d) as Hr.
  unfold all_or_nothing, some_statement_failed in *.
  repeat split.
  - intros (k & Hk & Hf). destruct Hm as [[He _]|(_ & _ & Hnone)]; [exact He|].
    rewrite (Hnone k Hk) in Hf. discriminate.
  - intros He. destruct Hm as [[_ Hs]|(Hok & _)]; [exact Hs|congruence].
  - intros (k & Hk & Hf). destruct Hr as [[He _]|(_ & _ & Hnone)]; [exact He|].
    rewrite (Hnone k Hk) in Hf. discriminate.
  - intros He. destruct Hr as [[_ Hs]|(Hok & _)]; [exact Hs|congruence].
Qed.

(** The shift of a move to another list went through, the final write
    failed: the answer is 500 and the store is the small board again. *)
Lemma failed_move_leaves_store_witness :
  is_error (fst (run (move_card (fun k => Nat.eqb k 4) 1 2 1) small_board)) = true /\
  snd (run (move_card (fun k => Nat.eqb k 4) 1 2 1) small_board) = small_board.
Proof.
  pose proof (failed_move_leaves_store (fun k => Nat.eqb k 4) small_board 1 2 1)
    as (Hfail & Hundo & _).
  assert (He : is_error (fst (run (move_card (fun k => Nat.eqb k 4) 1 2 1)
                                  small_board)) = true).
  { apply Hfail. exists 4%nat. split; [vm_compute; lia|reflexivity]. }
  split; [exact He|exact (Hundo He)].
Defined.

(** ** Density along a sequence of requests *)

Lemma moved_cards_keys (F : card_row -> card_row) (d : db) :
  keys_ok d ->
  (forall c, c_id (F c) = c_id c) ->
  (forall c, In c (cards d) -> has_list d (c_list_id (F c)) = true) ->
  keys_ok (set_cards d (map F (cards d))).
Proof.
  intros [Hc Hl Hci Hli Hown] Hid Hlist. constructor; simpl.
  - now rewrite moved_ids.
  - exact Hl.
  - intros c Hin. apply in_map_iff in Hin as (c0 & <- & Hin). rewrite Hid. auto.
  - exact Hli.
  - intros c Hin. apply in_map_iff in Hin as (c0 & <- & Hin).
    apply (Hlist c0 Hin).
Qed.

Lemma moved_cards_dense (cs : list card_row) (d : db) :
  NoDup (map c_id cs) ->
  all_dense d ->
  slots_ok card_row c_list_id c_position (fun _ => True) cs ->
  all_dense (set_cards d cs).
Proof.
  intros Hnd [Hlists _] Hslots. split.
  - exact Hlists.
  - intros k. unfold card_positions. simpl.
    apply (slots_ok_dense card_row c_list_id c_position (fun _ => True)); auto.
    eapply NoDup_of_map; eauto.
Qed.

Lemma all_dense_slots (d : db) :
  all_dense d -> slots_ok card_row c_list_id c_position (fun _ => True) (cards d).
Proof.
  intros [_ Hcards]. apply dense_slots_ok. intros k _. apply Hcards.
Qed.

Lemma move_card_keeps (d : db) (cardId list_id position : Z) :
  keys_ok d -> all_dense d ->
  target_in_range d cardId list_id position ->
  keys_ok (snd (run (move_card reliable cardId list_id position) d)) /\
  all_dense (snd (run (move_card reliable cardId list_id position) d)).
Proof.
  intros Hkeys Hdense Hrange. unfold target_in_range in Hrange.
  destruct (select_card cardId d) as [|cur rest] eqn:Hsel.
  - rewrite (move_unknown_card_run d cardId list_id position Hsel). auto.
  - apply select_card_head in Hsel as [Hcur <-].
    pose proof (card_ids_unique d Hkeys) as Hnd.
    pose proof (cards_owned d Hkeys cur Hcur) as Hown.
    pose proof (all_dense_slots d Hdense) as Hslots.
    destruct (Z.eqb_spec (c_list_id cur) list_id) as [<-|Hother].
    + rewrite (move_within_run d cur position Hnd Hcur Hown). simpl. split.
      * apply moved_cards_keys; auto.
        -- intros c. apply moveWithinGroup_id.
        -- intros c Hc. rewrite moveWithinGroup_list.
           now apply (cards_owned d Hkeys).
      * apply moved_cards_dense; auto.
        -- rewrite moved_ids; auto. intros c. apply moveWithinGroup_id.
        -- apply within_keeps_slots; auto.
    + destruct (has_list d list_id) eqn:Hl.
      * rewrite (move_across_run d cur list_id position Hnd Hcur Hother Hl).
        simpl. split.
        -- apply moved_cards_keys; auto.
           ++ intros c. apply moveAcrossGroup_id.
           ++ intros c Hc.
              destruct (Z.eq_dec (c_id c) (c_id cur)) as [Hid|Hid].
              ** assert (c = cur) by (eapply same_card; eauto). subst c.
                 now rewrite moveAcrossGroup_moved.
              ** destruct (moveAcrossGroup_other cur c list_id position Hid Hother)
                   as [-> _].
                 now apply (cards_owned d Hkeys).
        -- apply moved_cards_dense; auto.
           ++ rewrite moved_ids; auto. intros c. apply moveAcrossGroup_id.
           ++ apply across_keeps_slots; auto.
      * rewrite (move_to_missing_list_run d cur list_id position Hnd Hcur Hown Hl).
        auto.
Qed.

Lemma select_list_head (d : db) (listId : Z) (cur : list_row) (rest : list list_row) :
  select_list listId d = cur :: rest -> In cur (lists d) /\ l_id cur = listId.
Proof.
  intros H. assert (Hin : In cur (select_list listId d)) by (rewrite H; simpl; auto).
  unfold select_list in Hin. apply filter_In in Hin as [Hin Hid].
  apply Z.eqb_eq in Hid. auto.
Qed.

Lemma has_list_same_ids (d d' : db) :
  map l_id (lists d') = map l_id (lists d) ->
  forall id, has_list d' id = has_list d id.
Proof.
  intros Hids id. apply eq_true_iff_eq. rewrite !has_list_in. now rewrite Hids.
Qed.

Lemma reorder_list_keeps (d : db) (listId position : Z) :
  keys_ok d -> all_dense d ->
  keys_ok (snd (run (reorder_list reliable listId position) d)) /\
  all_dense (snd (run (reorder_list reliable listId position) d)).
Proof.
  intros Hkeys Hdense.
  destruct (select_list listId d) as [|cur rest] eqn:Hsel.
  - assert (Hrun : run (reorder_list reliable listId position) d =
                   (Reply 404 (Error (Text "List not found")), d)).
    { unfold run, reorder_list. step_monad. now rewrite Hsel. }
    rewrite Hrun. auto.
  - apply select_list_head in Hsel as [Hcur <-].
    pose proof (list_ids_unique d Hkeys) as Hnd.
    rewrite (reorder_run d cur position Hnd Hcur). simpl.
    set (R := renumber (resequenced cur position d)).
    assert (Hids : map l_id (map R (lists d)) = map l_id (lists d)).
    { rewrite map_map. apply map_ext. intros l. apply renumber_board. }
    split.
    + destruct Hkeys as [Hc Hl Hci Hli Hown]. constructor; simpl; auto.
      * now rewrite Hids.
      * intros l Hin. apply in_map_iff in Hin as (l0 & <- & Hin).
        destruct (renumber_board (resequenced cur position d) l0) as [_ Hid].
        unfold R. rewrite Hid. auto.
      * intros c Hc0.
        rewrite (has_list_same_ids d (set_lists d (map R (lists d)))); auto.
    + destruct Hdense as [Hlists Hcards]. split; [|exact Hcards].
      intros k. destruct (Z.eq_dec k (l_board_id cur)) as [->|Hk].
      * now apply reorder_dense_board.
      * unfold R. rewrite reorder_other_boards; auto.
Qed.

Lemma NoDup_snoc (ids : list Z) (id : Z) :
  NoDup ids -> (forall x, In x ids -> x < id) -> NoDup (ids ++ [id]).
Proof.
  intros Hnd Hlt. apply NoDup_app; [exact Hnd|concrete_nodup|].
  intros x Hx [<-|[]]. specialize (Hlt _ Hx). lia.
Qed.

Lemma create_list_keeps (d : db) (board_id : Z) (title : string) :
  keys_ok d -> all_dense d ->
  keys_ok (snd (run (create_list reliable board_id title) d)) /\
  all_dense (snd (run (create_list reliable board_id title) d)).
Proof.
  intros Hkeys Hdense. destruct (has_board d board_id) eqn:Hb.
  - rewrite (create_list_run d board_id title Hb). simpl.
    destruct Hkeys as [Hc Hl Hci Hli Hown]. destruct Hdense as [Hlists Hcards].
    split.
    + constructor; simpl; auto.
      * rewrite map_app. simpl. apply NoDup_snoc; auto.
        intros x Hx. apply in_map_iff in Hx as (l & <- & Hl0). auto.
      * intros l Hin. apply in_app_or in Hin as [Hin|[<-|[]]]; simpl.
        -- specialize (Hli l Hin). lia.
        -- lia.
      * intros c Hc0. specialize (Hown c Hc0). unfold has_list in *. simpl.
        rewrite existsb_app. now rewrite Hown.
    + split; [|exact Hcards].
      intros k. unfold list_positions, positions, group. simpl.
      rewrite filter_app, map_app. simpl.
      destruct (Z.eqb_spec board_id k) as [->|Hk]; simpl.
      * apply (dense_append _ (Hlists k)).
      * rewrite app_nil_r. apply Hlists.
  - assert (Hrun : run (create_list reliable board_id title) d =
                   (status500 ForeignKeyViolation, d)).
    { unfold run, create_list, insert_list. step_monad. now rewrite Hb. }
    rewrite Hrun. auto.
Qed.

(** POST /api/cards on a store that does not fail either leaves the store
    as it was and answers with an error, or adds the row it answers with,
    the priority as the column holds it. *)
Lemma create_card_cases (d : db) (list_id : Z) (title : string)
      (description : option string) (due_date : js_value) (priority : option string) :
  (snd (run (create_card reliable list_id title description due_date priority) d) = d /\
   is_error (fst (run (create_card reliable list_id title description due_date
                                   priority) d)) = true) \/
  exists formattedDate held,
    has_list d list_id = true /\
    format_due_date due_date = Formatted formattedDate /\
    priority_column (or_default priority "medium") = Some held /\
    date_column formattedDate = true /\
    run (create_card reliable list_id title description due_date priority) d =
    (json (CreatedCard (mkCard (next_card_id d) list_id title (or_default description "")
                               (append_position (card_positions list_id d))
                               (or_default priority "medium") formattedDate)),
     mkDb (boards d) (lists d)
          (cards d ++ [mkCard (next_card_id d) list_id title (or_default description "")
                              (append_position (card_positions list_id d))
                              held formattedDate])
          (next_board_id d) (next_list_id d) (next_card_id d + 1)).
Proof.
  destruct (format_due_date due_date) as [formattedDate| |] eqn:Hdate.
  - destruct (priority_column (or_default priority "medium")) as [held|] eqn:Hp.
    + destruct (date_column formattedDate) eqn:Hd.
      * destruct (has_list d list_id) eqn:Hl.
        -- right. exists formattedDate, held. repeat split; auto.
           now apply create_card_held.
        -- left. unfold run, create_card, insert_card. step_monad.
           rewrite Hdate. step_monad. rewrite Hp, Hd, Hl. simpl. now destruct d.
      * left.
        rewrite (proj2 (create_card_refused d list_id title description due_date
                          priority formattedDate Hdate)); [auto| |exact Hd].
        rewrite Hp. discriminate.
    + left.
      rewrite (proj1 (create_card_refused d list_id title description due_date
                        priority formattedDate Hdate) Hp). auto.
  - left. rewrite (create_card_rejects d list_id title description due_date priority
                                       Hdate). auto.
  - left. rewrite (create_card_throws d list_id title description due_date priority
                                      Hdate). auto.
Qed.

Lemma create_card_keeps (d : db) (list_id : Z) (title : string)
      (description : option string) (due_date : js_value) (priority : option string) :
  keys_ok d -> all_dense d ->
  keys_ok (snd (run (create_card reliable list_id title description due_date priority) d))
  /\
  all_dense (snd (run (create_card reliable list_id title description due_date priority) d)).
Proof.
  intros Hkeys Hdense.
  destruct (create_card_cases d list_id title description due_date priority)
    as [[-> _]|(formattedDate & held & Hl & Hdate & Hp & Hd & ->)]; [auto|].
  - simpl.
    destruct Hkeys as [Hc Hls Hci Hli Hown]. destruct Hdense as [Hlists Hcards].
    split.
    + constructor; simpl; auto.
      * rewrite map_app. simpl. apply NoDup_snoc; auto.
        intros x Hx. apply in_map_iff in Hx as (c & <- & Hc0). auto.
      * intros c Hin. apply in_app_or in Hin as [Hin|[<-|[]]]; simpl.
        -- specialize (Hci c Hin). lia.
        -- lia.
      * intros c Hin. apply in_app_or in Hin as [Hin|[<-|[]]]; simpl.
        -- apply (Hown c Hin).
        -- exact Hl.
    + split; [exact Hlists|].
      intros k. unfold card_positions, positions, group. simpl.
      rewrite filter_app, map_app. simpl.
      destruct (Z.eqb_spec list_id k) as [->|Hk]; simpl.
      * apply (dense_append _ (Hcards k)).
      * rewrite app_nil_r. apply Hcards.
Qed.

Lemma update_card_keeps (d : db) (cardId : Z) (updates : card_updates) :
  keys_ok d -> all_dense d ->
  keys_ok (snd (run (update_card reliable cardId updates) d)) /\
  all_dense (snd (run (update_card reliable cardId updates) d)).
Proof.
  intros Hkeys Hdense.
  assert (Hfields : forall title description priority due_date,
             keys_ok (set_card_fields title description priority due_date cardId d)
             /\
             all_dense (set_card_fields title description priority due_date
                                           cardId d)).
  { intros title description priority due_date. unfold set_card_fields.
    set (F := fun c => if c_id c =? cardId
                       then mkCard (c_id c) (c_list_id c) title description
                                   (c_position c) priority due_date
                       else c).
    assert (HF : forall c, c_id (F c) = c_id c /\ c_list_id (F c) = c_list_id c /\
                           c_position (F c) = c_position c).
    { intros c. unfold F. destruct (c_id c =? cardId); simpl; auto. }
    split.
    - apply moved_cards_keys; auto.
      + intros c. apply HF.
      + intros c Hc. destruct (HF c) as (_ & -> & _).
        now apply (cards_owned d Hkeys).
    - destruct Hdense as [Hlists Hcards]. split; [exact Hlists|].
      intros k. unfold card_positions, positions, group. simpl.
      rewrite filter_map_swap, map_map.
      replace (filter (fun x => c_list_id (F x) =? k) (cards d))
        with (filter (fun x => c_list_id x =? k) (cards d)).
      + rewrite (map_ext (fun x => c_position (F x)) c_position).
        * apply Hcards.
        * intros c. apply HF.
      + apply filter_ext. intros c. destruct (HF c) as (_ & -> & _). reflexivity. }
  unfold run, update_card, update_card_fields. step_monad.
  destruct (select_card cardId d) as [|cur rest]; simpl; auto.
  match goal with |- context [format_due_date ?v] => destruct (format_due_date v) end;
    simpl; auto.
  split_cases; auto.
Qed.

Lemma handle_all_or_nothing (faults : nat -> bool) (r : request) (d : db) :
  all_or_nothing faults (fun f => handle f r) d.
Proof.
  destruct r; simpl.
  - apply create_list_all_or_nothing.
  - apply create_card_all_or_nothing.
  - apply update_card_all_or_nothing.
  - apply move_card_all_or_nothing.
  - apply reorder_list_all_or_nothing.
  - apply delete_card_all_or_nothing.
  - apply delete_list_all_or_nothing.
Qed.

Lemma gap_free_step (d : db) (r : request) :
  keys_ok d -> all_dense d -> gap_free_request d r ->
  keys_ok (snd (run (handle reliable r) d)) /\
  all_dense (snd (run (handle reliable r) d)).
Proof.
  intros Hkeys Hdense Hr. destruct r; simpl in *.
  - now apply create_list_keeps.
  - now apply create_card_keeps.
  - now apply update_card_keeps.
  - now apply move_card_keeps.
  - now apply reorder_list_keeps.
  - contradiction.
  - contradiction.
Qed.

Ltac concrete_dense :=
  apply dense_iff; split; [concrete_nodup|simpl; intros ? ?; intuition lia].

Lemma small_board_ok : keys_ok small_board /\ all_dense small_board.
Proof.
  split; [constructor|split].
  - concrete_nodup.
  - concrete_nodup.
  - simpl. intros c H. intuition (subst; simpl; lia).
  - simpl. intros l H. intuition (subst; simpl; lia).
  - simpl. intros c H. intuition (subst; reflexivity).
  - intros k. destruct (Z.eq_dec k 1) as [->|H1]; [concrete_dense|].
    assert (E1 : (1 =? k) = false) by (apply Z.eqb_neq; lia).
    unfold list_positions, positions, group. cbn -[Z.eqb].
    rewrite E1. apply dense_nil.
  - intros k. destruct (Z.eq_dec k 1) as [->|H1]; [concrete_dense|].
    destruct (Z.eq_dec k 2) as [->|H2]; [concrete_dense|].
    assert (E1 : (1 =? k) = false) by (apply Z.eqb_neq; lia).
    assert (E2 : (2 =? k) = false) by (apply Z.eqb_neq; lia).
    unfold card_positions, positions, group. cbn -[Z.eqb].
    rewrite E1, E2. apply dense_nil.
Qed.

(** C1, as stated, fails.  On the small board, whose groups are all densely
    numbered: moving card A inside its list of three cards to position 7
    leaves the positions 7, 0, 1; deleting card A leaves the positions
    1, 2.  So density is not kept by every sequence of requests. *)
Lemma density_lost_counterexample :
  card_positions 1 (snd (run (handle reliable (MoveCard 1 1 7)) small_board))
    = [7; 0; 1] /\
  card_positions 1 (snd (run (handle reliable (DeleteCard 1)) small_board))
    = [1; 2] /\
  ~ (forall d rs d',
        keys_ok d -> all_dense d -> serves_any d rs d' -> all_dense d').
Proof.
  split; [reflexivity|]. split; [reflexivity|].
  intros Hclaim.
  destruct small_board_ok as [Hkeys Hdense].
  assert (Hrun : serves_any small_board [MoveCard 1 1 7]
                   (snd (run (handle reliable (MoveCard 1 1 7)) small_board))).
  { apply serves_any_cons with (faults := reliable). apply serves_any_nil. }
  destruct (Hclaim _ _ _ Hkeys Hdense Hrun) as [_ Hcards].
  specialize (Hcards 1). apply dense_iff in Hcards as [_ Hb].
  specialize (Hb 7). simpl in Hb. lia.
Qed.

(** C1, amended.  Starting from a store whose keys are in order and whose
    groups are all densely numbered, after any sequence of requests served
    one after the other under any schedule of store failures - appends of
    lists and cards, card updates, list reorders with any integer target,
    and card moves whose target is a slot of the target list (0 .. m-1
    inside a list of m cards, 0 .. n into another list of n cards) - the
    positions of the lists of every board and of the cards of every list
    are again 0 .. n-1 without gap or duplicate.  The store seeded at start
    up is such a store.  Deletions are left out. *)
Theorem gap_free_requests_keep_density (d : db) (rs : list request) (d' : db) :
  keys_ok d -> all_dense d -> serves d rs d' ->
  keys_ok d' /\
  (forall board_id, dense (list_positions board_id d')) /\
  (forall list_id, dense (card_positions list_id d')).
Proof.
  intros Hkeys Hdense Hserves. revert Hkeys Hdense.
  induction Hserves as [d|d faults r rs d' Hr Hrest IH]; intros Hkeys Hdense.
  - split; [exact Hkeys|exact Hdense].
  - apply IH.
    + destruct (handle_all_or_nothing faults r d) as [[_ ->]|(_ & -> & _)];
        [exact Hkeys|]. now apply gap_free_step.
    + destruct (handle_all_or_nothing faults r d) as [[_ ->]|(_ & -> & _)];
        [exact Hdense|]. now apply gap_free_step.
Qed.

(** A card goes to the front of its list, another one to the next list, a
    list goes to the far end and a card is appended, the second statement
    of the last request failing. *)
Lemma gap_free_requests_keep_density_witness :
  exists d',
    serves small_board
           [MoveCard 3 1 0; MoveCard 1 2 1; ReorderList 1 77;
            PostCard 3 "N" None JNull None] d' /\
    (forall board_id, dense (list_positions board_id d')) /\
    (forall list_id, dense (card_positions list_id d')).
Proof.
  assert (Hs : exists d',
             serves small_board
                    [MoveCard 3 1 0; MoveCard 1 2 1; ReorderList 1 77;
                     PostCard 3 "N" None JNull None] d').
  { eexists.
    apply serves_cons with (faults := reliable);
      [simpl; unfold target_in_range, size, group; simpl; lia|].
    apply serves_cons with (faults := reliable);
      [simpl; unfold target_in_range, size, group; simpl; lia|].
    apply serves_cons with (faults := reliable); [exact I|].
    apply serves_cons with (faults := fun k => Nat.eqb k 1); [exact I|].
    apply serves_nil. }
  destruct Hs as [d' Hs]. exists d'. split; [exact Hs|].
  apply (gap_free_requests_keep_density small_board _ d'
           (proj1 small_board_ok) (proj2 small_board_ok) Hs).
Defined.

(** The store seeded by [createDefaultData] has its keys in order and all
    its groups densely numbered. *)
Lemma default_data_ok :
  keys_ok (snd (run (createDefaultData reliable) empty_db)) /\
  all_dense (snd (run (createDefaultData reliable) empty_db)).
Proof.
  assert (Hseed : snd (run (createDefaultData reliable) empty_db) =
                  mkDb [mkBoard 1 "KanBan Board" "Welcome to your Kanban board!"]
                       [mkList 1 1 "To Do" 0; mkList 2 1 "In Progress" 1;
                        mkList 3 1 "Done" 2]
                       [] 2 4 1) by reflexivity.
  rewrite Hseed. clear Hseed.
  split; [constructor|split].
  - concrete_nodup.
  - concrete_nodup.
  - simpl. intros c [].
  - simpl. intros l H. intuition (subst; simpl; lia).
  - simpl. intros c [].
  - intros k. destruct (Z.eq_dec k 1) as [->|H1]; [concrete_dense|].
    assert (E1 : (1 =? k) = false) by (apply Z.eqb_neq; lia).
    unfold list_positions, positions, group. cbn -[Z.eqb].
    rewrite E1. apply dense_nil.
  - intros k. apply dense_nil.
Qed.

(** * Further properties of the handlers *)

(** ** Requests that fail *)

(** X1. Under any schedule of store failures and for every kind of request
    (append, update, move, reorder, delete), an error answer means that the
    rows of the three tables are exactly what they were before the request. *)
Theorem failed_request_leaves_tables (faults : nat -> bool) (r : request) (d : db) :
  is_error (fst (run (handle faults r) d)) = true ->
  tables (snd (run (handle faults r) d)) = tables d.
Proof.
  intros He.
  destruct (handle_all_or_nothing faults r d) as [[_ ->]|(Hok & _)];
    [reflexivity|congruence].
Qed.

Lemma failed_request_leaves_tables_witness :
  tables (snd (run (handle (fun k => Nat.eqb k 1)
                           (PostCard 2 "N" None JNull None)) small_board)) =
  tables small_board.
Proof.
  apply (failed_request_leaves_tables (fun k => Nat.eqb k 1)
           (PostCard 2 "N" None JNull None) small_board).
  reflexivity.
Defined.

(** ** Deleting *)

Lemma filter_all {A : Type} (P : A -> bool) (l : list A) :
  (forall x, In x l -> P x = true) -> filter P l = l.
Proof.
  induction l as [|a l IH]; simpl; intros H; [reflexivity|].
  rewrite (H a) by auto. f_equal. apply IH. auto.
Qed.

Lemma delete_card_run (d : db) (cardId : Z) :
  run (delete_card reliable cardId) d = (json Success, delete_card_row cardId d).
Proof. reflexivity. Qed.

Lemma delete_list_run (d : db) (listId : Z) :
  run (delete_list reliable listId) d = (json Success, delete_list_row listId d).
Proof. reflexivity. Qed.

Lemma has_list_false (d : db) (id : Z) :
  has_list d id = false <-> forall l, In l (lists d) -> l_id l <> id.
Proof.
  split.
  - intros H l Hl Hid.
    assert (has_list d id = true) by (apply has_list_in; rewrite <- Hid; now apply in_map).
    congruence.
  - intros H. destruct (has_list d id) eqn:E; [|reflexivity].
    apply has_list_in in E. apply in_map_iff in E as (l & Hid & Hl).
    now elim (H l Hl).
Qed.

(** X2. On a store that does not fail, a DELETE of a card or of a list
    whose id is in no row is answered with success, not with 404, and
    leaves the store as it was. *)
Theorem delete_unknown_is_success (d : db) (id : Z) :
  ((forall c, In c (cards d) -> c_id c <> id) ->
   run (delete_card reliable id) d = (json Success, d)) /\
  ((forall l, In l (lists d) -> l_id l <> id) ->
   run (delete_list reliable id) d = (json Success, d)).
Proof.
  split; intros Hnone.
  - rewrite delete_card_run. f_equal. unfold delete_card_row.
    rewrite filter_all; [apply set_cards_same|].
    intros c Hc. apply negb_true_iff, Z.eqb_neq. auto.
  - rewrite delete_list_run. f_equal. unfold delete_list_row.
    rewrite (proj2 (has_list_false d id) Hnone).
    rewrite filter_all; [now destruct d|].
    intros l Hl. apply negb_true_iff, Z.eqb_neq. auto.
Qed.

Lemma delete_unknown_is_success_witness :
  run (delete_card reliable 9) small_board = (json Success, small_board) /\
  run (delete_list reliable 9) small_board = (json Success, small_board).
Proof.
  split.
  - apply (proj1 (delete_unknown_is_success small_board 9)).
    simpl. intros c H. intuition (subst; discriminate).
  - apply (proj2 (delete_unknown_is_success small_board 9)).
    simpl. intros l H. intuition (subst; discriminate).
Defined.

Lemma delete_card_keys (d : db) (cardId : Z) :
  keys_ok d -> keys_ok (delete_card_row cardId d).
Proof.
  intros [Hc Hl Hci Hli Hown]. constructor; simpl; auto.
  - now apply NoDup_map_filter.
  - intros c Hin. apply filter_In in Hin as [Hin _]. auto.
  - intros c Hin. apply filter_In in Hin as [Hin _]. apply (Hown c Hin).
Qed.

Lemma delete_list_keys (d : db) (listId : Z) :
  keys_ok d -> keys_ok (delete_list_row listId d).
Proof.
  intros [Hc Hl Hci Hli Hown]. destruct (has_list d listId) eqn:Hhas.
  - unfold delete_list_row. rewrite Hhas. constructor; simpl.
    + now apply NoDup_map_filter.
    + now apply NoDup_map_filter.
    + intros c Hin. apply filter_In in Hin as [Hin _]. auto.
    + intros l Hin. apply filter_In in Hin as [Hin _]. auto.
    + intros c Hin. apply filter_In in Hin as [Hin Hne].
      apply negb_true_iff, Z.eqb_neq in Hne.
      specialize (Hown c Hin). apply has_list_in in Hown.
      apply in_map_iff in Hown as (l & Hid & Hl0).
      unfold has_list. simpl. apply existsb_exists. exists l. split.
      * apply filter_In. split; [exact Hl0|].
        apply negb_true_iff, Z.eqb_neq. congruence.
      * now apply Z.eqb_eq.
  - assert (Hsame : delete_list_row listId d = d).
    { unfold delete_list_row. rewrite Hhas.
      rewrite filter_all; [now destruct d|].
      intros l Hl0. apply negb_true_iff, Z.eqb_neq.
      now apply (proj1 (has_list_false d listId) Hhas). }
    rewrite Hsame. now constructor.
Qed.

(** X3. DELETE /api/lists/:id of an existing list, on a store that does not
    fail and whose keys are in order, removes the list and, by the cascade
    of the schema, all its cards: afterwards no list has that id, no card
    names it, the cards of every other list are untouched, the other lists
    are untouched, and the keys are still in order. *)
Theorem delete_list_cascades (d : db) (cur : list_row) :
  keys_ok d ->
  In cur (lists d) ->
  let d' := snd (run (delete_list reliable (l_id cur)) d) in
  fst (run (delete_list reliable (l_id cur)) d) = json Success /\
  has_list d' (l_id cur) = false /\
  cards_of (l_id cur) d' = [] /\
  (forall k, k <> l_id cur -> cards_of k d' = cards_of k d) /\
  (forall l, In l (lists d') <-> In l (lists d) /\ l <> cur) /\
  keys_ok d'.
Proof.
  intros Hkeys Hcur. cbv zeta. rewrite delete_list_run. simpl.
  assert (Hhas : has_list d (l_id cur) = true)
    by (apply has_list_in; now apply in_map).
  split; [reflexivity|]. split; [|split; [|split; [|split]]].
  - apply has_list_false. unfold delete_list_row. simpl.
    intros l Hl. apply filter_In in Hl as [_ Hne].
    now apply negb_true_iff, Z.eqb_neq in Hne.
  - unfold cards_of, group, delete_list_row. simpl. rewrite Hhas.
    destruct (filter _ (filter _ (cards d))) as [|c rest] eqn:E; [reflexivity|].
    assert (Hin : In c (c :: rest)) by (simpl; auto). rewrite <- E in Hin.
    apply filter_In in Hin as [Hin Hk]. apply filter_In in Hin as [_ Hne].
    apply Z.eqb_eq in Hk. apply negb_true_iff, Z.eqb_neq in Hne. contradiction.
  - intros k Hk. unfold cards_of, group, delete_list_row. simpl. rewrite Hhas.
    induction (cards d) as [|c cs IH]; simpl; [reflexivity|].
    destruct (Z.eqb_spec (c_list_id c) (l_id cur)) as [E|E]; simpl.
    + destruct (Z.eqb_spec (c_list_id c) k); [congruence|exact IH].
    + destruct (c_list_id c =? k); [f_equal|]; exact IH.
  - intros l. unfold delete_list_row. simpl. rewrite filter_In.
    rewrite negb_true_iff, Z.eqb_neq. split; intros [Hl Hne]; split; auto.
    + intros ->. now apply Hne.
    + intros Hid. apply Hne.
      eapply NoDup_map_eq; eauto using list_ids_unique.
  - now apply delete_list_keys.
Qed.

Lemma delete_list_cascades_witness :
  cards_of 1 (snd (run (delete_list reliable 1) small_board)) = [] /\
  cards_of 2 (snd (run (delete_list reliable 1) small_board)) = cards_of 2 small_board.
Proof.
  destruct (delete_list_cascades small_board (mkList 1 1 "To Do" 0)
              (proj1 small_board_ok)) as (_ & _ & Hgone & Hkept & _).
  - simpl. auto.
  - split; [exact Hgone|apply Hkept; discriminate].
Defined.

Lemma filter_swap {A : Type} (P Q : A -> bool) (l : list A) :
  filter P (filter Q l) = filter Q (filter P l).
Proof.
  induction l as [|a l IH]; simpl; [reflexivity|].
  destruct (P a) eqn:HP, (Q a) eqn:HQ; simpl; rewrite ?HP, ?HQ, IH; reflexivity.
Qed.

Lemma filter_true {A : Type} (l : list A) : filter (fun _ => true) l = l.
Proof. induction l; simpl; congruence. Qed.

(** X4. DELETE /api/cards/:id of a card of a densely numbered list, on a
    store that does not fail, removes that row and no other; the list is
    densely numbered afterwards exactly when the deleted card was the last
    one of its list. *)
Theorem delete_card_dense_iff_last (d : db) (cur : card_row) :
  NoDup (map c_id (cards d)) ->
  In cur (cards d) ->
  dense (card_positions (c_list_id cur) d) ->
  let d' := snd (run (delete_card reliable (c_id cur)) d) in
  (forall c, In c (cards d') <-> In c (cards d) /\ c <> cur) /\
  (dense (card_positions (c_list_id cur) d') <->
   c_position cur = Z.of_nat (List.length (cards_of (c_list_id cur) d)) - 1).
Proof.
  intros Hnd Hcur Hdense. cbv zeta. rewrite delete_card_run. simpl.
  set (L := c_list_id cur).
  set (notcur := fun c => negb (c_id c =? c_id cur)).
  assert (Hnot : forall c, In c (cards d) -> (notcur c = true <-> c <> cur)).
  { intros c Hc. unfold notcur. rewrite negb_true_iff, Z.eqb_neq. split.
    - intros Hid ->. now apply Hid.
    - intros Hne Hid. apply Hne. eapply same_card; eauto. }
  assert (Hrows : forall c, In c (filter notcur (cards d)) <->
                            In c (cards d) /\ c <> cur).
  { intros c. rewrite filter_In. split; intros [Hc H]; split; auto;
      now apply (Hnot c Hc). }
  split; [exact Hrows|].
  unfold card_positions, positions, cards_of, group. simpl. fold notcur.
  rewrite filter_swap.
  set (A := filter (fun r => c_list_id r =? L) (cards d)).
  assert (HA : forall c, In c A <-> In c (cards d) /\ c_list_id c = L)
    by (intros c; apply in_group).
  assert (HcurA : In cur A) by (apply HA; auto).
  pose proof (proj1 (dense_iff _) Hdense) as [HndA HbA].
  unfold card_positions, positions in HndA, HbA. fold L in HndA, HbA.
  change (group card_row c_list_id L (cards d)) with A in HndA, HbA.
  rewrite length_map in HbA.
  assert (HrowsA : NoDup A).
  { unfold A. apply NoDup_filter. eapply NoDup_of_map; eauto. }
  assert (Hlen : List.length A = S (List.length (filter notcur A))).
  { rewrite <- (filter_true A) at 1.
    apply (filter_length_one_more (fun _ => true) notcur cur); auto.
    - unfold notcur. now rewrite Z.eqb_refl.
    - intros x Hx Hne. symmetry. apply HA in Hx as [Hx _]. now apply Hnot. }
  assert (Hpos : forall c, In c (filter notcur A) ->
                           In c A /\ c_position c <> c_position cur).
  { intros c Hc. apply filter_In in Hc as [Hc Hn]. split; [exact Hc|].
    intros Hp. assert (c = cur) by (eapply NoDup_map_eq; eauto). subst c.
    unfold notcur in Hn. rewrite Z.eqb_refl in Hn. discriminate. }
  rewrite dense_iff, length_map. split.
  - intros [_ Hb].
    destruct (Z.eq_dec (c_position cur) (Z.of_nat (List.length A) - 1))
      as [|Hne]; [assumption|exfalso].
    assert (Hlast : In (Z.of_nat (List.length A) - 1) (map c_position A)).
    { eapply Permutation_in; [symmetry; exact Hdense|].
      unfold card_positions, positions. fold L.
      change (group card_row c_list_id L (cards d)) with A.
      apply in_range_list. rewrite length_map. lia. }
    apply in_map_iff in Hlast as (c & Hp & Hc).
    assert (Hin : In (c_position c) (map c_position (filter notcur A))).
    { apply in_map. apply filter_In. split; [exact Hc|].
      apply HA in Hc as [Hc _]. apply (Hnot c Hc). intros ->. lia. }
    specialize (Hb _ Hin). lia.
  - intros Hp. split.
    + now apply NoDup_map_filter.
    + intros x Hx. apply in_map_iff in Hx as (c & <- & Hc).
      destruct (Hpos c Hc) as [HcA Hne].
      specialize (HbA _ (in_map c_position A c HcA)). lia.
Qed.

(** On the small board: deleting C, the last card of list 1, keeps the list
    dense. *)
Lemma delete_card_dense_iff_last_witness :
  dense (card_positions 1 (snd (run (delete_card reliable 3) small_board))).
Proof.
  destruct (delete_card_dense_iff_last small_board (plain_card 3 1 2 "C"))
    as [_ H].
  - concrete_nodup.
  - simpl. auto.
  - apply (proj2 small_board_ok).
  - apply H. reflexivity.
Defined.

(** ** Updating a card *)

Lemma set_card_fields_places (title description priority : string)
      (due_date : option string) (cardId : Z) (d : db) :
  map place (cards (set_card_fields title description priority due_date cardId d))
  = map place (cards d) /\
  forall c, c_id c <> cardId ->
            (In c (cards (set_card_fields title description priority due_date
                                             cardId d))
             <-> In c (cards d)).
Proof.
  unfold set_card_fields. simpl. split.
  - rewrite map_map. apply map_ext. intros c.
    destruct (c_id c =? cardId); reflexivity.
  - intros c Hid. rewrite in_map_iff. split.
    + intros (c0 & Heq & Hin).
      destruct (Z.eqb_spec (c_id c0) cardId) as [E|E]; subst c; simpl in *;
        [contradiction|exact Hin].
    + intros Hin. exists c. split; [|exact Hin].
      destruct (Z.eqb_spec (c_id c) cardId); [contradiction|reflexivity].
Qed.

Lemma update_card_store (faults : nat -> bool) (cardId : Z) (updates : card_updates)
      (d : db) :
  snd (run (update_card faults cardId updates) d) = d \/
  exists title description priority due_date,
    snd (run (update_card faults cardId updates) d) =
    set_card_fields title description priority due_date cardId d.
Proof.
  unfold run, update_card, update_card_fields. step_monad.
  split_cases; auto; right; do 4 eexists; reflexivity.
Qed.

(** X5. PUT /api/cards/:id, under any schedule of store failures and
    whatever the request holds, never moves a card: the id, list and
    position of every row of the cards table are what they were, in the
    same order, the lists table is untouched, and the rows with another id
    are unchanged. *)
Theorem update_card_keeps_places (faults : nat -> bool) (cardId : Z)
        (updates : card_updates) (d : db) :
  let d' := snd (run (update_card faults cardId updates) d) in
  map place (cards d') = map place (cards d) /\
  lists d' = lists d /\
  (forall c, c_id c <> cardId -> (In c (cards d') <-> In c (cards d))).
Proof.
  cbv zeta.
  destruct (update_card_store faults cardId updates d)
    as [->|(title & description & priority & due_date & ->)].
  - repeat split; auto.
  - destruct (set_card_fields_places title description priority due_date cardId d)
      as [Hp Hother].
    repeat split; auto; apply Hother; auto.
Qed.

(** X6. On a store that does not fail, PUT /api/cards/:id for an id that
    is in no row is answered 404 "Card not found" and leaves the store as it
    was, whatever the request holds: the due date is not even looked at. *)
Theorem update_unknown_card_is_404 (d : db) (cardId : Z) (updates : card_updates) :
  (forall c, In c (cards d) -> c_id c <> cardId) ->
  run (update_card reliable cardId updates) d =
  (Reply 404 (Error (Text "Card not found")), d).
Proof.
  intros Hnone.
  assert (Hsel : select_card cardId d = []).
  { destruct (select_card cardId d) as [|cur rest] eqn:E; [reflexivity|].
    apply select_card_head in E as [Hin Hid]. now elim (Hnone cur Hin). }
  unfold run, update_card. step_monad. now rewrite Hsel.
Qed.

Lemma update_unknown_card_is_404_witness :
  run (update_card reliable 9 (mkUpdates None None None (JString "not a date")))
      small_board =
  (Reply 404 (Error (Text "Card not found")), small_board).
Proof.
  apply (update_unknown_card_is_404 small_board 9).
  simpl. intros c H. intuition (subst; discriminate).
Defined.

(** X7. On a store that does not fail and with card ids unique,
    PUT /api/cards/:id with no due_date in the request takes the due date
    of the stored row, which the driver hands over as a Date object when it
    is set: calling [trim] on it throws before anything is written or
    answered.  When the stored row has no due date and the priority is
    one the column holds, the request goes through and answers a null due
    date. *)
Theorem update_without_due_date (d : db) (cur : card_row) (updates : card_updates) :
  NoDup (map c_id (cards d)) ->
  In cur (cards d) ->
  u_due_date updates = JUndefined ->
  (forall date, c_due_date cur = Some date ->
                run (update_card reliable (c_id cur) updates) d =
                (Uncaught "TypeError", d)) /\
  (c_due_date cur = None ->
   priority_column
     (or_default (Some (match u_priority updates with
                        | Some t => t
                        | None => c_priority cur
                        end)) "medium") <> None ->
   fst (run (update_card reliable (c_id cur) updates) d) = json (SuccessDate None)).
Proof.
  intros Hnd Hcur Hdue. split.
  - intros date Hdate. unfold run, update_card. step_monad.
    rewrite (select_card_unique d cur Hnd Hcur), Hdue, Hdate. reflexivity.
  - intros Hdate Hp. rewrite (update_card_run d cur updates Hnd Hcur), Hdue, Hdate.
    change (format_due_date (stored_date None)) with (Formatted None).
    destruct (priority_column _); [reflexivity|congruence].
Qed.

(** A card is given a due date, then only its title is sent. *)
Lemma update_without_due_date_witness :
  run (update_card reliable 1 (mkUpdates (Some "A2"%string) None None JUndefined))
      (snd (run (update_card reliable 1
                             (mkUpdates None None None (JString "2024-03-15")))
                small_board)) =
  (Uncaught "TypeError",
   snd (run (update_card reliable 1
                         (mkUpdates None None None (JString "2024-03-15")))
            small_board)).
Proof.
  destruct (update_without_due_date
              (snd (run (update_card reliable 1
                                     (mkUpdates None None None
                                                (JString "2024-03-15")))
                        small_board))
              (mkCard 1 1 "A" "" 0 "medium" (Some "2024-03-15"%string))
              (mkUpdates (Some "A2"%string) None None JUndefined))
    as [H _].
  - concrete_nodup.
  - simpl. auto.
  - reflexivity.
  - apply (H "2024-03-15"%string). reflexivity.
Defined.

(** ** Appending to a group that does not exist *)

(** X8. POST /api/cards for a list that does not exist, on a store that
    does not fail: a due date that fails the pattern is answered 400 before
    any row is written; a due date that passes the handler is answered 500,
    with the message of the foreign key when the columns take the priority
    and the date.  POST /api/lists for a board that does not exist is
    answered 500 likewise.  In every case the rows of the tables are what
    they were. *)
Theorem append_to_missing_owner (d : db) (k : Z) (title : string) :
  (has_list d k = false ->
   forall description due_date priority,
     tables (snd (run (create_card reliable k title description due_date priority) d))
     = tables d /\
     (format_due_date due_date = InvalidDate ->
      fst (run (create_card reliable k title description due_date priority) d) =
      Reply 400 (Error (Text "Invalid date format"))) /\
     (forall formattedDate,
         format_due_date due_date = Formatted formattedDate ->
         (exists e,
             fst (run (create_card reliable k title description due_date priority) d) =
             Reply 500 (Error (ErrMessage e))) /\
         (priority_column (or_default priority "medium") <> None ->
          date_column formattedDate = true ->
          fst (run (create_card reliable k title description due_date priority) d) =
          Reply 500 (Error (ErrMessage ForeignKeyViolation))))) /\
  (has_board d k = false ->
   fst (run (create_list reliable k title) d) =
   Reply 500 (Error (ErrMessage ForeignKeyViolation)) /\
   tables (snd (run (create_list reliable k title) d)) = tables d).
Proof.
  split.
  - intros Hl description due_date priority.
    unfold run, create_card, insert_card. step_monad.
    destruct (format_due_date due_date) as [formattedDate| |]; step_monad;
      rewrite ?Hl.
    + destruct (priority_column (or_default priority "medium")) as [held|] eqn:Hp0;
        [destruct (date_column formattedDate) eqn:Hd0|]; simpl;
        (split; [reflexivity|split; [discriminate|]]);
        intros fd [= <-]; (split; [eexists; reflexivity|]);
        intros Hp Hd; first [reflexivity|congruence].
    + repeat split; intros; try discriminate; reflexivity.
    + repeat split; intros; try discriminate; reflexivity.
  - intros Hb. unfold run, create_list, insert_list. step_monad. rewrite Hb.
    split; reflexivity.
Qed.

Lemma append_to_missing_owner_witness :
  fst (run (create_card reliable 9 "N" None (JString "2024-03-15") None) small_board)
  = Reply 500 (Error (ErrMessage ForeignKeyViolation)).
Proof.
  destruct (proj1 (append_to_missing_owner small_board 9 "N") eq_refl
                  None (JString "2024-03-15") None) as (_ & _ & H).
  destruct (H (Some "2024-03-15"%string) eq_refl) as [_ Hfk].
  apply Hfk; [discriminate|reflexivity].
Defined.

(** ** Ids of new rows *)

Lemma appended_card_keys (d : db) (new : card_row) :
  keys_ok d -> c_id new = next_card_id d -> has_list d (c_list_id new) = true ->
  keys_ok (mkDb (boards d) (lists d) (cards d ++ [new])
                (next_board_id d) (next_list_id d) (next_card_id d + 1)).
Proof.
  intros [Hc Hls Hci Hli Hown] Hid Hl. constructor; simpl; auto.
  - rewrite map_app. simpl. apply NoDup_snoc; auto.
    intros x Hx. apply in_map_iff in Hx as (c & <- & Hc0). rewrite Hid. auto.
  - intros c Hin. apply in_app_or in Hin as [Hin|[<-|[]]].
    + specialize (Hci c Hin). lia.
    + lia.
  - intros c Hin. apply in_app_or in Hin as [Hin|[<-|[]]].
    + apply (Hown c Hin).
    + exact Hl.
Qed.

Lemma appended_list_keys (d : db) (new : list_row) :
  keys_ok d -> l_id new = next_list_id d ->
  keys_ok (mkDb (boards d) (lists d ++ [new]) (cards d)
                (next_board_id d) (next_list_id d + 1) (next_card_id d)).
Proof.
  intros [Hc Hls Hci Hli Hown] Hid. constructor; simpl; auto.
  - rewrite map_app. simpl. apply NoDup_snoc; auto.
    intros x Hx. apply in_map_iff in Hx as (l & <- & Hl0). rewrite Hid. auto.
  - intros l Hin. apply in_app_or in Hin as [Hin|[<-|[]]].
    + specialize (Hli l Hin). lia.
    + lia.
  - intros c Hc0. specialize (Hown c Hc0). unfold has_list in *. simpl.
    rewrite existsb_app. now rewrite Hown.
Qed.

(** X9. Under any schedule of store failures and with keys in order: when
    POST /api/cards (POST /api/lists) answers with the created row, that row
    is the one added at the end of its table (for a card, with the priority
    as the column holds it), its id is the id of no row that was there
    before, and the keys are in order afterwards. *)
Theorem created_ids_are_fresh (faults : nat -> bool) (d : db) (k : Z) (title : string) :
  keys_ok d ->
  (forall description due_date priority new,
      fst (run (create_card faults k title description due_date priority) d) =
        json (CreatedCard new) ->
      ~ In (c_id new) (map c_id (cards d)) /\
      (exists held,
          priority_column (c_priority new) = Some held /\
          cards (snd (run (create_card faults k title description due_date priority) d))
          = cards d ++ [with_c_priority new held]) /\
      keys_ok (snd (run (create_card faults k title description due_date priority) d)))
  /\
  (forall new,
      fst (run (create_list faults k title) d) = json (CreatedList new) ->
      ~ In (l_id new) (map l_id (lists d)) /\
      lists (snd (run (create_list faults k title) d)) = lists d ++ [new] /\
      keys_ok (snd (run (create_list faults k title) d))).
Proof.
  intros Hkeys. split.
  - intros description due_date priority new Hnew.
    destruct (create_card_all_or_nothing faults k title description due_date
                                         priority d)
      as [[He _]|(_ & Hrun & _)]; [rewrite Hnew in He; discriminate|].
    rewrite Hrun in Hnew |- *. clear Hrun.
    destruct (create_card_cases d k title description due_date priority)
      as [[_ He]|(formattedDate & held & Hl & Hdate & Hp & Hd & Hrun)].
    + rewrite Hnew in He. discriminate.
    + rewrite Hrun in *. cbn [fst snd cards] in *.
      inversion Hnew; subst new. cbn [c_id c_priority with_c_priority].
      split; [|split; [exists held; split; [exact Hp|reflexivity]|]].
      * intros Hin. apply in_map_iff in Hin as (c & Hid & Hc).
        pose proof (card_ids_issued d Hkeys c Hc). lia.
      * now apply appended_card_keys.
  - intros new Hnew.
    destruct (create_list_all_or_nothing faults k title d)
      as [[He _]|(_ & Hrun & _)]; [rewrite Hnew in He; discriminate|].
    rewrite Hrun in Hnew |- *. clear Hrun.
    destruct (has_board d k) eqn:Hb.
    + rewrite (create_list_run d k title Hb) in *.
      simpl in *. inversion Hnew; subst new. simpl.
      split; [|split; [reflexivity|now apply appended_list_keys]].
      intros Hin. apply in_map_iff in Hin as (l & Hid & Hl).
      pose proof (list_ids_issued d Hkeys l Hl). lia.
    + exfalso. revert Hnew. unfold run, create_list, insert_list. step_monad.
      rewrite Hb. discriminate.
Qed.

Lemma created_ids_are_fresh_witness :
  ~ In 5 (map c_id (cards small_board)) /\
  keys_ok (snd (run (create_card reliable 2 "N" None JNull None) small_board)).
Proof.
  destruct (proj1 (created_ids_are_fresh reliable small_board 2 "N"
                                         (proj1 small_board_ok))
                  None JNull None (mkCard 5 2 "N" "" 1 "medium" None) eq_refl)
    as (Hfresh & _ & Hkeys).
  split; [exact Hfresh|exact Hkeys].
Defined.

(** ** What a reorder leaves alone *)

Lemma reorder_unknown_list_run (d : db) (listId position : Z) :
  select_list listId d = [] ->
  run (reorder_list reliable listId position) d =
  (Reply 404 (Error (Text "List not found")), d).
Proof.
  intros Hsel. unfold run, reorder_list. step_monad. now rewrite Hsel.
Qed.

(** X10. PUT /api/lists/:id/reorder, under any schedule of store failures
    and with list ids unique: an id that is in no row is answered 404 "List
    not found" with the store unchanged; in every case the cards table is
    untouched, every list keeps its id, board and title, and the lists of
    the other boards keep their positions too. *)
Theorem reorder_touches_positions_only (faults : nat -> bool) (d : db)
        (listId position : Z) :
  NoDup (map l_id (lists d)) ->
  let d' := snd (run (reorder_list faults listId position) d) in
  ((forall l, In l (lists d) -> l_id l <> listId) ->
   run (reorder_list reliable listId position) d =
   (Reply 404 (Error (Text "List not found")), d)) /\
  cards d' = cards d /\
  map (fun l => (l_id l, l_board_id l, l_title l)) (lists d') =
  map (fun l => (l_id l, l_board_id l, l_title l)) (lists d) /\
  (forall cur l, In cur (lists d) -> l_id cur = listId ->
                 In l (lists d) -> l_board_id l <> l_board_id cur ->
                 In l (lists d')).
Proof.
  intros Hnd. cbv zeta. split.
  - intros Hnone. apply reorder_unknown_list_run.
    destruct (select_list listId d) as [|cur rest] eqn:E; [reflexivity|].
    apply select_list_head in E as [Hin Hid]. now elim (Hnone cur Hin).
  - destruct (reorder_list_all_or_nothing faults listId position d)
      as [[_ ->]|(_ & -> & _)]; [repeat split; auto|].
    destruct (select_list listId d) as [|cur rest] eqn:Hsel.
    + rewrite (reorder_unknown_list_run d listId position Hsel).
      repeat split; auto.
    + apply select_list_head in Hsel as [Hcur <-].
      rewrite (reorder_run d cur position Hnd Hcur). simpl.
      split; [reflexivity|]. split.
      * rewrite map_map. apply map_ext. intros l.
        unfold renumber, renumber_from.
        destruct (index_from 0 (l_id l) _); reflexivity.
      * intros cur' l Hcur' Hid Hl Hboard.
        assert (cur' = cur) by (eapply NoDup_map_eq; eauto). subst cur'.
        apply in_map_iff. exists l. split; [|exact Hl].
        now apply renumber_elsewhere.
Qed.

Lemma reorder_touches_positions_only_witness :
  cards (snd (run (reorder_list (fun k => Nat.eqb k 9) 1 2) small_board)) =
  cards small_board /\
  run (reorder_list reliable 9 0) small_board =
  (Reply 404 (Error (Text "List not found")), small_board).
Proof.
  split.
  - apply (reorder_touches_positions_only (fun k => Nat.eqb k 9) small_board 1 2).
    concrete_nodup.
  - apply (reorder_touches_positions_only reliable small_board 9 0).
    + concrete_nodup.
    + simpl. intros l H. intuition (subst; discriminate).
Defined.

(** ** A card sent to another list and back *)

(** X11. On a store that does not fail: when the positions of the cards of
    list [A] are distinct, moving a card from position [p] of [A] to any
    position [t] of another list [B] and then back to position [p] of [A]
    gives back the store as it was. *)
Theorem move_across_round_trip (d : db) (cur : card_row) (B t : Z) :
  NoDup (map c_id (cards d)) ->
  In cur (cards d) ->
  c_list_id cur <> B ->
  has_list d (c_list_id cur) = true ->
  has_list d B = true ->
  NoDup (card_positions (c_list_id cur) d) ->
  let there := run (move_card reliable (c_id cur) B t) d in
  let back := run (move_card reliable (c_id cur) (c_list_id cur) (c_position cur))
                  (snd there) in
  fst there = json Success /\ fst back = json Success /\ snd back = d.
Proof.
  intros Hnd Hcur HAB HlA HlB HposA. cbv zeta.
  rewrite (move_across_run d cur B t Hnd Hcur HAB HlB). simpl.
  set (F1 := moveAcrossGroup (c_id cur) (c_list_id cur) (c_position cur) B t).
  pose proof (move_across_run (set_cards d (map F1 (cards d)))
                              (with_c_place cur B t) (c_list_id cur)
                              (c_position cur)) as Hback.
  simpl in Hback. rewrite Hback; clear Hback.
  - simpl. repeat split.
    transitivity (set_cards d (cards d)); [|apply set_cards_same].
    unfold set_cards. simpl. f_equal.
    rewrite map_map. transitivity (map id (cards d)); [|apply map_id].
    apply map_ext_in. intros c Hc. unfold id, F1, moveAcrossGroup.
    destruct (Z.eqb_spec (c_id c) (c_id cur)) as [Hid|Hid].
    + assert (c = cur) by (eapply same_card; eauto). subst c.
      simpl. rewrite Z.eqb_refl. now destruct cur.
    + assert (Hp : c_list_id c = c_list_id cur -> c_position c <> c_position cur).
      { intros Hk Hp. apply Hid. f_equal.
        unfold card_positions, positions in HposA.
        eapply NoDup_map_eq; [exact HposA| | |exact Hp]; apply in_group; auto. }
      destruct (Z.eqb_spec (c_list_id c) (c_list_id cur)) as [Hk|Hk].
      * specialize (Hp Hk).
        zbool; destruct c; unfold with_c_position; simpl in *; f_equal; lia.
      * clear Hp.
        zbool; destruct c; unfold with_c_position; simpl in *; f_equal; lia.
  - rewrite moved_ids; [exact Hnd|]. intros c. apply moveAcrossGroup_id.
  - apply in_map_iff. exists cur. split; [|exact Hcur].
    unfold F1. apply moveAcrossGroup_moved.
  - auto.
  - exact HlA.
Qed.

Lemma move_across_round_trip_witness :
  snd (run (move_card reliable 2 1 1)
           (snd (run (move_card reliable 2 2 0) small_board))) = small_board.
Proof.
  apply (move_across_round_trip small_board (plain_card 2 1 1 "B") 2 0).
  - concrete_nodup.
  - simpl. auto.
  - simpl. discriminate.
  - reflexivity.
  - reflexivity.
  - concrete_nodup.
Defined.

(** ** Positions never collide *)

Lemma apart_NoDup (cs : list card_row) :
  NoDup cs -> apart cs ->
  forall k, NoDup (positions card_row c_list_id c_position k cs).
Proof.
  intros Hnd Hap k. unfold positions. apply NoDup_map_in.
  - now apply NoDup_filter.
  - intros x y Hx Hy Hxy. apply in_group in Hx as [Hx Hkx], Hy as [Hy Hky].
    apply Hap; auto. congruence.
Qed.

Lemma NoDup_apart (cs : list card_row) :
  (forall k, NoDup (positions card_row c_list_id c_position k cs)) -> apart cs.
Proof.
  intros H a b Ha Hb Hk Hp.
  eapply NoDup_map_eq; [exact (H (c_list_id a))| | |exact Hp]; apply in_group; auto.
Qed.

Lemma within_keeps_apart (cs : list card_row) (cur : card_row) (t : Z) :
  NoDup (map c_id cs) -> apart cs -> In cur cs ->
  apart (map (moveWithinGroup (c_id cur) (c_list_id cur) (c_position cur) t) cs).
Proof.
  intros Hnd Hap Hcur.
  set (F := moveWithinGroup (c_id cur) (c_list_id cur) (c_position cur) t).
  assert (Hpos : forall c, In c cs -> c_list_id c = c_list_id cur ->
             c_position (F c) =
             (if c_position c =? c_position cur then t
              else if (c_position cur <? c_position c) && (c_position c <=? t)
              then c_position c - 1
              else if (t <=? c_position c) && (c_position c <? c_position cur)
              then c_position c + 1
              else c_position c)).
  { intros c Hc Hk. unfold F, moveWithinGroup.
    destruct (Z.eqb_spec (c_id c) (c_id cur)) as [Hid|Hid].
    - assert (c = cur) by (eapply NoDup_map_eq; eauto). subst c.
      simpl. now rewrite Z.eqb_refl.
    - rewrite Hk, Z.eqb_refl.
      destruct (Z.eqb_spec (c_position c) (c_position cur)) as [Hp|Hp].
      + exfalso. apply Hid. f_equal. apply Hap; auto.
      + zbool. }
  intros a' b' Ha' Hb' Hk Hp.
  apply in_map_iff in Ha' as (a & <- & Ha). apply in_map_iff in Hb' as (b & <- & Hb).
  fold F in Hk, Hp |- *. unfold F in Hk. rewrite !moveWithinGroup_list in Hk.
  assert (a = b); [|now subst].
  destruct (Z.eq_dec (c_list_id a) (c_list_id cur)) as [HL|HL].
  - rewrite (Hpos a Ha HL), (Hpos b Hb) in Hp by congruence.
    apply Hap; auto. revert Hp. zbool.
  - unfold F in Hp.
    rewrite (moveWithinGroup_elsewhere cs cur a) in Hp by auto.
    rewrite (moveWithinGroup_elsewhere cs cur b) in Hp by (auto; congruence).
    apply Hap; auto.
Qed.

Lemma across_keeps_apart (cs : list card_row) (cur : card_row) (B t : Z) :
  NoDup (map c_id cs) -> apart cs -> In cur cs -> c_list_id cur <> B ->
  apart (map (moveAcrossGroup (c_id cur) (c_list_id cur) (c_position cur) B t) cs).
Proof.
  intros Hnd Hap Hcur HAB.
  set (F := moveAcrossGroup (c_id cur) (c_list_id cur) (c_position cur) B t).
  assert (Hcases : forall a, In a cs ->
            (a = cur /\ F a = with_c_place cur B t) \/
            (a <> cur /\ c_list_id (F a) = c_list_id a /\
             (c_list_id a = c_list_id cur -> c_position a <> c_position cur) /\
             c_position (F a) =
             (if (c_list_id a =? c_list_id cur) && (c_position cur <? c_position a)
              then c_position a - 1
              else if (c_list_id a =? B) && (t <=? c_position a)
              then c_position a + 1
              else c_position a))).
  { intros a Ha. destruct (Z.eq_dec (c_id a) (c_id cur)) as [Hid|Hid].
    - left. assert (a = cur) by (eapply NoDup_map_eq; eauto). subst a.
      split; [reflexivity|apply moveAcrossGroup_moved].
    - right. destruct (moveAcrossGroup_other cur a B t Hid HAB) as [Hl Hp].
      repeat split; auto.
      + intros ->. now apply Hid.
      + intros Hk Hpos. apply Hid. f_equal. apply Hap; auto. }
  intros a' b' Ha' Hb' Hk Hp.
  apply in_map_iff in Ha' as (a & <- & Ha). apply in_map_iff in Hb' as (b & <- & Hb').
  fold F in Hk, Hp |- *.
  assert (a = b); [|now subst].
  destruct (Hcases a Ha) as [[-> Ea]|(Na & La & Pa & Ea)];
    destruct (Hcases b Hb') as [[-> Eb]|(Nb & Lb & Pb & Eb)]; auto.
  - exfalso. rewrite Ea, Lb in Hk. rewrite Ea, Eb in Hp. simpl in Hk, Hp.
    revert Hp. rewrite <- Hk. zbool.
  - exfalso. rewrite Eb, La in Hk. rewrite Ea, Eb in Hp. simpl in Hk, Hp.
    revert Hp. rewrite Hk. zbool.
  - rewrite La, Lb in Hk. rewrite Ea, Eb in Hp.
    apply Hap; auto. revert Hp Pa Pb. rewrite Hk. zbool.
Qed.

Lemma append_position_above (ps : list Z) (x : Z) :
  In x ps -> x < append_position ps.
Proof.
  destruct ps as [|p rest]; [intros []|]. intros Hx.
  destruct (fold_max_is_max p rest) as [_ Hle].
  specialize (Hle x Hx). unfold append_position. lia.
Qed.

Lemma NoDup_append_position (ps : list Z) :
  NoDup ps -> NoDup (ps ++ [append_position ps]).
Proof.
  intros Hnd. apply NoDup_app; [exact Hnd|concrete_nodup|].
  intros x Hx [<-|[]]. pose proof (append_position_above ps _ Hx). lia.
Qed.

Lemma same_places_same_positions (cs1 cs2 : list card_row) (k : Z) :
  map place cs1 = map place cs2 ->
  positions card_row c_list_id c_position k cs1 =
  positions card_row c_list_id c_position k cs2.
Proof.
  revert cs2. induction cs1 as [|a cs1 IH]; intros [|b cs2] H;
    try discriminate; [reflexivity|].
  simpl in H. inversion H as [[Hid Hl Hp H']].
  unfold positions, group in *. simpl. rewrite Hl.
  destruct (c_list_id b =? k); simpl; [rewrite Hp; f_equal|]; now apply IH.
Qed.

Lemma moved_cards_distinct (cs : list card_row) (d : db) :
  NoDup (map c_id cs) -> distinct_positions d -> apart cs ->
  distinct_positions (set_cards d cs).
Proof.
  intros Hnd [Hlists _] Hap. split; [exact Hlists|].
  intros k. unfold card_positions. simpl.
  apply apart_NoDup; auto. eapply NoDup_of_map; eauto.
Qed.

Lemma move_card_keeps_distinct (d : db) (cardId list_id position : Z) :
  keys_ok d -> distinct_positions d ->
  keys_ok (snd (run (move_card reliable cardId list_id position) d)) /\
  distinct_positions (snd (run (move_card reliable cardId list_id position) d)).
Proof.
  intros Hkeys Hdist.
  destruct (select_card cardId d) as [|cur rest] eqn:Hsel.
  - rewrite (move_unknown_card_run d cardId list_id position Hsel). auto.
  - apply select_card_head in Hsel as [Hcur <-].
    pose proof (card_ids_unique d Hkeys) as Hnd.
    pose proof (cards_owned d Hkeys cur Hcur) as Hown.
    assert (Hap : apart (cards d)) by (apply NoDup_apart; apply Hdist).
    destruct (Z.eqb_spec (c_list_id cur) list_id) as [<-|Hother].
    + rewrite (move_within_run d cur position Hnd Hcur Hown). simpl. split.
      * apply moved_cards_keys; auto.
        -- intros c. apply moveWithinGroup_id.
        -- intros c Hc. rewrite moveWithinGroup_list.
           now apply (cards_owned d Hkeys).
      * apply moved_cards_distinct; auto.
        -- rewrite moved_ids; auto. intros c. apply moveWithinGroup_id.
        -- now apply within_keeps_apart.
    + destruct (has_list d list_id) eqn:Hl.
      * rewrite (move_across_run d cur list_id position Hnd Hcur Hother Hl).
        simpl. split.
        -- apply moved_cards_keys; auto.
           ++ intros c. apply moveAcrossGroup_id.
           ++ intros c Hc.
              destruct (Z.eq_dec (c_id c) (c_id cur)) as [Hid|Hid].
              ** assert (c = cur) by (eapply same_card; eauto). subst c.
                 now rewrite moveAcrossGroup_moved.
              ** destruct (moveAcrossGroup_other cur c list_id position Hid Hother)
                   as [-> _].
                 now apply (cards_owned d Hkeys).
        -- apply moved_cards_distinct; auto.
           ++ rewrite moved_ids; auto. intros c. apply moveAcrossGroup_id.
           ++ now apply across_keeps_apart.
      * rewrite (move_to_missing_list_run d cur list_id position Hnd Hcur Hown Hl).
        auto.
Qed.

Lemma reorder_list_keeps_distinct (d : db) (listId position : Z) :
  keys_ok d -> distinct_positions d ->
  keys_ok (snd (run (reorder_list reliable listId position) d)) /\
  distinct_positions (snd (run (reorder_list reliable listId position) d)).
Proof.
  intros Hkeys Hdist.
  destruct (select_list listId d) as [|cur rest] eqn:Hsel.
  - rewrite (reorder_unknown_list_run d listId position Hsel). auto.
  - apply select_list_head in Hsel as [Hcur <-].
    pose proof (list_ids_unique d Hkeys) as Hnd.
    rewrite (reorder_run d cur position Hnd Hcur). simpl.
    set (R := renumber (resequenced cur position d)).
    assert (Hids : map l_id (map R (lists d)) = map l_id (lists d)).
    { rewrite map_map. apply map_ext. intros l. apply renumber_board. }
    split.
    + destruct Hkeys as [Hc Hl Hci Hli Hown]. constructor; simpl; auto.
      * now rewrite Hids.
      * intros l Hin. apply in_map_iff in Hin as (l0 & <- & Hin).
        destruct (renumber_board (resequenced cur position d) l0) as [_ Hid].
        unfold R. rewrite Hid. auto.
      * intros c Hc0.
        rewrite (has_list_same_ids d (set_lists d (map R (lists d)))); auto.
    + destruct Hdist as [Hlists Hcards]. split; [|exact Hcards].
      intros k. destruct (Z.eq_dec k (l_board_id cur)) as [->|Hk].
      * apply (proj1 (dense_iff _)). now apply reorder_dense_board.
      * unfold R. rewrite reorder_other_boards; auto.
Qed.

Lemma request_keeps_distinct (d : db) (r : request) :
  keys_ok d -> distinct_positions d ->
  keys_ok (snd (run (handle reliable r) d)) /\
  distinct_positions (snd (run (handle reliable r) d)).
Proof.
  intros Hkeys Hdist. pose proof Hdist as [Hlists Hcards].
  destruct r as [board_id title|list_id title description due_date priority
                |cardId updates|cardId list_id position|listId position
                |cardId|listId]; cbn [handle].
  - destruct (has_board d board_id) eqn:Hb.
    + rewrite (create_list_run d board_id title Hb). simpl. split.
      * now apply appended_list_keys.
      * split; [|exact Hcards].
        intros k. unfold list_positions, positions, group. simpl.
        rewrite filter_app, map_app. simpl.
        destruct (Z.eqb_spec board_id k) as [->|Hk]; simpl.
        -- apply (NoDup_append_position _ (Hlists k)).
        -- rewrite app_nil_r. apply Hlists.
    + assert (Hrun : run (create_list reliable board_id title) d =
                     (status500 ForeignKeyViolation, d)).
      { unfold run, create_list, insert_list. step_monad. now rewrite Hb. }
      rewrite Hrun. auto.
  - destruct (create_card_cases d list_id title description due_date priority)
      as [[-> _]|(formattedDate & held & Hl & Hdate & Hp & Hd & ->)]; [auto|].
    simpl. split.
    + now apply appended_card_keys.
    + split; [exact Hlists|].
      intros k. unfold card_positions, positions, group. simpl.
      rewrite filter_app, map_app. simpl.
      destruct (Z.eqb_spec list_id k) as [->|Hk]; simpl.
      * apply (NoDup_append_position _ (Hcards k)).
      * rewrite app_nil_r. apply Hcards.
  - destruct (update_card_store reliable cardId updates d)
      as [->|(t & de & p & du & ->)]; [auto|].
    destruct (set_card_fields_places t de p du cardId d) as [Hplaces _].
    split.
    + unfold set_card_fields. apply moved_cards_keys; auto.
      * intros c. destruct (c_id c =? cardId); reflexivity.
      * intros c Hc. destruct (c_id c =? cardId); simpl;
          now apply (cards_owned d Hkeys).
    + split; [exact Hlists|]. intros k. unfold card_positions.
      rewrite (same_places_same_positions _ (cards d) k Hplaces). apply Hcards.
  - now apply move_card_keeps_distinct.
  - now apply reorder_list_keeps_distinct.
  - rewrite delete_card_run. simpl. split; [now apply delete_card_keys|].
    split; [exact Hlists|].
    intros k. unfold card_positions, positions, group. simpl.
    rewrite filter_swap. apply NoDup_map_filter. apply Hcards.
  - rewrite delete_list_run. simpl. split; [now apply delete_list_keys|].
    split.
    + intros k. unfold list_positions, positions, group. simpl.
      rewrite filter_swap. apply NoDup_map_filter. apply Hlists.
    + intros k. unfold card_positions, positions, group. simpl.
      destruct (has_list d listId); [|apply Hcards].
      rewrite filter_swap. apply NoDup_map_filter. apply Hcards.
Qed.

(** X12. Starting from a store whose keys are in order and where no two
    lists of a board and no two cards of a list share a position, every
    sequence of requests of any kind - appends, updates, moves and reorders
    to any integer position, in range or not, deletions - served under any
    schedule of store failures leaves a store with the same two properties.
    As long as the positions requested are integers, a position is never
    given to two siblings, even where gaps appear. *)
Theorem positions_never_collide (d : db) (rs : list request) (d' : db) :
  keys_ok d -> distinct_positions d -> serves_any d rs d' ->
  keys_ok d' /\
  (forall board_id, NoDup (list_positions board_id d')) /\
  (forall list_id, NoDup (card_positions list_id d')).
Proof.
  intros Hkeys Hdist Hserves. revert Hkeys Hdist.
  induction Hserves as [d|d faults r rs d' Hrest IH]; intros Hkeys Hdist.
  - split; [exact Hkeys|exact Hdist].
  - apply IH.
    + destruct (handle_all_or_nothing faults r d) as [[_ ->]|(_ & -> & _)];
        [exact Hkeys|]. now apply request_keeps_distinct.
    + destruct (handle_all_or_nothing faults r d) as [[_ ->]|(_ & -> & _)];
        [exact Hdist|]. now apply request_keeps_distinct.
Qed.

Lemma small_board_distinct : distinct_positions small_board.
Proof.
  destruct small_board_ok as [_ [Hl Hc]].
  split; intros k; apply (proj1 (dense_iff _)); auto.
Qed.

(** A card is deleted, another one is moved far out of range, a third one
    is appended. *)
Lemma positions_never_collide_witness :
  exists d',
    serves_any small_board
               [DeleteCard 1; MoveCard 2 1 40; PostCard 1 "N" None JNull None] d' /\
    (forall list_id, NoDup (card_positions list_id d')).
Proof.
  assert (Hs : exists d',
             serves_any small_board
                        [DeleteCard 1; MoveCard 2 1 40;
                         PostCard 1 "N" None JNull None] d').
  { eexists.
    apply serves_any_cons with (faults := reliable).
    apply serves_any_cons with (faults := reliable).
    apply serves_any_cons with (faults := reliable).
    apply serves_any_nil. }
  destruct Hs as [d' Hs]. exists d'. split; [exact Hs|].
  apply (positions_never_collide small_board _ d'
           (proj1 small_board_ok) small_board_distinct Hs).
Defined.

(** ** Renaming a list *)

Lemma filter_none {A : Type} (P : A -> bool) (l : list A) :
  (forall x, In x l -> P x = false) -> filter P l = [].
Proof.
  induction l as [|a l IH]; simpl; intros H; [reflexivity|].
  rewrite (H a) by auto. apply IH. auto.
Qed.

Lemma map_unchanged {A : Type} (F : A -> A) (l : list A) :
  (forall x, In x l -> F x = x) -> map F l = l.
Proof.
  intros H. transitivity (map id l); [|apply map_id].
  apply map_ext_in. exact H.
Qed.

(** X13. PUT /api/lists/:id, under any schedule of store failures, changes
    titles only: every list keeps its id, its board and its position, so
    the positions of every board are what they were, and the cards table is
    untouched.  On a store that does not fail, an id that is in no row is
    answered with success (not 404) and changes nothing; an id that is in a
    row gives that row the new title. *)
Theorem rename_list_keeps_positions (faults : nat -> bool) (d : db) (listId : Z)
        (title : string) :
  let d' := snd (run (rename_list faults listId title) d) in
  map (fun l => (l_id l, l_board_id l, l_position l)) (lists d') =
  map (fun l => (l_id l, l_board_id l, l_position l)) (lists d) /\
  cards d' = cards d /\
  (forall board_id, list_positions board_id d' = list_positions board_id d) /\
  ((forall l, In l (lists d) -> l_id l <> listId) ->
   run (rename_list reliable listId title) d = (json Success, d)) /\
  (forall l, In l (lists d) -> l_id l = listId ->
             In (mkList (l_id l) (l_board_id l) title (l_position l))
                (lists (snd (run (rename_list reliable listId title) d)))).
Proof.
  cbv zeta.
  set (F := fun l => if l_id l =? listId
                     then mkList (l_id l) (l_board_id l) title (l_position l)
                     else l).
  assert (HF : forall l, l_id (F l) = l_id l /\ l_board_id (F l) = l_board_id l /\
                         l_position (F l) = l_position l).
  { intros l. unfold F. destruct (l_id l =? listId); simpl; auto. }
  assert (Hstore : snd (run (rename_list faults listId title) d) = d \/
                   snd (run (rename_list faults listId title) d) =
                   set_lists d (map F (lists d))).
  { unfold run, rename_list. step_monad. destruct (faults 0%nat); simpl; auto. }
  split; [|split; [|split; [|split]]].
  - destruct Hstore as [->| ->]; [reflexivity|]. simpl.
    rewrite map_map. apply map_ext. intros l.
    destruct (HF l) as (-> & -> & ->). reflexivity.
  - destruct Hstore as [->| ->]; reflexivity.
  - intros k. destruct Hstore as [->| ->]; [reflexivity|].
    unfold list_positions, positions, group. simpl.
    rewrite filter_map_swap, map_map.
    rewrite (filter_ext (fun x => l_board_id (F x) =? k) (fun x => l_board_id x =? k)).
    + apply map_ext. intros l. apply HF.
    + intros l. destruct (HF l) as (_ & -> & _). reflexivity.
  - intros Hnone. unfold run, rename_list. step_monad. f_equal.
    unfold set_list_title. fold F.
    rewrite map_unchanged; [apply set_lists_same|].
    intros l Hl. unfold F.
    destruct (Z.eqb_spec (l_id l) listId); [now elim (Hnone l Hl)|reflexivity].
  - intros l Hl Hid. unfold run, rename_list. step_monad.
    apply in_map_iff. exists l. split; [|exact Hl].
    destruct (Z.eqb_spec (l_id l) listId); [reflexivity|contradiction].
Qed.

Lemma rename_list_keeps_positions_witness :
  run (rename_list reliable 9 "Later") small_board = (json Success, small_board) /\
  In (mkList 2 1 "Doing" 1) (lists (snd (run (rename_list reliable 2 "Doing")
                                              small_board))).
Proof.
  split.
  - apply (rename_list_keeps_positions reliable small_board 9 "Later").
    simpl. intros l H. intuition (subst; discriminate).
  - destruct (rename_list_keeps_positions reliable small_board 2 "Doing")
      as (_ & _ & _ & _ & H).
    apply (H (mkList 2 1 "In Progress" 1)).
    + simpl. auto.
    + reflexivity.
Defined.

(** ** A new board *)

(** X14. POST /api/boards on a store that does not fail, where every list
    belongs to a board whose id was issued: the new board gets the next id
    and holds no list, the stored description is the empty text when none
    was sent, and the first POST /api/lists for the new board is answered
    with a list at position 0. *)
Theorem new_board_starts_empty (d : db) (title : string)
        (description : option string) (first : string) :
  (forall l, In l (lists d) -> l_board_id l < next_board_id d) ->
  let created := run (create_board reliable title description) d in
  fst created = BoardCreated (next_board_id d) title description /\
  boards (snd created) =
    boards d ++ [mkBoard (next_board_id d) title (or_default description "")] /\
  lists_of (next_board_id d) (snd created) = [] /\
  fst (run (create_list reliable (next_board_id d) first) (snd created)) =
    json (CreatedList (mkList (next_list_id d) (next_board_id d) first 0)).
Proof.
  intros Hissued. cbv zeta.
  assert (Hempty : filter (fun l => l_board_id l =? next_board_id d) (lists d) = []).
  { apply filter_none. intros l Hl. apply Z.eqb_neq.
    specialize (Hissued l Hl). lia. }
  unfold run, create_board, insert_board. step_monad.
  split; [reflexivity|]. split; [reflexivity|]. split.
  - exact Hempty.
  - unfold create_list, insert_list, next_list_position, has_board. step_monad.
    rewrite existsb_app. simpl. rewrite Z.eqb_refl, orb_true_r.
    rewrite Hempty. reflexivity.
Qed.

Lemma new_board_starts_empty_witness :
  fst (run (create_list reliable 2 "First")
           (snd (run (create_board reliable "Second board" None) small_board))) =
  json (CreatedList (mkList 4 2 "First" 0)).
Proof.
  apply (new_board_starts_empty small_board "Second board" None "First").
  simpl. intros l H. intuition (subst; simpl; lia).
Defined.

(** ** Start up *)

(** X15. initializeDatabase, under any schedule of store failures, leaves
    a store that holds at least one board exactly as it is: the default
    board is created at most once, and lists whose insert failed during an
    earlier start are not added by a later one.  On a store without boards
    and without failures it does what createDefaultData does. *)
Theorem startup_seeds_once (faults : nat -> bool) (d : db) :
  (boards d <> [] -> snd (run (initializeDatabase faults) d) = d) /\
  (boards d = [] ->
   snd (run (initializeDatabase reliable) d) =
   snd (run (createDefaultData reliable) d)).
Proof.
  split.
  - intros Hboards.
    assert (Hcount : (count_boards d =? 0) = false).
    { apply Z.eqb_neq. unfold count_boards.
      destruct (boards d); [contradiction|simpl; lia]. }
    unfold run, initializeDatabase, create_table. step_monad.
    destruct (faults 0%nat); simpl; destruct (faults 1%nat); simpl;
      destruct (faults 2%nat); simpl; destruct (faults 3%nat); simpl;
      destruct (faults 4%nat); simpl; destruct (faults 5%nat); simpl;
      rewrite ?Hcount; reflexivity.
  - intros Hboards.
    unfold run, initializeDatabase, create_table, count_boards, createDefaultData,
      insert_board, insert_list, has_board.
    step_monad. repeat (progress (rewrite ?Hboards, ?Z.eqb_refl; simpl)).
    reflexivity.
Qed.

Lemma startup_seeds_once_witness :
  snd (run (initializeDatabase (fun k => Nat.eqb k 2)) small_board) = small_board.
Proof.
  apply (startup_seeds_once (fun k => Nat.eqb k 2) small_board).
  simpl. discriminate.
Defined.

(** ** Loading a board *)

Lemma insert_by_perm {A : Type} (key : A -> Z) (x : A) (sorted : list A) :
  Permutation (insert_by key x sorted) (x :: sorted).
Proof.
  induction sorted as [|y rest IH]; simpl; [reflexivity|].
  destruct (key x <=? key y); [reflexivity|].
  rewrite IH. apply perm_swap.
Qed.

Lemma order_by_perm {A : Type} (key : A -> Z) (rows : list A) :
  Permutation (order_by key rows) rows.
Proof.
  induction rows as [|x rows IH]; simpl; [reflexivity|].
  rewrite insert_by_perm. now constructor.
Qed.

Lemma insert_by_sorted {A : Type} (key : A -> Z) (x : A) (sorted : list A) :
  Sorted Z.le (map key sorted) -> Sorted Z.le (map key (insert_by key x sorted)).
Proof.
  induction sorted as [|y rest IH]; simpl; intros Hs.
  - repeat constructor.
  - destruct (Z.leb_spec (key x) (key y)) as [Hle|Hgt]; simpl.
    + constructor; [exact Hs|]. now constructor.
    + inversion Hs as [|? ? Hrest Hhd]; subst. constructor; [now apply IH|].
      destruct rest as [|z rest']; simpl.
      * constructor. lia.
      * destruct (Z.leb_spec (key x) (key z)); simpl; constructor; [lia|].
        now inversion Hhd.
Qed.

Lemma order_by_sorted {A : Type} (key : A -> Z) (rows : list A) :
  StronglySorted Z.le (map key (order_by key rows)).
Proof.
  apply Sorted_StronglySorted; [intros x y z; apply Z.le_trans|].
  induction rows as [|x rows IH]; simpl; [constructor|].
  now apply insert_by_sorted.
Qed.

Lemma order_by_position_is_order_by (ls : list list_row) :
  order_by_position ls = order_by l_position ls.
Proof.
  induction ls as [|l ls IH]; simpl; [reflexivity|]. rewrite IH.
  generalize (order_by l_position ls). intros sorted.
  induction sorted as [|x rest IHs]; simpl; [reflexivity|].
  now rewrite IHs.
Qed.

(** Two ascending lists with the same elements are the same list. *)
Lemma sorted_perm_eq (l l' : list Z) :
  StronglySorted Z.le l -> StronglySorted Z.le l' -> Permutation l l' -> l = l'.
Proof.
  revert l'. induction l as [|a l IH]; intros l' Hs Hs' Hp.
  - apply Permutation_nil in Hp. now subst.
  - destruct l' as [|b l'].
    + symmetry in Hp. apply Permutation_nil in Hp. discriminate.
    + inversion Hs as [|? ? Hl Ha]; subst. inversion Hs' as [|? ? Hl' Hb]; subst.
      assert (Hab : a = b).
      { assert (Hina : In a (b :: l'))
          by (eapply Permutation_in; [exact Hp|simpl; auto]).
        assert (Hinb : In b (a :: l))
          by (eapply Permutation_in; [symmetry; exact Hp|simpl; auto]).
        rewrite Forall_forall in Ha, Hb.
        destruct Hina as [->|Hina]; [reflexivity|].
        destruct Hinb as [->|Hinb]; [reflexivity|].
        specialize (Ha _ Hinb). specialize (Hb _ Hina). lia. }
      subst b. f_equal. apply IH; auto.
      eapply Permutation_cons_inv; eauto.
Qed.

Lemma range_from_sorted (a n : nat) : StronglySorted Z.le (map Z.of_nat (seq a n)).
Proof.
  revert a. induction n as [|n IH]; intros a; simpl; constructor; [apply IH|].
  apply Forall_forall. intros x Hx. apply in_map_iff in Hx as (k & <- & Hk).
  apply in_seq in Hk. lia.
Qed.

(** An ascending list of dense positions is 0, 1, ..., n-1. *)
Lemma sorted_dense_is_range (ps qs : list Z) :
  StronglySorted Z.le ps -> Permutation ps qs -> dense qs ->
  ps = map Z.of_nat (seq 0 (List.length qs)).
Proof.
  intros Hs Hp Hd. apply sorted_perm_eq; auto.
  - apply range_from_sorted.
  - rewrite Hp. exact Hd.
Qed.

Lemma load_lists_reliable (driver_date : string -> loaded_date)
      (lists : list list_row) (c : conn) :
  load_lists driver_date reliable lists c =
  (Done (map (fun l => mkView l (map (formattedCard driver_date)
                                     (select_cards_of_list (l_id l) (store c))))
             lists),
   mkConn (store c) (snapshot c) (clock c + List.length lists)).
Proof.
  revert c. induction lists as [|l rest IH]; intros c; simpl.
  - unfold ret. rewrite Nat.add_0_r. now destruct c.
  - step_monad. change (fun _ : nat => false) with reliable. rewrite IH. simpl.
    f_equal. f_equal. lia.
Qed.

Lemma load_board_run (driver_date : string -> loaded_date) (d : db) (boardId : Z)
      (board : board_row) (rest : list board_row) :
  select_board boardId d = board :: rest ->
  run (load_board driver_date reliable boardId) d =
  (BoardJson board
     (map (fun l => mkView l (map (formattedCard driver_date)
                                  (select_cards_of_list (l_id l) d)))
          (select_lists_of_board boardId d)),
   d).
Proof.
  intros Hsel. unfold run, load_board. step_monad. rewrite Hsel.
  change (fun _ : nat => false) with reliable.
  rewrite load_lists_reliable. reflexivity.
Qed.

Lemma select_board_found (d : db) (boardId : Z) :
  has_board d boardId = true ->
  exists board rest,
    select_board boardId d = board :: rest /\
    In board (boards d) /\ b_id board = boardId.
Proof.
  intros Hb. unfold has_board in Hb. apply existsb_exists in Hb as (b & Hin & Hid).
  destruct (select_board boardId d) as [|board rest] eqn:E.
  - exfalso. assert (Hf : In b (select_board boardId d))
      by (apply filter_In; auto).
    rewrite E in Hf. contradiction.
  - exists board, rest. split; [reflexivity|].
    assert (Hf : In board (select_board boardId d)) by (rewrite E; simpl; auto).
    apply filter_In in Hf as [Hf Hid']. apply Z.eqb_eq in Hid'. auto.
Qed.

(** X16. GET /api/boards/:id for an existing board, on a store that does
    not fail, answers with that board, leaves the store as it is, and
    returns exactly the lists of the board in ascending order of position,
    each with exactly its own cards (due dates formatted) in ascending order
    of position. *)
Theorem loaded_board_is_ordered (driver_date : string -> loaded_date) (d : db)
        (boardId : Z) :
  has_board d boardId = true ->
  exists board views,
    run (load_board driver_date reliable boardId) d = (BoardJson board views, d) /\
    In board (boards d) /\ b_id board = boardId /\
    Permutation (map v_list views) (lists_of boardId d) /\
    StronglySorted Z.le (map (fun v => l_position (v_list v)) views) /\
    forall v, In v views ->
              Permutation (v_cards v)
                          (map (formattedCard driver_date)
                               (cards_of (l_id (v_list v)) d)) /\
              StronglySorted Z.le (map c_position (v_cards v)).
Proof.
  intros Hb. destruct (select_board_found d boardId Hb) as (board & rest & Hsel & Hin & Hid).
  eexists board, _. split; [apply (load_board_run driver_date d boardId board rest Hsel)|].
  split; [exact Hin|]. split; [exact Hid|].
  unfold select_lists_of_board. rewrite order_by_position_is_order_by.
  split; [|split].
  - rewrite map_map. simpl. rewrite map_id. apply order_by_perm.
  - rewrite map_map. simpl. apply order_by_sorted.
  - intros v Hv. apply in_map_iff in Hv as (l & <- & _). simpl. split.
    + apply Permutation_map. apply order_by_perm.
    + rewrite map_map. simpl. apply order_by_sorted.
Qed.

Lemma loaded_board_is_ordered_witness :
  exists board views,
    run (load_board plain_driver reliable 1) small_board =
      (BoardJson board views, small_board) /\
    StronglySorted Z.le (map (fun v => l_position (v_list v)) views).
Proof.
  destruct (loaded_board_is_ordered plain_driver small_board 1 eq_refl)
    as (board & views & Hrun & _ & _ & _ & Hsorted & _).
  exists board, views. split; [exact Hrun|exact Hsorted].
Defined.

(** X17. In a store whose groups are densely numbered, the board that
    GET /api/boards/:id returns shows every list at the index that is its
    position, and every card of a list at the index that is its position:
    the positions read 0, 1, 2, ... in the order returned. *)
Theorem loaded_board_is_numbered (driver_date : string -> loaded_date) (d : db)
        (boardId : Z) :
  has_board d boardId = true ->
  all_dense d ->
  exists board views,
    fst (run (load_board driver_date reliable boardId) d) = BoardJson board views /\
    map (fun v => l_position (v_list v)) views =
      map Z.of_nat (seq 0 (List.length views)) /\
    forall v, In v views ->
              map c_position (v_cards v) =
              map Z.of_nat (seq 0 (List.length (v_cards v))).
Proof.
  intros Hb [Hlists Hcards].
  destruct (select_board_found d boardId Hb) as (board & rest & Hsel & _ & _).
  eexists board, _. rewrite (load_board_run driver_date d boardId board rest Hsel).
  split; [reflexivity|].
  unfold select_lists_of_board. rewrite order_by_position_is_order_by.
  split.
  - rewrite map_map, length_map. simpl.
    rewrite (Permutation_length (order_by_perm l_position _)).
    change (filter (fun l => l_board_id l =? boardId) (lists d))
      with (lists_of boardId d).
    rewrite <- (length_map l_position (lists_of boardId d)).
    apply sorted_dense_is_range.
    + apply order_by_sorted.
    + apply Permutation_map. apply order_by_perm.
    + apply Hlists.
  - intros v Hv. apply in_map_iff in Hv as (l & <- & _). simpl.
    rewrite map_map, length_map. simpl.
    unfold select_cards_of_list.
    rewrite (Permutation_length (order_by_perm c_position _)).
    change (filter (fun c => c_list_id c =? l_id l) (cards d))
      with (cards_of (l_id l) d).
    rewrite <- (length_map c_position (cards_of (l_id l) d)).
    apply sorted_dense_is_range.
    + apply order_by_sorted.
    + apply Permutation_map. apply order_by_perm.
    + apply Hcards.
Qed.

Lemma loaded_board_is_numbered_witness :
  exists board views,
    fst (run (load_board plain_driver reliable 1) small_board) =
      BoardJson board views /\
    map (fun v => l_position (v_list v)) views =
      map Z.of_nat (seq 0 (List.length views)).
Proof.
  destruct (loaded_board_is_numbered plain_driver small_board 1 eq_refl
                                     (proj2 small_board_ok))
    as (board & views & Hrun & Hpos & _).
  exists board, views. split; [exact Hrun|exact Hpos].
Defined.

Lemma load_lists_faults (driver_date : string -> loaded_date) (faults : nat -> bool)
      (lists : list list_row) (c : conn) :
  store (snd (load_lists driver_date faults lists c)) = store c /\
  clock (snd (load_lists driver_date faults lists c)) =
    (clock c + List.length lists)%nat /\
  match fst (load_lists driver_date faults lists c) with
  | Done _ => forall j, (clock c <= j < clock c + List.length lists)%nat ->
                        faults j = false
  | Failed e => e = StoreFailure
  end.
Proof.
  revert c. induction lists as [|l rest IH]; intros c.
  - simpl. repeat split; auto. intros j Hj. lia.
  - simpl. step_monad. destruct (faults (clock c)) eqn:F.
    + specialize (IH (mkConn (store c) (snapshot c) (S (clock c)))).
      destruct (load_lists driver_date faults rest _) as [later c'].
      simpl in *. destruct IH as (Hs & Hc & _). repeat split; auto. lia.
    + specialize (IH (mkConn (store c) (snapshot c) (S (clock c)))).
      destruct (load_lists driver_date faults rest _) as [later c'].
      simpl in *. destruct IH as (Hs & Hc & Hres).
      split; [auto|]. split; [lia|].
      destruct later as [e|views]; [exact Hres|].
      intros j Hj. destruct (Nat.eq_dec j (clock c)) as [->|Hne]; [exact F|].
      apply Hres. lia.
Qed.

(** X18. GET /api/boards/:id never writes: under any schedule of store
    failures the store is left as it was.  A board id that is in no row is
    answered 404 "Board not found"; and if any statement sent for the
    request fails, the answer is the error 500 of the store, never a board
    with some of its lists missing. *)
Theorem load_board_reads_only (driver_date : string -> loaded_date)
        (faults : nat -> bool) (d : db) (boardId : Z) :
  snd (run (load_board driver_date faults boardId) d) = d /\
  (has_board d boardId = false ->
   fst (run (load_board driver_date reliable boardId) d) =
   BoardError 404 (Text "Board not found")) /\
  (some_statement_failed faults (load_board driver_date faults boardId) d ->
   fst (run (load_board driver_date faults boardId) d) =
   BoardError 500 (ErrMessage StoreFailure)).
Proof.
  split; [|split].
  - unfold run, load_board. step_monad.
    destruct (faults 0%nat); simpl; [reflexivity|].
    destruct (select_board boardId d) as [|board rest]; simpl; [reflexivity|].
    destruct (faults 1%nat); simpl; [reflexivity|].
    pose proof (load_lists_faults driver_date faults
                  (select_lists_of_board boardId d) (mkConn d None 2))
      as (Hs & _ & _).
    destruct (load_lists driver_date faults _ _) as [[e|views] c']; simpl in *;
      exact Hs.
  - intros Hb. unfold run, load_board. step_monad.
    destruct (select_board boardId d) as [|board rest] eqn:E; [reflexivity|].
    exfalso. assert (Hf : In board (select_board boardId d))
      by (rewrite E; simpl; auto).
    apply filter_In in Hf as [Hf Hid].
    assert (has_board d boardId = true)
      by (apply existsb_exists; eauto).
    congruence.
  - unfold some_statement_failed, statements_sent, run, load_board. step_monad.
    intros (k & Hk & Hf). revert Hk.
    destruct (faults 0%nat) eqn:F0; simpl; [reflexivity|].
    destruct (select_board boardId d) as [|board rest]; simpl.
    + intros Hk. assert (k = 0%nat) by lia. subst k. congruence.
    + destruct (faults 1%nat) eqn:F1; simpl; [reflexivity|].
      pose proof (load_lists_faults driver_date faults
                    (select_lists_of_board boardId d) (mkConn d None 2))
        as (_ & Hc & Hres).
      destruct (load_lists driver_date faults _ _) as [[e|views] c']; simpl in *.
      * subst e. reflexivity.
      * intros Hk. exfalso. rewrite Hc in Hk.
        destruct k as [|[|k]]; try congruence.
        rewrite (Hres (S (S k))) in Hf by lia. discriminate.
Qed.

Lemma load_board_reads_only_witness :
  fst (run (load_board plain_driver reliable 7) small_board) =
    BoardError 404 (Text "Board not found") /\
  fst (run (load_board plain_driver (fun k => Nat.eqb k 3) 1) small_board) =
    BoardError 500 (ErrMessage StoreFailure).
Proof.
  split.
  - apply (load_board_reads_only plain_driver reliable small_board 7). reflexivity.
  - apply (load_board_reads_only plain_driver (fun k => Nat.eqb k 3) small_board 1).
    exists 3%nat. split; [vm_compute; lia|reflexivity].
Defined.

(** ** The dates the loader prints *)

Lemma matches_app (p1 p2 : list atom) (s1 s2 : string) :
  matches p1 s1 = true ->
  matches (p1 ++ p2) (s1 ++ s2) = matches p2 s2.
Proof.
  revert s1. induction p1 as [|[|b] p1 IH]; intros [|a s1] H; simpl in *;
    try discriminate; try reflexivity.
  - apply andb_true_iff in H as [-> H]. simpl. now apply IH.
  - apply andb_true_iff in H as [-> H]. simpl. now apply IH.
Qed.

Lemma chars_app (s1 s2 : string) :
  list_ascii_of_string (s1 ++ s2) =
  (list_ascii_of_string s1 ++ list_ascii_of_string s2)%list.
Proof. induction s1 as [|a s1 IH]; simpl; congruence. Qed.

Lemma split_T_head_none (s : string) :
  forallb (fun a => negb (Ascii.eqb a "T")) (list_ascii_of_string s) = true ->
  split_T_head s = s.
Proof.
  induction s as [|a s IH]; simpl; [reflexivity|].
  intros H. apply andb_true_iff in H as [Ha Hs].
  apply negb_true_iff in Ha. rewrite Ha. f_equal. auto.
Qed.

Lemma year_text (y : nat) :
  Z.of_nat y <= 9999 ->
  forallb is_digit (list_ascii_of_string (string_of_nat y)) = true /\
  ((1000 <= y)%nat -> matches [Digit; Digit; Digit; Digit] (string_of_nat y) = true) /\
  ((y < 1000)%nat -> (String.length (string_of_nat y) <= 3)%nat).
Proof.
  intros Hy.
  assert (Hall : forallb (fun y =>
                    forallb is_digit (list_ascii_of_string (string_of_nat y))
                    && (if (1000 <=? y)%nat
                        then matches [Digit; Digit; Digit; Digit] (string_of_nat y)
                        else (String.length (string_of_nat y) <=? 3)%nat))
                  (seq 0 (Z.to_nat 10000)) = true) by (vm_compute; reflexivity).
  rewrite forallb_forall in Hall.
  specialize (Hall y). rewrite in_seq in Hall.
  assert (Hin : (0 <= y < 0 + Z.to_nat 10000)%nat) by lia.
  apply Hall in Hin. apply andb_true_iff in Hin as [Hd Hm].
  split; [exact Hd|]. split; intros Hr.
  - apply Nat.leb_le in Hr. now rewrite Hr in Hm.
  - apply Nat.leb_gt in Hr. rewrite Hr in Hm. now apply Nat.leb_le.
Qed.

Lemma two_digit_text (k : nat) :
  (k <= 99)%nat ->
  matches [Digit; Digit] (padStart2 (string_of_nat k)) = true /\
  forallb is_digit (list_ascii_of_string (padStart2 (string_of_nat k))) = true.
Proof.
  intros Hk.
  assert (Hall : forallb (fun k =>
                    matches [Digit; Digit] (padStart2 (string_of_nat k))
                    && forallb is_digit
                               (list_ascii_of_string (padStart2 (string_of_nat k))))
                  (seq 0 100) = true) by (vm_compute; reflexivity).
  rewrite forallb_forall in Hall.
  specialize (Hall k). rewrite in_seq in Hall.
  assert (Hin : (0 <= k < 0 + 100)%nat) by lia.
  apply Hall in Hin. now apply andb_true_iff in Hin.
Qed.

Lemma short_year_fails (s rest : string) :
  (String.length s <= 3)%nat ->
  matches date_pattern (s ++ String "-" rest) = false.
Proof.
  intros Hlen.
  assert (Hdash : is_digit "-" = false) by reflexivity.
  destruct s as [|a [|b [|c [|e s']]]]; simpl in Hlen; try lia;
    cbn [matches date_pattern String.append]; rewrite Hdash;
    rewrite ?andb_false_r; reflexivity.
Qed.

Lemma digit_not_T (a : ascii) :
  is_digit a = true -> negb (Ascii.eqb a "T") = true.
Proof. intros H. apply digit_facts in H as [_ ->]. reflexivity. Qed.

Lemma digits_no_T (s : string) :
  forallb is_digit (list_ascii_of_string s) = true ->
  forallb (fun a => negb (Ascii.eqb a "T")) (list_ascii_of_string s) = true.
Proof.
  intros H. rewrite forallb_forall in *. intros a Ha. apply digit_not_T. auto.
Qed.

(** X19. The text the loader prints for a Date with month 0..11 and day
    1..31 is accepted unchanged as a due date by card creation and card
    update when the year has four digits (1000..9999); for a year below
    1000 the year is printed without leading zeros and the text is refused
    by the same validation. *)
Theorem loaded_date_round_trip (getFullYear getMonth getDate : nat) :
  (getMonth <= 11)%nat ->
  (1 <= getDate <= 31)%nat ->
  let text := format_date_object getFullYear getMonth getDate in
  (1000 <= Z.of_nat getFullYear <= 9999 ->
   format_due_date (JString text) = Formatted (Some text)) /\
  ((getFullYear < 1000)%nat ->
   format_due_date (JString text) = InvalidDate).
Proof.
  intros Hm Hd. cbv zeta. unfold format_date_object. cbv zeta.
  set (year := string_of_nat getFullYear).
  set (month := padStart2 (string_of_nat (getMonth + 1))).
  set (day := padStart2 (string_of_nat getDate)).
  destruct (two_digit_text (getMonth + 1)) as [Hmonth Hmonthd]; [lia|].
  destruct (two_digit_text getDate) as [Hday Hdayd]; [lia|].
  fold month in Hmonth, Hmonthd. fold day in Hday, Hdayd.
  split.
  - intros Hy. destruct (year_text getFullYear) as (_ & Hyear & _); [lia|].
    assert (Hy1 : (1000 <= getFullYear)%nat) by lia.
    specialize (Hyear Hy1). fold year in Hyear.
    assert (Hmatch : matches date_pattern
                       (year ++ String "-" (month ++ String "-" day)) = true).
    { change date_pattern
        with ([Digit; Digit; Digit; Digit]
                ++ Chr "-" :: ([Digit; Digit] ++ Chr "-" :: [Digit; Digit]))%list.
      rewrite (matches_app _ _ _ _ Hyear). cbn [matches]. simpl Ascii.eqb.
      cbn [andb]. rewrite (matches_app _ _ _ _ Hmonth). cbn [matches].
      simpl Ascii.eqb. cbn [andb]. exact Hday. }
    destruct (date_text _ EmptyString Hmatch) as (Hb & Hh & _).
    rewrite format_due_date_string, Hb, Hh, Hmatch. reflexivity.
  - intros Hy. destruct (year_text getFullYear) as (Hyd & _ & Hshort); [lia|].
    specialize (Hshort Hy). fold year in Hyd, Hshort.
    set (text := (year ++ String "-" (month ++ String "-" day))%string).
    assert (HnoT : forallb (fun a => negb (Ascii.eqb a "T"))
                           (list_ascii_of_string text) = true).
    { unfold text. rewrite chars_app. simpl. rewrite chars_app. simpl.
      rewrite !forallb_app. simpl. rewrite !forallb_app. simpl.
      rewrite (digits_no_T year Hyd), (digits_no_T month Hmonthd),
        (digits_no_T day Hdayd). reflexivity. }
    assert (Hblank : blank text = false).
    { unfold blank, text. rewrite chars_app. rewrite forallb_app. simpl.
      apply andb_false_r. }
    rewrite format_due_date_string, Hblank, (split_T_head_none text HnoT).
    unfold text. now rewrite short_year_fails.
Qed.

Lemma loaded_date_round_trip_witness :
  format_due_date (JString (format_date_object 2024 2 15)) =
    Formatted (Some "2024-03-15"%string) /\
  format_due_date (JString (format_date_object 999 11 25)) = InvalidDate.
Proof.
  split.
  - apply (loaded_date_round_trip 2024 2 15); lia.
  - apply (loaded_date_round_trip 999 11 25); lia.
Defined.

(** ** The workers directory *)

Lemma filter_has_id_none workerId (rows : list worker_row) :
  ~ In workerId (map w_id rows) -> filter (has_id workerId) rows = [].
Proof.
  induction rows as [|w rows IH]; simpl; intros H; [reflexivity|].
  unfold has_id at 1. destruct (Z.eqb_spec (w_id w) workerId) as [E|E].
  - exfalso. apply H. left. exact E.
  - apply IH. intros Hin. apply H. right. exact Hin.
Qed.

Lemma filter_has_id_one workerId (rows : list worker_row) w :
  NoDup (map w_id rows) -> In w rows -> w_id w = workerId ->
  filter (has_id workerId) rows = [w].
Proof.
  induction rows as [|x rows IH]; simpl; intros Hnd Hin Hid; [contradiction|].
  inversion Hnd as [|? ? Hx Hrest]; subst.
  unfold has_id at 1. destruct Hin as [->|Hin].
  - rewrite Z.eqb_refl. f_equal. apply filter_has_id_none. exact Hx.
  - destruct (Z.eqb_spec (w_id x) (w_id w)) as [E|E].
    + exfalso. apply Hx. rewrite E. apply in_map. exact Hin.
    + apply IH; auto.
Qed.

Lemma filter_has_id_in workerId (rows : list worker_row) w :
  In w (filter (has_id workerId) rows) <-> In w rows /\ w_id w = workerId.
Proof.
  rewrite filter_In. unfold has_id. rewrite Z.eqb_eq. reflexivity.
Qed.

Lemma filter_others_in workerId (rows : list worker_row) w :
  In w (filter (fun w => negb (has_id workerId w)) rows) <->
  In w rows /\ w_id w <> workerId.
Proof.
  rewrite filter_In. unfold has_id. rewrite negb_true_iff, Z.eqb_neq. reflexivity.
Qed.

Lemma email_taken_spec same_email email rows :
  email_taken same_email email rows = true <->
  exists w e e', In w rows /\ w_email w = Some e' /\ email = Some e /\
                 same_email e' e = true.
Proof.
  unfold email_taken. destruct email as [e|].
  - rewrite existsb_exists. split.
    + intros (w & Hin & H). destruct (w_email w) as [e'|] eqn:E; [|discriminate].
      exists w, e, e'. auto.
    + intros (w & e0 & e' & Hin & E & [= <-] & H). exists w. split; [exact Hin|].
      rewrite E. exact H.
  - split; [discriminate|]. intros (w & e & e' & _ & _ & [=] & _).
Qed.

Lemma or_null_filled x : filled (or_null x).
Proof.
  unfold filled, or_null, missing. destruct x as [s|]; [|discriminate].
  destruct (String.eqb_spec s EmptyString) as [E|E]; [discriminate|].
  intros [= ->]. apply E. reflexivity.
Qed.

Lemma or_null_idem x : or_null (or_null x) = or_null x.
Proof.
  unfold or_null, missing. destruct x as [s|]; [|reflexivity].
  destruct (String.eqb s EmptyString) eqn:E; [reflexivity|]. rewrite E. reflexivity.
Qed.

Lemma or_null_of_filled x : filled x -> or_null x = x.
Proof.
  unfold filled, or_null, missing. destruct x as [s|]; [|reflexivity].
  destruct (String.eqb_spec s EmptyString) as [->|E]; [|reflexivity].
  intros H. exfalso. apply H. reflexivity.
Qed.

Lemma worker_of_ok id name body : name <> EmptyString -> worker_ok (worker_of id name body).
Proof.
  intros H. constructor; simpl; auto using or_null_filled.
Qed.

Lemma create_worker_stored same_email body name t :
  f_name body = Some name -> name <> EmptyString ->
  email_taken same_email (or_null (f_email body)) (workers t) = false ->
  create_worker same_email false body t =
    (NewWorker (next_worker_id t) body,
     mkDirectory (workers t ++ [worker_of (next_worker_id t) name body])
                 (next_worker_id t + 1)).
Proof.
  intros Hn Hne Hfree. unfold create_worker, send, insert_worker. rewrite Hn.
  destruct (String.eqb_spec name EmptyString) as [E|_]; [contradiction|].
  rewrite Hfree. reflexivity.
Qed.

Lemma create_worker_cases same_email fails body t :
  (exists name, f_name body = Some name /\ name <> EmptyString /\ fails = false /\
                email_taken same_email (or_null (f_email body)) (workers t) = false /\
                create_worker same_email fails body t =
                  (NewWorker (next_worker_id t) body,
                   mkDirectory (workers t ++ [worker_of (next_worker_id t) name body])
                               (next_worker_id t + 1))) \/
  (snd (create_worker same_email fails body t) = t /\
   forall id fields, fst (create_worker same_email fails body t) <> NewWorker id fields).
Proof.
  destruct (f_name body) as [name|] eqn:Hn.
  - destruct (String.eqb_spec name EmptyString) as [E|E].
    + right. unfold create_worker. rewrite Hn, E. simpl. split; [reflexivity|discriminate].
    + destruct fails.
      * right. unfold create_worker, send. rewrite Hn.
        destruct (String.eqb_spec name EmptyString); [contradiction|].
        simpl. split; [reflexivity|discriminate].
      * destruct (email_taken same_email (or_null (f_email body)) (workers t)) eqn:Ht.
        -- right. unfold create_worker, send, insert_worker. rewrite Hn.
           destruct (String.eqb_spec name EmptyString); [contradiction|].
           rewrite Ht. simpl. split; [reflexivity|discriminate].
        -- left. exists name. repeat split; auto.
           apply create_worker_stored; auto.
  - right. unfold create_worker. rewrite Hn. simpl. split; [reflexivity|discriminate].
Qed.

Lemma update_worker_cases same_email fails workerId body t :
  (exists name, f_name body = Some name /\ name <> EmptyString /\ fails = false /\
                filter (has_id workerId) (workers t) <> [] /\
                email_taken same_email (or_null (f_email body))
                            (filter (fun w => negb (has_id workerId w)) (workers t)) = false /\
                update_worker same_email fails workerId body t =
                  (WorkerSuccess,
                   mkDirectory (replaced workerId name body (workers t))
                               (next_worker_id t))) \/
  (snd (update_worker same_email fails workerId body t) = t /\
   fst (update_worker same_email fails workerId body t) <> WorkerSuccess).
Proof.
  destruct (f_name body) as [name|] eqn:Hn.
  - destruct (String.eqb_spec name EmptyString) as [E|E].
    + right. unfold update_worker. rewrite Hn, E. simpl. split; [reflexivity|discriminate].
    + destruct fails.
      * right. unfold update_worker, send. rewrite Hn.
        destruct (String.eqb_spec name EmptyString); [contradiction|].
        simpl. split; [reflexivity|discriminate].
      * destruct (filter (has_id workerId) (workers t)) as [|w ws] eqn:Hm.
        -- right. unfold update_worker, send, update_worker_row. rewrite Hn.
           destruct (String.eqb_spec name EmptyString); [contradiction|].
           rewrite Hm. simpl. split; [reflexivity|discriminate].
        -- destruct (email_taken same_email (or_null (f_email body))
                       (filter (fun w => negb (has_id workerId w)) (workers t))) eqn:Ht.
           ++ right. unfold update_worker, send, update_worker_row. rewrite Hn.
              destruct (String.eqb_spec name EmptyString); [contradiction|].
              rewrite Hm, Ht. simpl. split; [reflexivity|discriminate].
           ++ left. exists name. repeat split; auto; [discriminate|].
              unfold update_worker, send, update_worker_row. rewrite Hn.
              destruct (String.eqb_spec name EmptyString); [contradiction|].
              rewrite Hm, Ht.
              replace (Z.of_nat (List.length (w :: ws)) =? 0) with false
                by (symmetry; apply Z.eqb_neq; simpl List.length; lia).
              reflexivity.
  - right. unfold update_worker. rewrite Hn. simpl. split; [reflexivity|discriminate].
Qed.

Lemma delete_worker_cases fails workerId t :
  (fails = false /\ filter (has_id workerId) (workers t) <> [] /\
   delete_worker fails workerId t =
     (WorkerSuccess,
      mkDirectory (filter (fun w => negb (has_id workerId w)) (workers t))
                  (next_worker_id t))) \/
  (workers (snd (delete_worker fails workerId t)) = workers t /\
   next_worker_id (snd (delete_worker fails workerId t)) = next_worker_id t /\
   fst (delete_worker fails workerId t) <> WorkerSuccess /\
   (fails = false -> filter (has_id workerId) (workers t) = [] /\
                     fst (delete_worker fails workerId t) =
                       WorkerError 404 "Worker not found")).
Proof.
  destruct fails.
  - right. simpl. repeat split; discriminate.
  - destruct (filter (has_id workerId) (workers t)) as [|w ws] eqn:Hm.
    + right. unfold delete_worker, send, delete_worker_row. rewrite Hm. simpl.
      repeat split; try discriminate.
      symmetry. 
      assert (H : forall rows, filter (has_id workerId) rows = [] ->
                  filter (fun w => negb (has_id workerId w)) rows = rows).
      { induction rows as [|x rows IH]; simpl; [reflexivity|].
        destruct (has_id workerId x); [discriminate|]. simpl. intros H.
        f_equal. apply IH. exact H. }
      symmetry. apply H. exact Hm.
    + left. repeat split; [discriminate|].
      unfold delete_worker, send, delete_worker_row. rewrite Hm.
      replace (Z.of_nat (List.length (w :: ws)) =? 0) with false
        by (symmetry; apply Z.eqb_neq; simpl List.length; lia).
      reflexivity.
Qed.

Lemma get_worker_reads fails workerId t : snd (get_worker fails workerId t) = t.
Proof.
  unfold get_worker, send, select_worker. destruct fails; [reflexivity|].
  destruct (filter (has_id workerId) (workers t)); reflexivity.
Qed.

Lemma replaced_ids workerId name body rows :
  map w_id (replaced workerId name body rows) = map w_id rows.
Proof.
  unfold replaced. rewrite map_map. apply map_ext. intros w.
  destruct (has_id workerId w); reflexivity.
Qed.

Lemma in_replaced workerId name body rows x :
  In x (replaced workerId name body rows) ->
  (In x rows /\ w_id x <> workerId) \/
  (x = worker_of workerId name body /\ In workerId (map w_id rows)).
Proof.
  unfold replaced. rewrite in_map_iff. intros (w & <- & Hin).
  unfold has_id. destruct (Z.eqb_spec (w_id w) workerId) as [E|E].
  - right. rewrite E. split; [reflexivity|]. rewrite <- E. apply in_map. exact Hin.
  - left. auto.
Qed.

Section WorkerInvariant.

Variable same_email : string -> string -> bool.
Hypothesis same_email_sym : forall a b, same_email a b = same_email b a.

Lemma emails_unique_add rows w :
  emails_unique same_email rows ->
  email_taken same_email (w_email w) rows = false ->
  emails_unique same_email (rows ++ [w]).
Proof.
  intros Hu Hfree a b e e' Ha Hb Ea Eb Hs.
  rewrite in_app_iff in Ha, Hb. simpl in Ha, Hb.
  destruct Ha as [Ha|[<-|[]]], Hb as [Hb|[<-|[]]]; try reflexivity.
  - eapply Hu; eauto.
  - exfalso. assert (H : email_taken same_email (w_email w) rows = true).
    { apply email_taken_spec. exists a, e', e. auto. }
    congruence.
  - exfalso. assert (H : email_taken same_email (w_email w) rows = true).
    { apply email_taken_spec. exists b, e, e'. rewrite same_email_sym. auto. }
    congruence.
Qed.

Lemma emails_unique_replaced workerId name body rows :
  emails_unique same_email rows ->
  email_taken same_email (or_null (f_email body))
              (filter (fun w => negb (has_id workerId w)) rows) = false ->
  emails_unique same_email (replaced workerId name body rows).
Proof.
  intros Hu Hfree a b e e' Ha Hb Ea Eb Hs.
  apply in_replaced in Ha, Hb.
  destruct Ha as [[Ha Na]|[-> _]], Hb as [[Hb Nb]|[-> _]]; try reflexivity.
  - eapply Hu; eauto.
  - exfalso.
    assert (H : email_taken same_email (or_null (f_email body))
                  (filter (fun w => negb (has_id workerId w)) rows) = true).
    { apply email_taken_spec. exists a, e', e. rewrite filter_others_in. auto. }
    congruence.
  - exfalso.
    assert (H : email_taken same_email (or_null (f_email body))
                  (filter (fun w => negb (has_id workerId w)) rows) = true).
    { apply email_taken_spec. exists b, e, e'. rewrite filter_others_in.
      rewrite same_email_sym. auto. }
    congruence.
Qed.

Lemma handle_worker_keeps_ok fails r t :
  directory_ok same_email t ->
  directory_ok same_email (snd (handle_worker same_email fails r t)).
Proof.
  intros [Hnd Hiss Hu Hok]. destruct r as [workerId|body|workerId body|workerId];
    cbn [handle_worker].
  - rewrite get_worker_reads. constructor; assumption.
  - destruct (create_worker_cases same_email fails body t)
      as [(name & Hn & Hne & _ & Hfree & ->)|[-> _]]; [|constructor; assumption].
    constructor; cbn [snd workers next_worker_id].
    + rewrite map_app. simpl. apply NoDup_snoc; [exact Hnd|].
      intros x Hin. apply in_map_iff in Hin. destruct Hin as (w & <- & Hin).
      apply Hiss. exact Hin.
    + intros w Hin. apply in_app_iff in Hin. destruct Hin as [Hin|[<-|[]]].
      * apply Hiss in Hin. lia.
      * simpl. lia.
    + apply emails_unique_add; assumption.
    + intros w Hin. apply in_app_iff in Hin. destruct Hin as [Hin|[<-|[]]].
      * apply Hok. exact Hin.
      * apply worker_of_ok. exact Hne.
  - destruct (update_worker_cases same_email fails workerId body t)
      as [(name & Hn & Hne & _ & Hm & Hfree & ->)|[-> _]]; [|constructor; assumption].
    constructor; cbn [snd workers next_worker_id].
    + rewrite replaced_ids. exact Hnd.
    + intros w Hin. apply (in_map w_id) in Hin. rewrite replaced_ids in Hin.
      apply in_map_iff in Hin. destruct Hin as (w' & <- & Hin). apply Hiss. exact Hin.
    + apply emails_unique_replaced; assumption.
    + intros w Hin. apply in_replaced in Hin. destruct Hin as [[Hin _]|[-> _]].
      * apply Hok. exact Hin.
      * apply worker_of_ok. exact Hne.
  - destruct (delete_worker_cases fails workerId t)
      as [(_ & _ & ->)|(Hw & Hn & _)].
    + constructor; cbn [snd workers next_worker_id].
      * apply NoDup_map_filter. exact Hnd.
      * intros w Hin. apply filter_In in Hin. apply Hiss. apply Hin.
      * intros a b e e' Ha Hb. apply filter_In in Ha, Hb. apply Hu; tauto.
      * intros w Hin. apply filter_In in Hin. apply Hok. apply Hin.
    + constructor; rewrite ?Hw, ?Hn; assumption.
Qed.

End WorkerInvariant.

Lemma get_worker_run workerId t :
  get_worker false workerId t =
    (match filter (has_id workerId) (workers t) with
     | [] => WorkerError 404 "Worker not found"
     | w :: _ => Worker w
     end, t).
Proof.
  unfold get_worker, send, select_worker.
  destruct (filter (has_id workerId) (workers t)); reflexivity.
Qed.

Lemma get_worker_same workerId t t' :
  filter (has_id workerId) (workers t') = filter (has_id workerId) (workers t) ->
  fst (get_worker false workerId t') = fst (get_worker false workerId t).
Proof.
  intros H. rewrite !get_worker_run. cbn [fst]. rewrite H. reflexivity.
Qed.

Lemma filter_has_id_replaced other workerId name body rows :
  other <> workerId ->
  filter (has_id other) (replaced workerId name body rows) = filter (has_id other) rows.
Proof.
  intros Hne. induction rows as [|w rows IH]; [reflexivity|].
  cbn [replaced map filter]. fold (replaced workerId name body rows). rewrite IH.
  unfold has_id. destruct (Z.eqb_spec (w_id w) workerId) as [E|E]; [|reflexivity].
  cbn [worker_of w_id].
  destruct (Z.eqb_spec (w_id w) other); [congruence|reflexivity].
Qed.

Lemma filter_has_id_others other workerId (rows : list worker_row) :
  other <> workerId ->
  filter (has_id other) (filter (fun w => negb (has_id workerId w)) rows) =
  filter (has_id other) rows.
Proof.
  intros Hne. induction rows as [|w rows IH]; [reflexivity|].
  cbn [filter]. unfold has_id in *.
  destruct (Z.eqb_spec (w_id w) workerId) as [E|E]; cbn [negb filter].
  - destruct (Z.eqb_spec (w_id w) other); [congruence|exact IH].
  - rewrite IH. reflexivity.
Qed.

Lemma filter_has_id_gone workerId (rows : list worker_row) :
  filter (has_id workerId) (filter (fun w => negb (has_id workerId w)) rows) = [].
Proof.
  apply filter_none. intros w Hin. apply filter_In in Hin.
  destruct Hin as [_ H]. apply negb_true_iff in H. exact H.
Qed.

Lemma filter_has_id_nonempty workerId (rows : list worker_row) :
  filter (has_id workerId) rows <> [] <-> In workerId (map w_id rows).
Proof.
  split.
  - intros H. destruct (filter (has_id workerId) rows) as [|w ws] eqn:E; [congruence|].
    assert (Hin : In w (filter (has_id workerId) rows)) by (rewrite E; left; reflexivity).
    apply filter_has_id_in in Hin. destruct Hin as [Hin <-]. apply in_map. exact Hin.
  - intros Hin E. apply in_map_iff in Hin. destruct Hin as (w & Hid & Hin).
    assert (H : In w (filter (has_id workerId) rows))
      by (apply filter_has_id_in; auto).
    rewrite E in H. exact H.
Qed.

(** X20. Whatever requests the workers handlers (GET by id, POST, PUT,
    DELETE) serve, and whichever of them meet a failing store, a well-formed
    table stays well formed when the collation of the email column compares
    symmetrically: ids are distinct and below the next id to issue, no two
    rows hold the same email, every name is a non-empty text, and every
    optional column is null or a non-empty text. *)
Theorem workers_stay_well_formed (same_email : string -> string -> bool)
        (rs : list (bool * worker_request)) (t : directory) :
  (forall a b, same_email a b = same_email b a) ->
  directory_ok same_email t ->
  directory_ok same_email (serve_workers same_email rs t).
Proof.
  intros Hsym. revert t. induction rs as [|[fails r] rs IH]; intros t Hok; [exact Hok|].
  cbn [serve_workers]. apply IH. apply handle_worker_keeps_ok; assumption.
Qed.

Lemma empty_directory_ok same_email : directory_ok same_email empty_directory.
Proof.
  constructor; simpl; try constructor; try contradiction.
  intros a b e e' [].
Qed.

Lemma workers_stay_well_formed_witness :
  directory_ok String.eqb
    (serve_workers String.eqb
       [(false, PostWorker (mkFields (Some "Ada"%string) (Some "ada@example.org"%string) None None
                                     (Some ""%string) None None));
        (false, PostWorker (mkFields (Some "Bob"%string) (Some "ada@example.org"%string) None None
                                     None None None));
        (true, PostWorker (mkFields (Some "Cy"%string) None None None None None None));
        (false, PutWorker 1 (mkFields (Some "Ada L"%string) (Some ""%string) None None None None None));
        (false, DeleteWorker 1)]
       empty_directory).
Proof.
  apply workers_stay_well_formed.
  - intros a b. apply String.eqb_sym.
  - apply empty_directory_ok.
Defined.

(** X21. When POST /api/workers answers with a new worker, the answer
    carries the next id and the fields exactly as they were sent, while the
    row then served by GET /api/workers/:id holds them with every empty text
    turned into null; the rows served for the other ids are the same as
    before. *)
Theorem created_worker_round_trip (same_email : string -> string -> bool)
        (fails : bool) (body fields : worker_fields) (id : Z) (t t' : directory) :
  (forall w, In w (workers t) -> w_id w < next_worker_id t) ->
  create_worker same_email fails body t = (NewWorker id fields, t') ->
  fields = body /\ id = next_worker_id t /\
  exists name, f_name body = Some name /\
    get_worker false id t' = (Worker (worker_of id name body), t') /\
    forall other, other <> id ->
      fst (get_worker false other t') = fst (get_worker false other t).
Proof.
  intros Hiss Hrun.
  destruct (create_worker_cases same_email fails body t)
    as [(name & Hn & Hne & _ & Hfree & E)|[_ Hno]].
  - rewrite E in Hrun. injection Hrun as <- <- <-.
    split; [reflexivity|]. split; [reflexivity|]. exists name. split; [exact Hn|].
    split.
    + rewrite get_worker_run. cbn [workers]. rewrite filter_app.
      rewrite filter_has_id_none.
      * cbn [app filter]. unfold has_id. cbn [worker_of w_id].
        rewrite Z.eqb_refl. reflexivity.
      * intros Hin. apply in_map_iff in Hin. destruct Hin as (w & Hid & Hin).
        apply Hiss in Hin. lia.
    + intros other Hne'. apply get_worker_same. cbn [workers]. rewrite filter_app.
      cbn [filter]. unfold has_id at 2. cbn [worker_of w_id].
      destruct (Z.eqb_spec (next_worker_id t) other); [congruence|].
      apply app_nil_r.
  - exfalso. apply (Hno id fields). rewrite Hrun. reflexivity.
Qed.

Lemma created_worker_round_trip_witness :
  let body := mkFields (Some "Ada"%string) (Some ""%string) None
                       (Some "engineer"%string) None None None in
  let t' := snd (create_worker String.eqb false body empty_directory) in
  get_worker false 1 t' =
    (Worker (mkWorker 1 "Ada" None None (Some "engineer"%string) None None None), t').
Proof.
  intros body t'.
  destruct (created_worker_round_trip String.eqb false body body 1 empty_directory t')
    as (_ & _ & name & Hn & Hget & _).
  - simpl. contradiction.
  - reflexivity.
  - rewrite Hget. injection Hn as <-. reflexivity.
Defined.


(** X23. When PUT /api/workers/:id answers with success on a table with
    distinct ids, GET /api/workers/:id then serves a row with the same id
    and the fields sent, empty texts turned into null; the ids of the table,
    the next id to issue and the rows served for the other ids are the same
    as before. *)
Theorem updated_worker_round_trip (same_email : string -> string -> bool)
        (fails : bool) (workerId : Z) (body : worker_fields) (t t' : directory) :
  NoDup (map w_id (workers t)) ->
  update_worker same_email fails workerId body t = (WorkerSuccess, t') ->
  exists name, f_name body = Some name /\
    get_worker false workerId t' = (Worker (worker_of workerId name body), t') /\
    map w_id (workers t') = map w_id (workers t) /\
    next_worker_id t' = next_worker_id t /\
    forall other, other <> workerId ->
      fst (get_worker false other t') = fst (get_worker false other t).
Proof.
  intros Hnd Hrun.
  destruct (update_worker_cases same_email fails workerId body t)
    as [(name & Hn & Hne & _ & Hm & Hfree & E)|[_ Hno]].
  - rewrite E in Hrun. injection Hrun as <-.
    exists name. split; [exact Hn|]. cbn [workers next_worker_id].
    split; [|split; [apply replaced_ids|split; [reflexivity|]]].
    + rewrite get_worker_run. cbn [workers].
      rewrite (filter_has_id_one workerId _ (worker_of workerId name body)).
      * reflexivity.
      * rewrite replaced_ids. exact Hnd.
      * apply filter_has_id_nonempty in Hm. apply in_map_iff in Hm.
        destruct Hm as (w & Hid & Hin). unfold replaced. apply in_map_iff.
        exists w. split; [|exact Hin]. unfold has_id. rewrite Hid, Z.eqb_refl.
        reflexivity.
      * reflexivity.
    + intros other Hother. apply get_worker_same. cbn [workers].
      apply filter_has_id_replaced. exact Hother.
  - exfalso. apply Hno. rewrite Hrun. reflexivity.
Qed.

Lemma updated_worker_round_trip_witness :
  let body := mkFields (Some "Ada L"%string) (Some ""%string) (Some "555"%string) None None None None in
  get_worker false 1 (snd (update_worker String.eqb false 1 body two_workers)) =
    (Worker (mkWorker 1 "Ada L" None (Some "555"%string) None None None None),
     snd (update_worker String.eqb false 1 body two_workers)).
Proof.
  intros body.
  destruct (updated_worker_round_trip String.eqb false 1 body two_workers
              (snd (update_worker String.eqb false 1 body two_workers)))
    as (name & Hn & Hget & _).
  - simpl. repeat constructor; simpl; intuition discriminate.
  - reflexivity.
  - rewrite Hget. injection Hn as <-. reflexivity.
Defined.

(** X24. PUT /api/workers/:id with a name, on a well-formed table and a
    store that does not fail: an id that is in no row is answered 404
    "Worker not found" with the table unchanged; for the id of a row the
    answer is 400 "Email already exists" exactly when a row with another id
    holds the non-empty email sent, and success otherwise.  In particular
    sending a worker's own email again is never refused. *)
Theorem update_worker_answers (same_email : string -> string -> bool)
        (workerId : Z) (body : worker_fields) (name : string) (t : directory) :
  directory_ok same_email t ->
  f_name body = Some name -> name <> EmptyString ->
  let reply := fst (update_worker same_email false workerId body t) in
  (~ In workerId (map w_id (workers t)) ->
   update_worker same_email false workerId body t =
     (WorkerError 404 "Worker not found", t)) /\
  (In workerId (map w_id (workers t)) ->
   (reply = WorkerError 400 "Email already exists" <->
    exists w e e', In w (workers t) /\ w_id w <> workerId /\ w_email w = Some e' /\
                   f_email body = Some e /\ e <> EmptyString /\ same_email e' e = true) /\
   (reply <> WorkerError 400 "Email already exists" -> reply = WorkerSuccess) /\
   (forall w, In w (workers t) -> w_id w = workerId ->
              or_null (f_email body) = w_email w -> reply = WorkerSuccess)).
Proof.
  intros Hok Hn Hne reply. subst reply. split.
  - intros Hnot. unfold update_worker, send, update_worker_row. rewrite Hn.
    destruct (String.eqb_spec name EmptyString); [contradiction|].
    rewrite filter_has_id_none by exact Hnot. reflexivity.
  - intros Hin.
    assert (Hrun : fst (update_worker same_email false workerId body t) =
                   if email_taken same_email (or_null (f_email body))
                        (filter (fun w => negb (has_id workerId w)) (workers t))
                   then WorkerError 400 "Email already exists" else WorkerSuccess).
    { unfold update_worker, send, update_worker_row. rewrite Hn.
      destruct (String.eqb_spec name EmptyString); [contradiction|].
      apply filter_has_id_nonempty in Hin.
      destruct (filter (has_id workerId) (workers t)) as [|w ws]; [congruence|].
      destruct (email_taken same_email (or_null (f_email body))
                  (filter (fun w => negb (has_id workerId w)) (workers t)));
        [reflexivity|].
      replace (Z.of_nat (List.length (w :: ws)) =? 0) with false
        by (symmetry; apply Z.eqb_neq; simpl List.length; lia).
      reflexivity. }
    rewrite Hrun.
    destruct (email_taken same_email (or_null (f_email body))
                (filter (fun w => negb (has_id workerId w)) (workers t))) eqn:Ht.
    + apply email_taken_spec in Ht. destruct Ht as (w & e & e' & Hw & Ew & Ee & Hs).
      apply filter_others_in in Hw. destruct Hw as [Hw Hid].
      split; [|split].
      * split; [|reflexivity]. intros _. exists w, e, e'.
        unfold or_null, missing in Ee. destruct (f_email body) as [s|]; [|discriminate].
        destruct (String.eqb_spec s EmptyString) as [Es|Es]; [discriminate|].
        injection Ee as ->. repeat split; auto.
      * intros H. exfalso. apply H. reflexivity.
      * intros own Hown Hownid Eown. exfalso. apply Hid.
        rewrite <- Hownid. f_equal.
        apply (worker_emails_unique _ _ Hok w own e' e); auto. congruence.
    + split; [|split]; auto.
      split; [discriminate|].
      intros (w & e & e' & Hw & Hid & Ew & Ee & Hnee & Hs). exfalso.
      assert (H : email_taken same_email (or_null (f_email body))
                    (filter (fun w => negb (has_id workerId w)) (workers t)) = true).
      { apply email_taken_spec. exists w, e, e'. rewrite filter_others_in, Ee.
        unfold or_null, missing. destruct (String.eqb_spec e EmptyString); [contradiction|].
        auto. }
      congruence.
Qed.

Lemma two_workers_ok : directory_ok String.eqb two_workers.
Proof.
  constructor.
  - simpl. repeat constructor; simpl; intuition discriminate.
  - simpl. intros w [<-|[<-|[]]]; simpl; lia.
  - intros a b e e' [<-|[<-|[]]] [<-|[<-|[]]]; simpl; intros [= <-] [= <-];
      try reflexivity; discriminate.
  - simpl. intros w [<-|[<-|[]]]; constructor; simpl; discriminate.
Qed.

Lemma update_worker_answers_witness :
  fst (update_worker String.eqb false 2
         (mkFields (Some "Bob"%string) (Some "ada@example.org"%string) None None None None None)
         two_workers) = WorkerError 400 "Email already exists" /\
  fst (update_worker String.eqb false 2
         (mkFields (Some "Robert"%string) (Some "bob@example.org"%string) None None None None None)
         two_workers) = WorkerSuccess.
Proof.
  split.
  - destruct (update_worker_answers String.eqb 2
                (mkFields (Some "Bob"%string) (Some "ada@example.org"%string) None None None None None)
                "Bob" two_workers two_workers_ok eq_refl) as [_ H].
    + discriminate.
    + destruct H as [[_ H] _]; [simpl; auto|]. apply H.
      exists (mkWorker 1 "Ada" (Some "ada@example.org"%string) None None None None None),
             "ada@example.org"%string, "ada@example.org"%string.
      simpl. repeat split; auto; discriminate.
  - destruct (update_worker_answers String.eqb 2
                (mkFields (Some "Robert"%string) (Some "bob@example.org"%string) None None None None None)
                "Robert" two_workers two_workers_ok eq_refl) as [_ H].
    + discriminate.
    + destruct H as (_ & _ & H); [simpl; auto|].
      apply (H (mkWorker 2 "Bob" (Some "bob@example.org"%string) None None None None None));
        simpl; auto.
Defined.

(** X25. DELETE /api/workers/:id on a store that does not fail answers with
    success exactly when a row has the id and 404 otherwise (unlike the
    deletions of cards and lists, which answer with success either way).
    Afterwards GET and a second DELETE for the id are answered 404, and the
    rows served for the other ids are the same as before. *)
Theorem deleted_worker_is_gone (workerId : Z) (t : directory) :
  let reply := fst (delete_worker false workerId t) in
  let t' := snd (delete_worker false workerId t) in
  (reply = WorkerSuccess <-> In workerId (map w_id (workers t))) /\
  (reply = WorkerError 404 "Worker not found" <-> ~ In workerId (map w_id (workers t))) /\
  fst (get_worker false workerId t') = WorkerError 404 "Worker not found" /\
  delete_worker false workerId t' = (WorkerError 404 "Worker not found", t') /\
  (forall other, other <> workerId ->
     fst (get_worker false other t') = fst (get_worker false other t)).
Proof.
  cbv zeta.
  assert (Hrun : delete_worker false workerId t =
                 (if Z.of_nat (List.length (filter (has_id workerId) (workers t))) =? 0
                  then WorkerError 404 "Worker not found" else WorkerSuccess,
                  mkDirectory (filter (fun w => negb (has_id workerId w)) (workers t))
                              (next_worker_id t))).
  { unfold delete_worker, send, delete_worker_row.
    destruct (Z.of_nat (List.length (filter (has_id workerId) (workers t))) =? 0);
      reflexivity. }
  rewrite Hrun. cbn [fst snd].
  assert (Hgone : forall t0, workers t0 = filter (fun w => negb (has_id workerId w)) (workers t) ->
                  filter (has_id workerId) (workers t0) = []).
  { intros t0 ->. apply filter_has_id_gone. }
  split; [|split; [|split; [|split]]].
  - rewrite <- filter_has_id_nonempty.
    destruct (filter (has_id workerId) (workers t)) as [|w ws]; simpl List.length.
    + simpl. split; [discriminate|congruence].
    + replace (Z.of_nat (S (List.length ws)) =? 0) with false
        by (symmetry; apply Z.eqb_neq; lia).
      split; [discriminate|reflexivity].
  - rewrite <- filter_has_id_nonempty.
    destruct (filter (has_id workerId) (workers t)) as [|w ws]; simpl List.length.
    + simpl. split; [congruence|reflexivity].
    + replace (Z.of_nat (S (List.length ws)) =? 0) with false
        by (symmetry; apply Z.eqb_neq; lia).
      split; [discriminate|]. intros H. exfalso. apply H. discriminate.
  - rewrite get_worker_run. cbn [fst workers]. rewrite filter_has_id_gone. reflexivity.
  - unfold delete_worker, send, delete_worker_row. cbn [workers next_worker_id].
    rewrite filter_has_id_gone. cbn [List.length Z.of_nat Z.eqb].
    f_equal. f_equal. apply filter_all. intros w Hin. apply filter_In in Hin. apply Hin.
  - intros other Hother. apply get_worker_same. cbn [workers].
    apply filter_has_id_others. exact Hother.
Qed.

(** X26. Whatever the request to the workers handlers and whether or not
    the store fails, an answer that reports an error (400, 404 or 500)
    leaves the rows of the table as they were; a POST or PUT whose name is
    missing or empty is answered 400 "Name is required" and leaves the
    table as it was. *)
Theorem refused_worker_request_keeps_rows (same_email : string -> string -> bool)
        (fails : bool) (r : worker_request) (t : directory) :
  (forall status error,
     fst (handle_worker same_email fails r t) = WorkerError status error ->
     workers (snd (handle_worker same_email fails r t)) = workers t) /\
  (fst (handle_worker same_email fails r t) = WorkerStoreError ->
   workers (snd (handle_worker same_email fails r t)) = workers t) /\
  (forall body, missing (f_name body) = true ->
     (r = PostWorker body \/ exists workerId, r = PutWorker workerId body) ->
     handle_worker same_email fails r t = (WorkerError 400 "Name is required", t)).
Proof.
  assert (Hrows : forall reply, (reply = WorkerSuccess -> False) ->
            (forall id fields, reply = NewWorker id fields -> False) ->
            fst (handle_worker same_email fails r t) = reply ->
            workers (snd (handle_worker same_email fails r t)) = workers t).
  { intros reply Hns Hnn E. destruct r as [workerId|body|workerId body|workerId];
      cbn [handle_worker] in *.
    - rewrite get_worker_reads. reflexivity.
    - destruct (create_worker_cases same_email fails body t)
        as [(name & _ & _ & _ & _ & E')|[-> _]]; [|reflexivity].
      exfalso. rewrite E' in E. cbn [fst] in E. eapply Hnn. symmetry. exact E.
    - destruct (update_worker_cases same_email fails workerId body t)
        as [(name & _ & _ & _ & _ & _ & E')|[-> _]]; [|reflexivity].
      exfalso. rewrite E' in E. cbn [fst] in E. apply Hns. symmetry. exact E.
    - destruct (delete_worker_cases fails workerId t)
        as [(_ & _ & E')|(Hw & _)]; [|exact Hw].
      exfalso. rewrite E' in E. cbn [fst] in E. apply Hns. symmetry. exact E. }
  split; [|split].
  - intros status error E.
    apply (Hrows (WorkerError status error)); [discriminate|discriminate|exact E].
  - intros E. apply (Hrows WorkerStoreError); [discriminate|discriminate|exact E].
  - intros body Hmiss [->|[workerId ->]]; cbn [handle_worker];
      unfold create_worker, update_worker, missing in *;
      destruct (f_name body) as [name|]; try reflexivity; rewrite Hmiss; reflexivity.
Qed.
